(** * Grid aggregation of Chicago civic records

    A shallow embedding of the aggregation core of the three data scripts

    - [scripts/process-neighborhood-data.py]  (module [Neighborhood]),
    - [scripts/process-additional-data.py]    (module [Additional]),
    - [scripts/update-neighborhood-data.py]   (module [Update]),

    followed by the properties the specification states about them.

    Python's [float] is IEEE binary64 and is modelled by Rocq's primitive
    [float]; Python's [int] is unbounded and is modelled by [Z].  A Python
    exception is the [None] of an [option]; [try: ... except: continue] and
    [except: pass] are written out at each place the source has them.
    Text is ASCII ([string]); a CSV or JSON row is a finite map from column
    names to text. *)

From Stdlib Require Import ZArith NArith List String Ascii Bool Lia Floats.
From Stdlib Require Import Permutation.
Import ListNotations.

#[local] Set Warnings "-inexact-float".
#[local] Open Scope Z_scope.

(** ** The exception monad *)

Definition bind {A B : Type} (x : option A) (k : A -> option B) : option B :=
  match x with
  | Some a => k a
  | None => None
  end.

Notation "x <- e ;; k" := (bind e (fun x => k))
  (at level 61, e at next level, right associativity).
Notation "' p <- e ;; k" := (bind e (fun x => match x with p => k end))
  (at level 61, p pattern, e at next level, right associativity).

Fixpoint mapM {A B : Type} (f : A -> option B) (l : list A) : option (list B) :=
  match l with
  | [] => Some []
  | a :: t => b <- f a ;; r <- mapM f t ;; Some (b :: r)
  end.

(** ** Python text *)

Module Str.

#[local] Open Scope string_scope.

Definition code (c : ascii) : N := N_of_ascii c.

(** The ASCII characters [str.strip()] and [float()] treat as white space. *)
Definition is_space (c : ascii) : bool :=
  let n := code c in
  (((9 <=? n) && (n <=? 13)) || ((28 <=? n) && (n <=? 32)))%N.

Definition is_digit (c : ascii) : bool :=
  let n := code c in ((48 <=? n) && (n <=? 57))%N.

Definition digit_val (c : ascii) : Z := Z.of_N (code c) - 48.

Definition upper_char (c : ascii) : ascii :=
  let n := code c in
  if ((97 <=? n) && (n <=? 122))%N then ascii_of_N (n - 32) else c.

Definition lower_char (c : ascii) : ascii :=
  let n := code c in
  if ((65 <=? n) && (n <=? 90))%N then ascii_of_N (n + 32) else c.

Fixpoint map_chars (f : ascii -> ascii) (s : string) : string :=
  match s with
  | EmptyString => EmptyString
  | String c t => String (f c) (map_chars f t)
  end.

(** [s.upper()] *)
Definition upper (s : string) : string := map_chars upper_char s.
Definition lower (s : string) : string := map_chars lower_char s.

Fixpoint lstrip (s : string) : string :=
  match s with
  | String c t => if is_space c then lstrip t else s
  | EmptyString => EmptyString
  end.

Fixpoint rstrip (s : string) : string :=
  match s with
  | EmptyString => EmptyString
  | String c t =>
      match rstrip t with
      | EmptyString => if is_space c then EmptyString else String c EmptyString
      | t' => String c t'
      end
  end.

(** [s.strip()] *)
Definition strip (s : string) : string := rstrip (lstrip s).

(** [s.replace(c, '')] for a one-character [c] *)
Fixpoint remove_char (c : ascii) (s : string) : string :=
  match s with
  | EmptyString => EmptyString
  | String d t => if Ascii.eqb c d then remove_char c t else String d (remove_char c t)
  end.

(** [needle in hay] on text: substring containment *)
Fixpoint contains (needle hay : string) : bool :=
  prefix needle hay ||
  match hay with
  | EmptyString => false
  | String _ t => contains needle t
  end.

(** Truth value of a text: [bool(s)] *)
Definition truthy (s : string) : bool := negb (s =? "").

(** [s.split()[0]]: the first white-space delimited word; [IndexError] when
    there is none. *)
Fixpoint word (s : string) : string :=
  match s with
  | EmptyString => EmptyString
  | String c t => if is_space c then EmptyString else String c (word t)
  end.

Definition first_word (s : string) : option string :=
  match word (lstrip s) with
  | EmptyString => None
  | w => Some w
  end.

End Str.

(** ** Python numbers *)

Module Py.

#[local] Open Scope float_scope.

(** *** From a float to an integer *)

(** The integer nearest to [m * 2^e], a tie going to the even neighbour. *)
Definition nearest_even (m : positive) (e : Z) : Z :=
  if (0 <=? e)%Z then (Zpos m * 2 ^ e)%Z
  else
    let d := (2 ^ (- e))%Z in
    let q := (Zpos m / d)%Z in
    let r := (Zpos m mod d)%Z in
    match (2 * r ?= d)%Z with
    | Lt => q
    | Gt => (q + 1)%Z
    | Eq => if Z.even q then q else (q + 1)%Z
    end.

(** [round(x)] with one argument: [float.__round__] rounds the exact value
    of [x] half to even and returns an [int]; it raises on an infinity
    ([OverflowError]) and on a NaN ([ValueError]). *)
Definition round (x : float) : option Z :=
  match Prim2SF x with
  | S754_zero _ => Some 0%Z
  | S754_finite s m e => Some (cond_Zopp s (nearest_even m e))
  | S754_infinity _ => None
  | S754_nan => None
  end.

(** The integer part of [m * 2^e]. *)
Definition truncate (m : positive) (e : Z) : Z :=
  if (0 <=? e)%Z then (Zpos m * 2 ^ e)%Z else (Zpos m / 2 ^ (- e))%Z.

(** [int(x)] on a float: truncation toward zero; raises on infinities and
    NaN. *)
Definition int (x : float) : option Z :=
  match Prim2SF x with
  | S754_zero _ => Some 0%Z
  | S754_finite s m e => Some (cond_Zopp s (truncate m e))
  | S754_infinity _ => None
  | S754_nan => None
  end.

(** *** From an integer to a float *)

(** The conversion Python applies to the [int] operand of a mixed
    [int * float] or [int + float]: the nearest binary64 (ties to even),
    [OverflowError] when that would be an infinity. *)
Definition float_of_int (k : Z) : option float :=
  match binary_normalize prec emax k 0 false with
  | S754_infinity _ => None
  | s => Some (SF2Prim s)
  end.

(** [a / b] on two [int]s: the correctly rounded quotient
    ([ZeroDivisionError] on [b = 0], [OverflowError] when the quotient is
    too large). *)
Definition int_as_SF (a : Z) : spec_float :=
  match a with
  | Z0 => S754_zero false
  | Zpos p => S754_finite false p 0
  | Zneg p => S754_finite true p 0
  end.

Definition truediv (a b : Z) : option float :=
  if (b =? 0)%Z then None
  else
    match SF64div (int_as_SF a) (int_as_SF b) with
    | S754_infinity _ => None
    | s => Some (SF2Prim s)
    end.

(** *** From text to a number *)

(** The value [(-1)^neg * m * 10^e10], correctly rounded to binary64. *)
Definition decimal (neg : bool) (m : Z) (e10 : Z) : spec_float :=
  match m with
  | Zpos p =>
      if (0 <=? e10)%Z
      then binary_round prec emax neg (p * Z.to_pos (10 ^ e10)) 0
      else SF64div (S754_finite neg p 0)
                   (S754_finite false (Z.to_pos (10 ^ (- e10))) 0)
  | _ => S754_zero neg
  end.

(** [digitpart ::= digit (["_"] digit)*], read as far as it goes: the value
    read so far, the number of digits, and the rest of the text. *)
Fixpoint digits_run (acc n : Z) (s : string) : Z * Z * string :=
  match s with
  | String c t =>
      if Str.is_digit c then digits_run (acc * 10 + Str.digit_val c)%Z (n + 1)%Z t
      else if Ascii.eqb c "_" then
        match t with
        | String d _ => if Str.is_digit d then digits_run acc n t else (acc, n, s)
        | EmptyString => (acc, n, s)
        end
      else (acc, n, s)
  | EmptyString => (acc, n, EmptyString)
  end.

Definition starts_with_digit (s : string) : bool :=
  match s with
  | String c _ => Str.is_digit c
  | EmptyString => false
  end.

Definition digitpart (s : string) : option (Z * Z * string) :=
  if starts_with_digit s then Some (digits_run 0 0 s) else None.

(** An optional sign: [true] for ["-"]. *)
Definition sign (s : string) : bool * string :=
  match s with
  | String "-" t => (true, t)
  | String "+" t => (false, t)
  | _ => (false, s)
  end.

(** [exponent ::= ("e" | "E") [sign] digitpart], or nothing. *)
Definition exponent (s : string) : option (Z * string) :=
  match s with
  | String c t =>
      if Ascii.eqb c "e" || Ascii.eqb c "E" then
        let '(neg, t') := sign t in
        '(v, _, rest) <- digitpart t' ;;
        Some (if neg then (- v)%Z else v, rest)
      else Some (0%Z, s)
  | EmptyString => Some (0%Z, s)
  end.

(** [number ::= [digitpart] "." digitpart | digitpart ["."]]: the digits as
    one integer and the count of those after the point. *)
Definition number (s : string) : option (Z * Z * string) :=
  match digitpart s with
  | Some (i, _, String "." t) =>
      match digitpart t with
      | Some (f, nf, rest) => Some ((i * 10 ^ nf + f)%Z, nf, rest)
      | None => Some (i, 0%Z, t)
      end
  | Some (i, _, rest) => Some (i, 0%Z, rest)
  | None =>
      match s with
      | String "." t => digitpart t
      | _ => None
      end
  end.

Definition floatnumber (neg : bool) (s : string) : option spec_float :=
  '(m, nf, rest) <- number s ;;
  '(e, rest') <- exponent rest ;;
  match rest' with
  | EmptyString => Some (decimal neg m (e - nf))
  | _ => None
  end.

(** [float(s)] on text: white space stripped, then
    [[sign] (floatnumber | "inf" | "infinity" | "nan")], letters in either
    case; [ValueError] otherwise. *)
Definition float_of_string (s : string) : option float :=
  let '(neg, t) := sign (Str.strip s) in
  let l := Str.lower t in
  if ((l =? "inf") || (l =? "infinity"))%string then Some (SF2Prim (S754_infinity neg))
  else if (l =? "nan")%string then Some nan
  else option_map SF2Prim (floatnumber neg t).

(** [int(s)] on text: white space stripped, then [[sign] digitpart]. *)
Definition int_of_string (s : string) : option Z :=
  let '(neg, t) := sign (Str.strip s) in
  '(v, _, rest) <- digitpart t ;;
  match rest with
  | EmptyString => Some (if neg then (- v)%Z else v)
  | _ => None
  end.

(** *** Mixed arithmetic *)

(** [k * x] with [k] an [int] and [x] a [float]. *)
Definition int_mul_float (k : Z) (x : float) : option float :=
  f <- float_of_int k ;; Some (f * x).

(** [k + x] with [k] an [int] and [x] a [float]. *)
Definition int_add_float (k : Z) (x : float) : option float :=
  f <- float_of_int k ;; Some (f + x).

(** [x * k] with [x] a [float] and [k] an [int]. *)
Definition float_mul_int (x : float) (k : Z) : option float :=
  f <- float_of_int k ;; Some (x * f).

(** [x / k] with [x] a [float] and [k] an [int]. *)
Definition float_div_int (x : float) (k : Z) : option float :=
  f <- float_of_int k ;;
  if (k =? 0)%Z then None else Some (x / f).

(** *** [round(x, n)] *)

(** The exact value [m * 2^e * 10^n] rounded half to even to an integer. *)
Definition scaled_nearest_even (m : positive) (e n : Z) : Z :=
  let num := (Zpos m * (if 0 <=? e then 2 ^ e else 1) * (if 0 <=? n then 10 ^ n else 1))%Z in
  let den := ((if 0 <=? e then 1 else 2 ^ (- e)) * (if 0 <=? n then 1 else 10 ^ (- n)))%Z in
  let q := (num / den)%Z in
  let r := (num mod den)%Z in
  match (2 * r ?= den)%Z with
  | Lt => q
  | Gt => (q + 1)%Z
  | Eq => if Z.even q then q else (q + 1)%Z
  end.

(** [round(x, n)] on a float: the decimal with [n] places nearest to the
    exact value of [x] (ties to even), read back as a float. *)
Definition round_to (x : float) (n : Z) : float :=
  match Prim2SF x with
  | S754_finite s m e => SF2Prim (decimal s (scaled_nearest_even m e n) (- n))
  | _ => x
  end.

End Py.

(** ** Rows, dictionaries, sorting *)

#[local] Open Scope string_scope.
#[local] Open Scope Z_scope.

(** A row of a CSV file ([csv.DictReader]) or of a JSON reply: column name
    to text. *)
Definition row := list (string * string).

Fixpoint row_get (r : row) (k : string) : option string :=
  match r with
  | [] => None
  | (k', v) :: t => if (k' =? k)%string then Some v else row_get t k
  end.

(** [row.get(k, '')] *)
Definition field (r : row) (k : string) : string :=
  match row_get r k with
  | Some s => s
  | None => ""
  end.

(** [float(row.get(k, 0))] *)
Definition float_field (r : row) (k : string) : option float :=
  match row_get r k with
  | Some s => Py.float_of_string s
  | None => Some 0%float
  end.

(** [float(row.get(k, 0) or 0)] *)
Definition float_field_or0 (r : row) (k : string) : option float :=
  match row_get r k with
  | Some s => if Str.truthy s then Py.float_of_string s else Some 0%float
  | None => Some 0%float
  end.

(** [int(row.get(k, d) or d)] *)
Definition int_field_or (d : Z) (r : row) (k : string) : option Z :=
  match row_get r k with
  | Some s => if Str.truthy s then Py.int_of_string s else Some d
  | None => Some d
  end.

(** [f"{a} {b} {c}".strip()] *)
Definition join3_strip (a b c : string) : string :=
  Str.strip (a ++ " " ++ b ++ " " ++ c).

(** Truth value of a latch field ([None] or text). *)
Definition unset (o : option string) : bool :=
  match o with
  | None => true
  | Some s => negb (Str.truthy s)
  end.

(** [x or ''] *)
Definition or_empty (o : option string) : string :=
  match o with
  | None => ""
  | Some s => s
  end.

(** [if not cell[f]: cell[f] = v] *)
Definition latch (o : option string) (v : string) : option string :=
  if unset o then Some v else o.

(** The date test of the recency window: [Some true] when
    [datetime.strptime(s, '%m/%d/%Y')] succeeds and is not before the
    cutoff, [Some false] when it is before, [None] when [strptime] raises.
    The cutoff is the processing time minus the window; the clock is
    outside the model, so the test is a parameter of the fold. *)
Definition clock := string -> option bool.

Section Dict.
Context {K V : Type}.
Variable eqb : K -> K -> bool.

(** A [dict] in insertion order. *)
Definition dict := list (K * V).

Fixpoint lookup (k : K) (d : dict) : option V :=
  match d with
  | [] => None
  | (k', v) :: t => if eqb k' k then Some v else lookup k t
  end.

(** [d[k] = f(d[k])] on a [defaultdict] whose factory returns [dflt]:
    the entry is created at the end of the dictionary on a first access. *)
Fixpoint update (k : K) (dflt : V) (f : V -> V) (d : dict) : dict :=
  match d with
  | [] => [(k, f dflt)]
  | (k', v) :: t =>
      if eqb k' k then (k', f v) :: t else (k', v) :: update k dflt f t
  end.
End Dict.

Arguments dict : clear implicits.

(** [counts[c] += 1] on a [defaultdict(int)] *)
Definition incr (c : string) (counts : dict string Z) : dict string Z :=
  update String.eqb c 0 Z.succ counts.

(** [counts.get(c, 0)] *)
Definition get0 (c : string) (counts : dict string Z) : Z :=
  match lookup String.eqb c counts with
  | Some n => n
  | None => 0
  end.

(** The loop [for row in rows: body], an exception leaving the loop. *)
Fixpoint fold_rows {S : Type} (body : row -> S -> option S) (rows : list row) (s : S)
  : option S :=
  match rows with
  | [] => Some s
  | r :: t => s' <- body r s ;; fold_rows body t s'
  end.

(** The flattened keyword table
    [for cat, types in T.items(): for t in types: type_to_category[t] = cat]
    (no keyword is listed twice in the tables of the scripts). *)
Definition flatten (T : list (string * list string)) : list (string * string) :=
  flat_map (fun ct => map (fun t => (t, fst ct)) (snd ct)) T.

(** [for kw, cat in table: if kw in text: return cat], in table order. *)
Fixpoint first_containing (table : list (string * string)) (text : string)
  : option string :=
  match table with
  | [] => None
  | (kw, cat) :: t =>
      if Str.contains kw text then Some cat else first_containing t text
  end.

(** [list.sort(key=...)]: a stable sort, ascending in the key. *)
Section Sort.
Context {A : Type}.
Variable key : A -> Z.

Fixpoint insert (x : A) (l : list A) : list A :=
  match l with
  | [] => [x]
  | y :: t => if (key x <=? key y)%Z then x :: l else y :: insert x t
  end.

Definition sort (l : list A) : list A := fold_right insert [] l.
End Sort.

(** ** Grid cells *)

#[local] Open Scope float_scope.

(** The Chicago envelope: [41.6 < lat < 42.1 and -88.0 < lng < -87.5]. *)
Definition in_box (lat lng : float) : bool :=
  (41.6 <? lat) && (lat <? 42.1) && (-88.0 <? lng) && (lng <? -87.5).

(** [(round(lat / B) * B, round(lng / B) * B)] *)
Definition quantize (B lat lng : float) : option (float * float) :=
  i <- Py.round (lat / B) ;;
  qlat <- Py.int_mul_float i B ;;
  j <- Py.round (lng / B) ;;
  qlng <- Py.int_mul_float j B ;;
  Some (qlat, qlng).

(** Equality of two grid keys, [(a, b) == (c, d)] on tuples of floats. *)
Definition key_eqb (p q : float * float) : bool :=
  (fst p =? fst q) && (snd p =? snd q).

(** Truth value of a float: [bool(x)] *)
Definition nonzero (x : float) : bool := negb (x =? 0).

(** The coordinates of a row as the grid scripts read them; [None] stands
    for the [except: continue] of the source. *)
Definition coords (r : row) (lat_col lng_col : string) : option (float * float) :=
  lat <- float_field r lat_col ;;
  lng <- float_field r lng_col ;;
  Some (lat, lng).

Definition coords_or0 (r : row) (lat_col lng_col : string) : option (float * float) :=
  lat <- float_field_or0 r lat_col ;;
  lng <- float_field_or0 r lng_col ;;
  Some (lat, lng).

#[local] Close Scope float_scope.

(** The output of one dataset: the [meta] counters and the [data] array. *)
Record output (E : Type) := Output {
  meta_total : Z;
  meta_blocks : Z;
  data : list E
}.
Arguments Output {E}.
Arguments meta_total {E}.
Arguments meta_blocks {E}.
Arguments data {E}.

Definition total {V : Type} (f : V -> Z) (cells : dict (float * float) V) : Z :=
  fold_left (fun acc kv => acc + f (snd kv)) cells 0.

(** * [scripts/process-neighborhood-data.py] *)

Module Neighborhood.

Definition BLOCK_SIZE : float := 0.002%float.

Definition round_to_block (lat lng : float) : option (float * float) :=
  quantize BLOCK_SIZE lat lng.

(** ** 311 service requests *)
Module Requests.

Definition RELEVANT_CATEGORIES : list (string * list string) :=
  [ ("infrastructure",
      [ "Pothole in Street Complaint"; "Alley Pothole Complaint";
        "Street Light Out Complaint"; "Alley Light Out Complaint";
        "Traffic Signal Out Complaint"; "Sign Repair Request";
        "Sidewalk Inspection Request" ]);
    ("sanitation",
      [ "Graffiti Removal Request"; "Garbage Cart Maintenance";
        "Fly Dumping Complaint"; "Sanitation Code Violation";
        "Dead Animal Pick-Up Request" ]);
    ("pests", [ "Rodent Baiting/Rat Complaint"; "Stray Animal Complaint" ]);
    ("vehicles", [ "Abandoned Vehicle Complaint" ]);
    ("trees",
      [ "Tree Trim Request"; "Tree Debris Clean-Up Request";
        "Tree Emergency"; "Weed Removal Request" ]);
    ("water",
      [ "Water On Street Complaint"; "Sewer Cleaning Inspection Request";
        "Check for Leak" ]) ].

Definition type_to_category : list (string * string) :=
  Eval cbv in flatten RELEVANT_CATEGORIES.

(** [for type_name, cat in type_to_category.items():
       if type_name in sr_type: category = cat; break] *)
Definition find_category (sr_type : string) : option string :=
  first_containing type_to_category sr_type.

Record block := Block {
  count : Z;
  categories : dict string Z;
  ward : option string;
  address : option string;
  recent_count : Z
}.

Definition new_block : block := Block 0 [] None None 0.

(** The [try] block of lines 112-119. *)
Definition is_recent (recent : clock) (r : row) : bool :=
  let created := field r "CREATED_DATE" in
  if Str.truthy created then
    match Str.first_word created with
    | Some w =>
        match recent w with
        | Some b => b
        | None => false
        end
    | None => false
    end
  else false.

(** Lines 103-119 on the cell [blocks[block_key]]. *)
Definition accumulate (recent : clock) (r : row) (category : string) (b : block)
  : block :=
  {| count := count b + 1;
     categories := incr category (categories b);
     ward := latch (ward b) (field r "WARD");
     address := latch (address b) (field r "STREET_ADDRESS");
     recent_count := recent_count b + (if is_recent recent r then 1 else 0) |}.

(** The body of the loop over the rows (lines 73-119). *)
Definition body (recent : clock) (r : row) (blocks : dict (float * float) block)
  : option (dict (float * float) block) :=
  let sr_type := field r "SR_TYPE" in
  if Str.contains "INFORMATION ONLY" sr_type || Str.contains "Aircraft" sr_type
  then Some blocks
  else
    match find_category sr_type with
    | None => Some blocks
    | Some category =>
        match coords r "LATITUDE" "LONGITUDE" with
        | None => Some blocks
        | Some (lat, lng) =>
            if negb (in_box lat lng) then Some blocks
            else
              block_key <- round_to_block lat lng ;;
              Some (update key_eqb block_key new_block
                      (accumulate recent r category) blocks)
        end
    end.

(** [min(100, int(block['count'] / 50 * 100))] *)
Definition score (b : block) : option Z :=
  q <- Py.truediv (count b) 50 ;;
  x <- Py.float_mul_int q 100 ;;
  i <- Py.int x ;;
  Some (Z.min 100 i).

(** One element of [data], in the order of the list of line 134. *)
Record entry := Entry {
  e_lat : float;
  e_lng : float;
  e_count : Z;
  e_score : Z;
  e_categories : dict string Z;
  e_ward : string;
  e_address : string;
  e_recent : Z
}.

Definition threshold : Z := 3.

Definition filtered (blocks : dict (float * float) block) : dict (float * float) block :=
  filter (fun kv => threshold <=? count (snd kv)) blocks.

Definition make_entry (kv : (float * float) * block) : option entry :=
  let '((lat, lng), b) := kv in
  s <- score b ;;
  Some (Entry (Py.round_to lat 4) (Py.round_to lng 4) (count b) s
          (categories b) (or_empty (ward b)) (or_empty (address b))
          (recent_count b)).

Definition emit (blocks : dict (float * float) block) : option (output entry) :=
  d <- mapM make_entry (filtered blocks) ;;
  Some (Output (total count (filtered blocks)) (Z.of_nat (List.length d))
          (sort (fun x => - e_count x) d)).

Definition process (recent : clock) (rows : list row) : option (output entry) :=
  blocks <- fold_rows (body recent) rows [] ;;
  emit blocks.

End Requests.

(** ** Crimes *)
Module Crimes.

Definition CRIME_CATEGORIES : list (string * list string) :=
  [ ("violent", [ "HOMICIDE"; "ROBBERY"; "ASSAULT"; "BATTERY"; "CRIMINAL SEXUAL ASSAULT" ]);
    ("property", [ "THEFT"; "BURGLARY"; "MOTOR VEHICLE THEFT"; "CRIMINAL DAMAGE"; "ARSON" ]);
    ("drugs", [ "NARCOTICS" ]);
    ("weapons", [ "WEAPONS VIOLATION" ]);
    ("other", [ "OTHER OFFENSE"; "DECEPTIVE PRACTICE"; "CRIMINAL TRESPASS" ]) ].

Definition type_to_category : list (string * string) :=
  Eval cbv in flatten CRIME_CATEGORIES.

(** [type_to_category.get(crime_type, 'other')] *)
Definition category_of (crime_type : string) : string :=
  match lookup String.eqb crime_type type_to_category with
  | Some cat => cat
  | None => "other"
  end.

Record block := Block {
  count : Z;
  categories : dict string Z;
  ward : option string;
  address : option string;
  arrests : Z
}.

Definition new_block : block := Block 0 [] None None 0.

(** Lines 220-229 on the cell [blocks[block_key]]. *)
Definition accumulate (r : row) (category : string) (b : block) : block :=
  {| count := count b + 1;
     categories := incr category (categories b);
     ward := latch (ward b) (field r "WARD");
     address := latch (address b) (field r "BLOCK");
     arrests := arrests b + (if (Str.upper (field r "ARREST") =? "Y")%string then 1 else 0) |}.

(** The body of the loop over the rows (lines 203-229). *)
Definition body (r : row) (blocks : dict (float * float) block)
  : option (dict (float * float) block) :=
  let crime_type := Str.strip (field r " PRIMARY DESCRIPTION") in
  let category := category_of crime_type in
  match coords r "LATITUDE" "LONGITUDE" with
  | None => Some blocks
  | Some (lat, lng) =>
      if negb (in_box lat lng) then Some blocks
      else
        block_key <- round_to_block lat lng ;;
        Some (update key_eqb block_key new_block (accumulate r category) blocks)
  end.

(** [min(100, int((violent * 3 + property_crime) / block['count'] * 50
                   + block['count'] / 20 * 25))] *)
Definition score_of (violent property_crime n : Z) : option Z :=
  a <- Py.truediv (violent * 3 + property_crime) n ;;
  a50 <- Py.float_mul_int a 50 ;;
  c <- Py.truediv n 20 ;;
  c25 <- Py.float_mul_int c 25 ;;
  i <- Py.int (a50 + c25)%float ;;
  Some (Z.min 100 i).

Definition score (b : block) : option Z :=
  score_of (get0 "violent" (categories b)) (get0 "property" (categories b)) (count b).

Record entry := Entry {
  e_lat : float;
  e_lng : float;
  e_count : Z;
  e_score : Z;
  e_categories : dict string Z;
  e_ward : string;
  e_address : string;
  e_arrests : Z
}.

Definition threshold : Z := 2.

Definition filtered (blocks : dict (float * float) block) : dict (float * float) block :=
  filter (fun kv => threshold <=? count (snd kv)) blocks.

Definition make_entry (kv : (float * float) * block) : option entry :=
  let '((lat, lng), b) := kv in
  s <- score b ;;
  Some (Entry (Py.round_to lat 4) (Py.round_to lng 4) (count b) s
          (categories b) (or_empty (ward b)) (or_empty (address b)) (arrests b)).

Definition emit (blocks : dict (float * float) block) : option (output entry) :=
  d <- mapM make_entry (filtered blocks) ;;
  Some (Output (total count (filtered blocks)) (Z.of_nat (List.length d))
          (sort (fun x => - e_count x) d)).

Definition process (rows : list row) : option (output entry) :=
  blocks <- fold_rows body rows [] ;;
  emit blocks.

End Crimes.

(** ** Traffic crashes *)
Module Crashes.

Record block := Block {
  count : Z;
  injuries : Z;
  fatal : Z;
  hit_and_run : Z;
  address : option string
}.

Definition new_block : block := Block 0 0 0 0 None.

(** The [try] block of lines 316-320: the two additions in order, the
    first exception ending the block. *)
Definition add_injuries (r : row) (b : block) : Z * Z :=
  match int_field_or 0 r "INJURIES_TOTAL" with
  | None => (injuries b, fatal b)
  | Some i =>
      match int_field_or 0 r "INJURIES_FATAL" with
      | None => (injuries b + i, fatal b)
      | Some f => (injuries b + i, fatal b + f)
      end
  end.

(** Lines 314-329 on the cell [blocks[block_key]]. *)
Definition accumulate (r : row) (b : block) : block :=
  {| count := count b + 1;
     injuries := fst (add_injuries r b);
     fatal := snd (add_injuries r b);
     hit_and_run :=
       hit_and_run b + (if (Str.upper (field r "HIT_AND_RUN_I") =? "Y")%string then 1 else 0);
     address :=
       latch (address b)
         (join3_strip (field r "STREET_NO") (field r "STREET_DIRECTION")
            (field r "STREET_NAME")) |}.

(** The body of the loop over the rows (lines 300-329). *)
Definition body (r : row) (blocks : dict (float * float) block)
  : option (dict (float * float) block) :=
  match coords r "LATITUDE" "LONGITUDE" with
  | None => Some blocks
  | Some (lat, lng) =>
      if negb (in_box lat lng) then Some blocks
      else
        block_key <- round_to_block lat lng ;;
        Some (update key_eqb block_key new_block (accumulate r) blocks)
  end.

(** [injury_rate = injuries / count if count > 0 else 0;
    min(100, int(fatal * 20 + injury_rate * 30 + count / 50 * 30))] *)
Definition score_of (n inj fat : Z) : option Z :=
  left <-
    (if 0 <? n then
       rate <- Py.truediv inj n ;;
       t <- Py.float_mul_int rate 30 ;;
       Py.int_add_float (fat * 20) t
     else Py.float_of_int (fat * 20 + 0 * 30)) ;;
  c <- Py.truediv n 50 ;;
  c30 <- Py.float_mul_int c 30 ;;
  i <- Py.int (left + c30)%float ;;
  Some (Z.min 100 i).

Definition score (b : block) : option Z :=
  score_of (count b) (injuries b) (fatal b).

Record entry := Entry {
  e_lat : float;
  e_lng : float;
  e_count : Z;
  e_score : Z;
  e_injuries : Z;
  e_fatal : Z;
  e_hit_and_run : Z;
  e_address : string
}.

Definition threshold : Z := 3.

Definition filtered (blocks : dict (float * float) block) : dict (float * float) block :=
  filter (fun kv => threshold <=? count (snd kv)) blocks.

Definition make_entry (kv : (float * float) * block) : option entry :=
  let '((lat, lng), b) := kv in
  s <- score b ;;
  Some (Entry (Py.round_to lat 4) (Py.round_to lng 4) (count b) s
          (injuries b) (fatal b) (hit_and_run b) (or_empty (address b))).

Definition emit (blocks : dict (float * float) block) : option (output entry) :=
  d <- mapM make_entry (filtered blocks) ;;
  Some (Output (total count (filtered blocks)) (Z.of_nat (List.length d))
          (sort (fun x => - e_count x) d)).

Definition process (rows : list row) : option (output entry) :=
  blocks <- fold_rows body rows [] ;;
  emit blocks.

End Crashes.

Definition process_311 := Requests.process.
Definition process_crimes := Crimes.process.
Definition process_crashes := Crashes.process.

End Neighborhood.

(** * [scripts/process-additional-data.py] *)

Module Additional.

Definition BLOCK_SIZE : float := 0.004%float.

Definition round_to_block (lat lng : float) : option (float * float) :=
  quantize BLOCK_SIZE lat lng.

(** ** Building permits *)
Module Permits.

Definition PERMIT_TYPES : list (string * list string) :=
  [ ("new_construction", [ "NEW CONSTRUCTION"; "PERMIT - NEW CONSTRUCTION" ]);
    ("renovation", [ "PERMIT - RENOVATION/ALTERATION"; "RENOVATION"; "ALTERATION" ]);
    ("electrical", [ "PERMIT - ELECTRICAL"; "ELECTRICAL" ]);
    ("plumbing", [ "PERMIT - PLUMBING" ]);
    ("signs", [ "PERMIT - SIGNS"; "SIGN" ]);
    ("demolition", [ "PERMIT - WRECKING/DEMOLITION"; "WRECKING"; "DEMOLITION" ]);
    ("other", []) ].

Definition get_permit_type (permit_type_str : string) : string :=
  let pt := if Str.truthy permit_type_str then Str.upper permit_type_str else "" in
  match first_containing (flatten PERMIT_TYPES) pt with
  | Some cat => cat
  | None => "other"
  end.

(** [total_cost] starts as the [int] 0 and becomes a [float] at the first
    addition; [0 + x] is [0.0 + x], so the cell holds a float from the
    start here. *)
Record block := Block {
  count : Z;
  categories : dict string Z;
  ward : option string;
  address : option string;
  total_cost : float;
  recent_count : Z
}.

Definition new_block : block := Block 0 [] None None 0%float 0.

(** The [try] block of lines 85-90: what is added to [total_cost], if
    anything. *)
Definition reported_cost (r : row) : option float :=
  let cost := Str.remove_char "," (Str.remove_char "$" (field r "REPORTED_COST")) in
  if Str.truthy cost then Py.float_of_string cost else None.

Definition add_cost (r : row) (total : float) : float :=
  match reported_cost r with
  | Some c => (total + c)%float
  | None => total
  end.

(** The [try] block of lines 92-99. *)
Definition is_recent (recent : clock) (r : row) : bool :=
  let issue_date := field r "ISSUE_DATE" in
  if Str.truthy issue_date then
    match recent issue_date with
    | Some b => b
    | None => false
    end
  else false.

(** Lines 74-99 on the cell [blocks[block_key]]. *)
Definition accumulate (recent : clock) (r : row) (b : block) : block :=
  {| count := count b + 1;
     categories := incr (get_permit_type (field r "PERMIT_TYPE")) (categories b);
     ward := latch (ward b) (field r "WARD");
     address :=
       latch (address b)
         (join3_strip (field r "STREET_NUMBER") (field r "STREET_DIRECTION")
            (field r "STREET_NAME"));
     total_cost := add_cost r (total_cost b);
     recent_count := recent_count b + (if is_recent recent r then 1 else 0) |}.

(** The body of the loop over the rows (lines 60-99). *)
Definition body (recent : clock) (r : row) (blocks : dict (float * float) block)
  : option (dict (float * float) block) :=
  match coords_or0 r "LATITUDE" "LONGITUDE" with
  | None => Some blocks
  | Some (lat, lng) =>
      if negb (in_box lat lng) then Some blocks
      else
        block_key <- round_to_block lat lng ;;
        Some (update key_eqb block_key new_block (accumulate recent r) blocks)
  end.

(** [min(100, int(block['count'] / 100 * 50
                   + (block['total_cost'] / 1000000) * 50))] *)
Definition score_of (n : Z) (cost : float) : option Z :=
  a <- Py.truediv n 100 ;;
  a50 <- Py.float_mul_int a 50 ;;
  c <- Py.float_div_int cost 1000000 ;;
  c50 <- Py.float_mul_int c 50 ;;
  i <- Py.int (a50 + c50)%float ;;
  Some (Z.min 100 i).

Definition score (b : block) : option Z := score_of (count b) (total_cost b).

Record entry := Entry {
  e_lat : float;
  e_lng : float;
  e_count : Z;
  e_score : Z;
  e_categories : dict string Z;
  e_ward : string;
  e_address : string;
  e_total_cost : Z;
  e_recent : Z
}.

Definition threshold : Z := 5.

Definition filtered (blocks : dict (float * float) block) : dict (float * float) block :=
  filter (fun kv => threshold <=? count (snd kv)) blocks.

Definition make_entry (kv : (float * float) * block) : option entry :=
  let '((lat, lng), b) := kv in
  s <- score b ;;
  c <- Py.int (total_cost b) ;;
  Some (Entry (Py.round_to lat 4) (Py.round_to lng 4) (count b) s
          (categories b) (or_empty (ward b)) (or_empty (address b)) c
          (recent_count b)).

Definition emit (blocks : dict (float * float) block) : option (output entry) :=
  d <- mapM make_entry (filtered blocks) ;;
  Some (Output (total count (filtered blocks)) (Z.of_nat (List.length d))
          (sort (fun x => - e_count x) d)).

Definition process (recent : clock) (rows : list row) : option (output entry) :=
  blocks <- fold_rows (body recent) rows [] ;;
  emit blocks.

End Permits.

(** ** Business licenses *)
Module Licenses.

Definition LICENSE_TYPES : list (string * list string) :=
  [ ("food", [ "RETAIL FOOD"; "FOOD"; "RESTAURANT"; "TAVERN"; "LIQUOR" ]);
    ("retail", [ "RETAIL"; "SALES" ]);
    ("service", [ "SERVICE"; "REPAIR"; "SALON"; "BARBER" ]);
    ("entertainment", [ "ENTERTAINMENT"; "MUSIC"; "AMUSEMENT"; "PUBLIC PLACE" ]);
    ("tobacco", [ "TOBACCO"; "VAPE" ]);
    ("other", []) ].

Definition get_license_type (desc : string) : string :=
  let d := if Str.truthy desc then Str.upper desc else "" in
  match first_containing (flatten LICENSE_TYPES) d with
  | Some cat => cat
  | None => "other"
  end.

Record block := Block {
  count : Z;
  categories : dict string Z;
  ward : option string;
  address : option string;
  active : Z
}.

Definition new_block : block := Block 0 [] None None 0.

Definition is_active (r : row) : bool :=
  let status := Str.upper (field r "LICENSE STATUS") in
  existsb (String.eqb status) [ "AAI"; "AAC"; "ISSUED" ].

(** Lines 191-203 on the cell [blocks[block_key]]. *)
Definition accumulate (r : row) (b : block) : block :=
  {| count := count b + 1;
     categories := incr (get_license_type (field r "LICENSE DESCRIPTION")) (categories b);
     ward := latch (ward b) (field r "WARD");
     address := latch (address b) (field r "ADDRESS");
     active := active b + (if is_active r then 1 else 0) |}.

Definition body (r : row) (blocks : dict (float * float) block)
  : option (dict (float * float) block) :=
  match coords_or0 r "LATITUDE" "LONGITUDE" with
  | None => Some blocks
  | Some (lat, lng) =>
      if negb (in_box lat lng) then Some blocks
      else
        block_key <- round_to_block lat lng ;;
        Some (update key_eqb block_key new_block (accumulate r) blocks)
  end.

(** [min(100, int(block['count'] / 50 * 100))] *)
Definition score (b : block) : option Z :=
  q <- Py.truediv (count b) 50 ;;
  x <- Py.float_mul_int q 100 ;;
  i <- Py.int x ;;
  Some (Z.min 100 i).

Record entry := Entry {
  e_lat : float;
  e_lng : float;
  e_count : Z;
  e_score : Z;
  e_categories : dict string Z;
  e_ward : string;
  e_address : string;
  e_active : Z
}.

Definition threshold : Z := 3.

Definition filtered (blocks : dict (float * float) block) : dict (float * float) block :=
  filter (fun kv => threshold <=? count (snd kv)) blocks.

Definition make_entry (kv : (float * float) * block) : option entry :=
  let '((lat, lng), b) := kv in
  s <- score b ;;
  Some (Entry (Py.round_to lat 4) (Py.round_to lng 4) (count b) s
          (categories b) (or_empty (ward b)) (or_empty (address b)) (active b)).

Definition emit (blocks : dict (float * float) block) : option (output entry) :=
  d <- mapM make_entry (filtered blocks) ;;
  Some (Output (total count (filtered blocks)) (Z.of_nat (List.length d))
          (sort (fun x => - e_count x) d)).

Definition process (rows : list row) : option (output entry) :=
  blocks <- fold_rows body rows [] ;;
  emit blocks.

End Licenses.

(** ** Camera violations: one entry per camera, not per grid cell *)
Module Cameras.

Record camera := Camera {
  violations : Z;
  lat : float;
  lng : float;
  address : string;
  intersection : string
}.

(** The factory of the [defaultdict]; the speed cameras have no
    [intersection], which stays empty for them. *)
Definition new_camera : camera := Camera 0 0%float 0%float "" "".

(** What the [try] block reads from a row before its test (lines 257-260);
    [None] is the [except: continue]. *)
Definition read (r : row) : option (string * Z * float * float) :=
  let camera_id := field r "CAMERA ID" in
  v <- float_field_or0 r "VIOLATIONS" ;;
  n <- Py.int v ;;
  la <- float_field_or0 r "LATITUDE" ;;
  lo <- float_field_or0 r "LONGITUDE" ;;
  Some (camera_id, n, la, lo).

(** [camera_id and violations > 0 and lat and lng] *)
Definition accepted (x : string * Z * float * float) : bool :=
  let '(camera_id, n, la, lo) := x in
  Str.truthy camera_id && (0 <? n) && nonzero la && nonzero lo.

(** Lines 263-267 on [rl_cameras[camera_id]]. *)
Definition record_red_light (r : row) (n : Z) (la lo : float) (c : camera) : camera :=
  {| violations := violations c + n;
     lat := la;
     lng := lo;
     address := field r "ADDRESS";
     intersection := field r "INTERSECTION" |}.

(** Lines 286-289 on [speed_cameras[camera_id]]. *)
Definition record_speed (r : row) (n : Z) (la lo : float) (c : camera) : camera :=
  {| violations := violations c + n;
     lat := la;
     lng := lo;
     address := field r "ADDRESS";
     intersection := intersection c |}.

(** The body of either loop: every exception is caught inside it. *)
Definition body (record : row -> Z -> float -> float -> camera -> camera)
  (cameras : dict string camera) (r : row) : dict string camera :=
  match read r with
  | None => cameras
  | Some (camera_id, n, la, lo) =>
      if accepted (camera_id, n, la, lo)
      then update String.eqb camera_id new_camera (record r n la lo) cameras
      else cameras
  end.

Definition red_light (rows : list row) : dict string camera :=
  fold_left (body record_red_light) rows [].

Definition speed (rows : list row) : dict string camera :=
  fold_left (body record_speed) rows [].

Record entry := Entry {
  e_lat : float;
  e_lng : float;
  e_violations : Z;
  e_cam_id : string;
  e_where : string
}.

Definition threshold : Z := 100.

Definition kept (cameras : dict string camera) : dict string camera :=
  filter (fun kv => threshold <=? violations (snd kv)) cameras.

(** [info['intersection'] or info['address']] *)
Definition rl_entry (kv : string * camera) : entry :=
  let '(cam_id, info) := kv in
  Entry (Py.round_to (lat info) 5) (Py.round_to (lng info) 5) (violations info) cam_id
    (if Str.truthy (intersection info) then intersection info else address info).

Definition speed_entry (kv : string * camera) : entry :=
  let '(cam_id, info) := kv in
  Entry (Py.round_to (lat info) 5) (Py.round_to (lng info) 5) (violations info) cam_id
    (address info).

Definition rl_data (cameras : dict string camera) : list entry :=
  sort (fun x => - e_violations x) (map rl_entry (kept cameras)).

Definition speed_data (cameras : dict string camera) : list entry :=
  sort (fun x => - e_violations x) (map speed_entry (kept cameras)).

(** The two [data] arrays written by [process_camera_violations]. *)
Definition process (rl_rows speed_rows : list row) : list entry * list entry :=
  (rl_data (red_light rl_rows), speed_data (speed speed_rows)).

End Cameras.

(** ** Potholes patched *)
Module Potholes.

Record block := Block {
  count : Z;
  potholes_filled : Z;
  address : option string;
  recent_count : Z
}.

Definition new_block : block := Block 0 0 None 0.

(** The [try] block of lines 370-374: what is added to [potholes_filled]. *)
Definition filled_on_block (r : row) : Z :=
  match int_field_or 1 r "NUMBER OF POTHOLES FILLED ON BLOCK" with
  | Some potholes => potholes
  | None => 1
  end.

(** The [try] block of lines 379-386. *)
Definition is_recent (recent : clock) (r : row) : bool :=
  match Str.first_word (field r "REQUEST DATE") with
  | Some req_date =>
      match recent req_date with
      | Some b => b
      | None => false
      end
  | None => false
  end.

(** Lines 368-386 on the cell [blocks[block_key]]. *)
Definition accumulate (recent : clock) (r : row) (b : block) : block :=
  {| count := count b + 1;
     potholes_filled := potholes_filled b + filled_on_block r;
     address := latch (address b) (field r "ADDRESS");
     recent_count := recent_count b + (if is_recent recent r then 1 else 0) |}.

Definition body (recent : clock) (r : row) (blocks : dict (float * float) block)
  : option (dict (float * float) block) :=
  match coords_or0 r "LATITUDE" "LONGITUDE" with
  | None => Some blocks
  | Some (lat, lng) =>
      if negb (in_box lat lng) then Some blocks
      else
        block_key <- round_to_block lat lng ;;
        Some (update key_eqb block_key new_block (accumulate recent r) blocks)
  end.

(** [min(100, int(block['potholes_filled'] / 50 * 100))] *)
Definition score (b : block) : option Z :=
  q <- Py.truediv (potholes_filled b) 50 ;;
  x <- Py.float_mul_int q 100 ;;
  i <- Py.int x ;;
  Some (Z.min 100 i).

(** One element of [data]: index 2 is the count, index 3 the potholes
    filled, index 4 the score. *)
Record entry := Entry {
  e_lat : float;
  e_lng : float;
  e_count : Z;
  e_filled : Z;
  e_score : Z;
  e_address : string;
  e_recent : Z
}.

Definition threshold : Z := 3.

Definition filtered (blocks : dict (float * float) block) : dict (float * float) block :=
  filter (fun kv => threshold <=? count (snd kv)) blocks.

Definition make_entry (kv : (float * float) * block) : option entry :=
  let '((lat, lng), b) := kv in
  s <- score b ;;
  Some (Entry (Py.round_to lat 4) (Py.round_to lng 4) (count b)
          (potholes_filled b) s (or_empty (address b)) (recent_count b)).

(** [data.sort(key=lambda x: -x[3])  # Sort by potholes filled] *)
Definition emit (blocks : dict (float * float) block) : option (output entry) :=
  d <- mapM make_entry (filtered blocks) ;;
  Some (Output (total count (filtered blocks)) (Z.of_nat (List.length d))
          (sort (fun x => - e_filled x) d)).

Definition process (recent : clock) (rows : list row) : option (output entry) :=
  blocks <- fold_rows (body recent) rows [] ;;
  emit blocks.

End Potholes.

Definition process_permits := Permits.process.
Definition process_licenses := Licenses.process.
Definition process_camera_violations := Cameras.process.
Definition process_potholes := Potholes.process.

End Additional.

(** * [scripts/update-neighborhood-data.py]

    The rows are the JSON objects a query returned; the functions below are
    the four of the script that differ from the file-based ones in what they
    keep and how they order it.  Each wraps its loop in [try: ... except:
    return None], so [None] is also the result after an exception. *)

Module Update.

Definition BLOCK_SIZE : float := 0.002%float.

Definition round_to_block (lat lng : float) : option (float * float) :=
  quantize BLOCK_SIZE lat lng.

(** ** Building violations *)
Module Violations.

Definition HIGH_RISK_KEYWORDS : list string :=
  [ "FIRE"; "SMOKE"; "ELECTRICAL"; "HAZARD"; "UNSAFE"; "DANGER";
    "STRUCTURAL"; "EGRESS"; "EMERGENCY"; "CONDEMNED"; "VACANT" ].

Record block := Block {
  count : Z;
  high_risk : Z;
  open : Z;
  address : option string
}.

Definition new_block : block := Block 0 0 0 None.

Definition is_high_risk (r : row) : bool :=
  let desc :=
    Str.upper (field r "violation_description" ++ " " ++ field r "violation_code") in
  existsb (fun kw => Str.contains kw desc) HIGH_RISK_KEYWORDS.

Definition is_open (r : row) : bool :=
  Str.contains "OPEN" (Str.upper (field r "violation_status")).

(** Lines 414-425 on the cell [blocks[block_key]]. *)
Definition accumulate (r : row) (b : block) : block :=
  {| count := count b + 1;
     high_risk := high_risk b + (if is_high_risk r then 1 else 0);
     open := open b + (if is_open r then 1 else 0);
     address := latch (address b) (field r "address") |}.

Definition body (r : row) (blocks : dict (float * float) block)
  : option (dict (float * float) block) :=
  match coords r "latitude" "longitude" with
  | None => Some blocks
  | Some (lat, lng) =>
      if negb (in_box lat lng) then Some blocks
      else
        block_key <- round_to_block lat lng ;;
        Some (update key_eqb block_key new_block (accumulate r) blocks)
  end.

(** [min(100, int(block['high_risk'] * 10 + block['count'] / 10 * 50))] *)
Definition score_of (n risky : Z) : option Z :=
  c <- Py.truediv n 10 ;;
  c50 <- Py.float_mul_int c 50 ;;
  x <- Py.int_add_float (risky * 10) c50 ;;
  i <- Py.int x ;;
  Some (Z.min 100 i).

Definition score (b : block) : option Z := score_of (count b) (high_risk b).

Record entry := Entry {
  e_lat : float;
  e_lng : float;
  e_count : Z;
  e_score : Z;
  e_high_risk : Z;
  e_open : Z;
  e_address : string
}.

Definition threshold : Z := 2.

Definition filtered (blocks : dict (float * float) block) : dict (float * float) block :=
  filter (fun kv => threshold <=? count (snd kv)) blocks.

Definition make_entry (kv : (float * float) * block) : option entry :=
  let '((lat, lng), b) := kv in
  s <- score b ;;
  Some (Entry (Py.round_to lat 4) (Py.round_to lng 4) (count b) s
          (high_risk b) (open b) (or_empty (address b))).

Definition emit (blocks : dict (float * float) block) : option (output entry) :=
  d <- mapM make_entry (filtered blocks) ;;
  Some (Output (total count (filtered blocks)) (Z.of_nat (List.length d))
          (sort (fun x => - e_count x) d)).

Definition process (rows : list row) : option (output entry) :=
  blocks <- fold_rows body rows [] ;;
  emit blocks.

End Violations.

(** ** Potholes patched *)
Module Potholes.

Record block := Block {
  count : Z;
  filled : Z;
  completed : Z;
  address : option string
}.

Definition new_block : block := Block 0 0 0 None.

(** The [try] block of lines 500-503. *)
Definition filled_on_block (r : row) : Z :=
  match int_field_or 0 r "number_of_potholes_filled_on_block" with
  | Some n => n
  | None => 0
  end.

(** Lines 498-509 on the cell [blocks[block_key]]. *)
Definition accumulate (r : row) (b : block) : block :=
  {| count := count b + 1;
     filled := filled b + filled_on_block r;
     completed := completed b + (if Str.truthy (field r "completion_date") then 1 else 0);
     address := latch (address b) (field r "street_address") |}.

Definition body (r : row) (blocks : dict (float * float) block)
  : option (dict (float * float) block) :=
  match coords r "latitude" "longitude" with
  | None => Some blocks
  | Some (lat, lng) =>
      if negb (in_box lat lng) then Some blocks
      else
        block_key <- round_to_block lat lng ;;
        Some (update key_eqb block_key new_block (accumulate r) blocks)
  end.

(** One element of [data]: index 2 is the count, index 3 the potholes
    filled. *)
Record entry := Entry {
  e_lat : float;
  e_lng : float;
  e_count : Z;
  e_filled : Z;
  e_completed : Z;
  e_address : string
}.

Definition threshold : Z := 2.

Definition filtered (blocks : dict (float * float) block) : dict (float * float) block :=
  filter (fun kv => threshold <=? count (snd kv)) blocks.

Definition make_entry (kv : (float * float) * block) : entry :=
  let '((lat, lng), b) := kv in
  Entry (Py.round_to lat 4) (Py.round_to lng 4) (count b) (filled b)
    (completed b) (or_empty (address b)).

(** [data.sort(key=lambda x: -x[2])] *)
Definition emit (blocks : dict (float * float) block) : output entry :=
  let d := map make_entry (filtered blocks) in
  Output (total count (filtered blocks)) (Z.of_nat (List.length d))
    (sort (fun x => - e_count x) d).

Definition process (rows : list row) : option (output entry) :=
  blocks <- fold_rows body rows [] ;;
  Some (emit blocks).

End Potholes.

(** ** Building permits *)
Module Permits.

Record block := Block {
  count : Z;
  issued : Z;
  cost : float;
  address : option string
}.

Definition new_block : block := Block 0 0 0%float None.

Definition is_issued (r : row) : bool :=
  let status := Str.upper (field r "permit_status") in
  Str.contains "ISSUED" status || Str.contains "COMPLETE" status.

(** The [try] block of lines 586-589. *)
Definition add_cost (r : row) (c : float) : float :=
  match float_field_or0 r "reported_cost" with
  | Some x => (c + x)%float
  | None => c
  end.

(** Lines 580-595 on the cell [blocks[block_key]]. *)
Definition accumulate (r : row) (b : block) : block :=
  {| count := count b + 1;
     issued := issued b + (if is_issued r then 1 else 0);
     cost := add_cost r (cost b);
     address :=
       latch (address b)
         (join3_strip (field r "street_number") (field r "street_direction")
            (field r "street_name")) |}.

Definition body (r : row) (blocks : dict (float * float) block)
  : option (dict (float * float) block) :=
  match coords r "latitude" "longitude" with
  | None => Some blocks
  | Some (lat, lng) =>
      if negb (in_box lat lng) then Some blocks
      else
        block_key <- round_to_block lat lng ;;
        Some (update key_eqb block_key new_block (accumulate r) blocks)
  end.

Record entry := Entry {
  e_lat : float;
  e_lng : float;
  e_count : Z;
  e_issued : Z;
  e_cost : Z;
  e_address : string
}.

Definition threshold : Z := 2.

Definition filtered (blocks : dict (float * float) block) : dict (float * float) block :=
  filter (fun kv => threshold <=? count (snd kv)) blocks.

Definition make_entry (kv : (float * float) * block) : option entry :=
  let '((lat, lng), b) := kv in
  c <- Py.int (cost b) ;;
  Some (Entry (Py.round_to lat 4) (Py.round_to lng 4) (count b) (issued b) c
          (or_empty (address b))).

Definition emit (blocks : dict (float * float) block) : option (output entry) :=
  d <- mapM make_entry (filtered blocks) ;;
  Some (Output (total count (filtered blocks)) (Z.of_nat (List.length d))
          (sort (fun x => - e_count x) d)).

Definition process (rows : list row) : option (output entry) :=
  blocks <- fold_rows body rows [] ;;
  emit blocks.

End Permits.

(** ** Business licenses *)
Module Licenses.

Record block := Block {
  count : Z;
  active : Z;
  address : option string
}.

Definition new_block : block := Block 0 0 None.

Definition is_active (r : row) : bool :=
  let status := Str.upper (field r "license_status") in
  Str.contains "AAI" status || Str.contains "AAC" status || Str.contains "ACTIVE" status.

(** Lines 665-672 on the cell [blocks[block_key]]. *)
Definition accumulate (r : row) (b : block) : block :=
  {| count := count b + 1;
     active := active b + (if is_active r then 1 else 0);
     address := latch (address b) (field r "address") |}.

Definition body (r : row) (blocks : dict (float * float) block)
  : option (dict (float * float) block) :=
  match coords r "latitude" "longitude" with
  | None => Some blocks
  | Some (lat, lng) =>
      if negb (in_box lat lng) then Some blocks
      else
        block_key <- round_to_block lat lng ;;
        Some (update key_eqb block_key new_block (accumulate r) blocks)
  end.

Record entry := Entry {
  e_lat : float;
  e_lng : float;
  e_count : Z;
  e_active : Z;
  e_address : string
}.

Definition threshold : Z := 2.

Definition filtered (blocks : dict (float * float) block) : dict (float * float) block :=
  filter (fun kv => threshold <=? count (snd kv)) blocks.

Definition make_entry (kv : (float * float) * block) : entry :=
  let '((lat, lng), b) := kv in
  Entry (Py.round_to lat 4) (Py.round_to lng 4) (count b) (active b)
    (or_empty (address b)).

Definition emit (blocks : dict (float * float) block) : output entry :=
  let d := map make_entry (filtered blocks) in
  Output (total count (filtered blocks)) (Z.of_nat (List.length d))
    (sort (fun x => - e_count x) d).

Definition process (rows : list row) : option (output entry) :=
  blocks <- fold_rows body rows [] ;;
  Some (emit blocks).

End Licenses.

Definition process_potholes := Potholes.process.
Definition process_permits := Permits.process.
Definition process_licenses := Licenses.process.

End Update.

#[local] Close Scope string_scope.

#[local] Open Scope Z_scope.

(** * Notions used to state the properties *)

(** ** Binary64 values *)

(** The last step of IEEE rounding: [mr * 2^e1], with [mr] already rounded
    to an integer, renormalised after a carry. *)
Definition finish (sx : bool) (mr e1 : Z) : spec_float :=
  let n := Z.max 0 (fexp prec emax (Zdigits2 mr + e1) - e1) in
  match mr / 2 ^ n with
  | Z0 => S754_zero sx
  | Zpos p =>
      if e1 + n <=? emax - prec then S754_finite sx p (e1 + n) else S754_infinity sx
  | Zneg _ => S754_nan
  end.

(** A float that is zero or positive and finite, below [2^k]. *)
Definition below (k : Z) (x : spec_float) : Prop :=
  match x with
  | S754_zero _ => True
  | S754_finite false m e => Zpos (digits2_pos m) + e <= k
  | _ => False
  end.

(** A positive finite float that is at least [2^(k-1)]. *)
Definition atleast (k : Z) (x : spec_float) : Prop :=
  match x with
  | S754_finite false m e => k <= Zpos (digits2_pos m) + e
  | _ => False
  end.

(** The same on primitive floats. *)
Definition Below (k : Z) (x : float) : Prop := below k (Prim2SF x).
Definition Atleast (k : Z) (x : float) : Prop := atleast k (Prim2SF x).

(** [0 <= x < inf]: neither negative, nor infinite, nor a NaN. *)
Definition finite_nonneg (x : float) : bool :=
  (0 <=? x)%float && (x <? infinity)%float.

(** The size up to which the integer counters of a cell are considered:
    [10^300], which leaves every intermediate result of the score formulas
    inside the range of binary64. *)
Definition huge : Z := 10 ^ 300.

(** Equality of two binary64 values as [==] sees it: the two zeros are
    equal, a NaN is equal to nothing. *)
Definition same_value (x y : spec_float) : Prop :=
  match x, y with
  | S754_zero _, S754_zero _ => True
  | S754_infinity s1, S754_infinity s2 => s1 = s2
  | S754_finite s1 m1 e1, S754_finite s2 m2 e2 => s1 = s2 /\ m1 = m2 /\ e1 = e2
  | _, _ => False
  end.

(** ** Grid indices *)

(** The integers from [lo] to [hi]. *)
Definition Zrange (lo hi : Z) : list Z :=
  map (fun i => lo + Z.of_nat i) (seq 0 (Z.to_nat (hi - lo + 1))).

(** The grid coordinate of index [k] quantizes to index [k] again. *)
Definition requantizes (B : float) (k : Z) : bool :=
  match Py.int_mul_float k B with
  | Some y =>
      match Py.round (y / B)%float with
      | Some k' => k' =? k
      | None => false
      end
  | None => false
  end.

(** [k] is an integer nearest to the value of [x]; when [x] lies halfway
    between two integers, [k] is the even one.  (The value of a finite float
    is [(-1)^s * m * 2^e]; the distances are compared after scaling by the
    denominator.) *)
Definition nearest_to (x : float) (k : Z) : Prop :=
  match Prim2SF x with
  | S754_zero _ => k = 0
  | S754_finite s m e =>
      let num := Zpos m * 2 ^ Z.max 0 e in
      let den := 2 ^ Z.max 0 (- e) in
      let dist := Z.abs (2 * num - 2 * cond_Zopp s k * den) in
      dist <= den /\ (dist = den -> Z.even k = true)
  | _ => False
  end.

(** ** The rounding the specification describes *)

Module Spec.

(** The integer nearest to [m * 2^e], a tie going away from zero. *)
Definition nearest_away (m : positive) (e : Z) : Z :=
  if 0 <=? e then Zpos m * 2 ^ e
  else
    let d := 2 ^ (- e) in
    let q := Zpos m / d in
    let r := Zpos m mod d in
    if 2 * r <? d then q else q + 1.

(** Round half away from zero. *)
Definition round_half_away (x : float) : option Z :=
  match Prim2SF x with
  | S754_zero _ => Some 0
  | S754_finite s m e => Some (cond_Zopp s (nearest_away m e))
  | S754_infinity _ => None
  | S754_nan => None
  end.

(** [quantize(lat, lng, blockSize)] as the specification words it. *)
Definition quantize (B lat lng : float) : option (float * float) :=
  i <- round_half_away (lat / B)%float ;;
  qlat <- Py.int_mul_float i B ;;
  j <- round_half_away (lng / B)%float ;;
  qlng <- Py.int_mul_float j B ;;
  Some (qlat, qlng).

End Spec.

(** ** The grid loops, cell by cell *)

(** What a loop does with a row: leave it out ([continue]), fail on it, or
    fold it into the cell of a key. *)
Inductive verdict : Type :=
| Skipped
| Raised
| Folded (k : float * float).

(** The verdict on coordinates read from a row, on the grid of block size
    [B]. *)
Definition place (B : float) (c : option (float * float)) : verdict :=
  match c with
  | None => Skipped
  | Some (lat, lng) =>
      if negb (in_box lat lng) then Skipped
      else
        match quantize B lat lng with
        | Some k => Folded k
        | None => Raised
        end
  end.

Section GridLoop.
Context {V : Type}.
Variable new_block : V.
Variable verdict_of : row -> verdict.
Variable accumulate : row -> V -> V.

(** The common shape of the loop bodies. *)
Definition grid_step (r : row) (blocks : dict (float * float) V)
  : option (dict (float * float) V) :=
  match verdict_of r with
  | Skipped => Some blocks
  | Raised => None
  | Folded k => Some (update key_eqb k new_block (accumulate r) blocks)
  end.

(** The rows folded into the cell of key [k], in the order of the input. *)
Definition members (k : float * float) (rows : list row) : list row :=
  filter (fun r => match verdict_of r with
                   | Folded k' => key_eqb k' k
                   | _ => false
                   end) rows.

(** The state of a cell after the rows folded into it. *)
Definition cell_after (v : option V) (ms : list row) : option V :=
  fold_left (fun c r => Some (accumulate r (match c with Some b => b | None => new_block end)))
    ms v.
End GridLoop.

(** The first text of a list that is not empty, or the empty text. *)
Fixpoint first_nonempty (l : list string) : string :=
  match l with
  | [] => ""%string
  | s :: t => if Str.truthy s then s else first_nonempty t
  end.

(** The sum of a list of integers. *)
Definition Zsum (l : list Z) : Z := fold_right Z.add 0 l.

#[local] Open Scope string_scope.

(** The verdict of each loop on a row, and what the row contributes. *)
Module Cells.

(** [process-neighborhood-data.py] *)
Definition requests (r : row) : verdict :=
  let sr_type := field r "SR_TYPE" in
  if Str.contains "INFORMATION ONLY" sr_type || Str.contains "Aircraft" sr_type
  then Skipped
  else
    match Neighborhood.Requests.find_category sr_type with
    | None => Skipped
    | Some _ => place Neighborhood.BLOCK_SIZE (coords r "LATITUDE" "LONGITUDE")
    end.

Definition requests_category (r : row) : string :=
  match Neighborhood.Requests.find_category (field r "SR_TYPE") with
  | Some c => c
  | None => ""
  end.

Definition crimes (r : row) : verdict :=
  place Neighborhood.BLOCK_SIZE (coords r "LATITUDE" "LONGITUDE").

Definition crimes_category (r : row) : string :=
  Neighborhood.Crimes.category_of (Str.strip (field r " PRIMARY DESCRIPTION")).

Definition crashes (r : row) : verdict :=
  place Neighborhood.BLOCK_SIZE (coords r "LATITUDE" "LONGITUDE").

(** [process-additional-data.py] *)
Definition additional (r : row) : verdict :=
  place Additional.BLOCK_SIZE (coords_or0 r "LATITUDE" "LONGITUDE").

(** [update-neighborhood-data.py] *)
Definition update (r : row) : verdict :=
  place Update.BLOCK_SIZE (coords r "latitude" "longitude").

End Cells.





(** Two category dictionaries with the same content, whatever the order in
    which the categories were first seen ([==] on [dict]). *)
Definition same_counts (m1 m2 : dict string Z) : Prop :=
  forall c, lookup String.eqb c m1 = lookup String.eqb c m2.

(** The number of rows of a list that a test accepts. *)
Definition tally (test : row -> bool) (ms : list row) : Z :=
  Zsum (map (fun r => if test r then 1 else 0) ms).

(** What [counts.get(c)] is after [counts[cat(r)] += 1] for the rows of a
    list: absent when no row has the category. *)
Definition counted (cat : row -> string) (c : string) (ms : list row) : option Z :=
  let n := tally (fun r => String.eqb (cat r) c) ms in
  if (n =? 0)%Z then None else Some n.



(** A clock for the examples: every date parses and is old. *)
Definition long_ago : clock := fun _ => Some false.

(** Rows used in the examples. *)
Module Sample.


(** Two 311 requests of one cell; the first carries no ward and no
    address. *)
Definition request_unnamed : row :=
  [ ("SR_TYPE", "Pothole in Street Complaint"); ("LATITUDE", "41.8801");
    ("LONGITUDE", "-87.6301"); ("WARD", ""); ("STREET_ADDRESS", "") ].

Definition request_named : row :=
  [ ("SR_TYPE", "Street Light Out Complaint"); ("LATITUDE", "41.8803");
    ("LONGITUDE", "-87.6302"); ("WARD", "42"); ("STREET_ADDRESS", "100 N STATE ST") ].






Definition permit_unpriced : row :=
  [ ("LATITUDE", "41.8801"); ("LONGITUDE", "-87.6301"); ("PERMIT_TYPE", "PERMIT - SIGNS");
    ("REPORTED_COST", "n/a") ].

End Sample.

(** ** Two runs over the same rows *)


Module Alike.

(** Two cells of 311 requests, of the runs over [rows] and over [rows']:
    the counters agree, and each latch field is the first non-empty text
    of the rows of the cell in the order of its run. *)
Definition requests (rows rows' : list row) (k : float * float)
  (c c' : Neighborhood.Requests.block) : Prop :=
  let ms := members Cells.requests k rows in
  let ms' := members Cells.requests k rows' in
  Neighborhood.Requests.count c = Neighborhood.Requests.count c' /\
  same_counts (Neighborhood.Requests.categories c) (Neighborhood.Requests.categories c') /\
  Neighborhood.Requests.recent_count c = Neighborhood.Requests.recent_count c' /\
  or_empty (Neighborhood.Requests.ward c)
  = first_nonempty (map (fun r => field r "WARD") ms) /\
  or_empty (Neighborhood.Requests.ward c')
  = first_nonempty (map (fun r => field r "WARD") ms') /\
  or_empty (Neighborhood.Requests.address c)
  = first_nonempty (map (fun r => field r "STREET_ADDRESS") ms) /\
  or_empty (Neighborhood.Requests.address c')
  = first_nonempty (map (fun r => field r "STREET_ADDRESS") ms').

(** The same for two cells of crimes. *)
Definition crimes (rows rows' : list row) (k : float * float)
  (c c' : Neighborhood.Crimes.block) : Prop :=
  let ms := members Cells.crimes k rows in
  let ms' := members Cells.crimes k rows' in
  Neighborhood.Crimes.count c = Neighborhood.Crimes.count c' /\
  same_counts (Neighborhood.Crimes.categories c) (Neighborhood.Crimes.categories c') /\
  Neighborhood.Crimes.arrests c = Neighborhood.Crimes.arrests c' /\
  or_empty (Neighborhood.Crimes.ward c)
  = first_nonempty (map (fun r => field r "WARD") ms) /\
  or_empty (Neighborhood.Crimes.ward c')
  = first_nonempty (map (fun r => field r "WARD") ms') /\
  or_empty (Neighborhood.Crimes.address c)
  = first_nonempty (map (fun r => field r "BLOCK") ms) /\
  or_empty (Neighborhood.Crimes.address c')
  = first_nonempty (map (fun r => field r "BLOCK") ms').

End Alike.

(** A permit of the sample cell with a given cost text. *)
Definition permit_costing (cost : string) : row :=
  [ ("LATITUDE", "41.8801"); ("LONGITUDE", "-87.6301"); ("PERMIT_TYPE", "PERMIT - SIGNS");
    ("REPORTED_COST", cost) ].

(** ** What a dataset keeps and writes *)

(** The cells a filter keeps are those whose count reaches [T]. *)
Definition keeps {V : Type} (T : Z) (count : V -> Z)
  (filtered : dict (float * float) V -> dict (float * float) V) : Prop :=
  forall blocks kv, In kv (filtered blocks) <-> In kv blocks /\ T <= count (snd kv).

(** The elements of the [data] array are the entries of the kept cells. *)
Definition serializes {V E : Type}
  (filtered : dict (float * float) V -> dict (float * float) V)
  (make_entry : (float * float) * V -> option E)
  (emit : dict (float * float) V -> option (output E)) : Prop :=
  forall blocks out, emit blocks = Some out ->
    forall e, In e (data out) <->
              exists kv, In kv (filtered blocks) /\ make_entry kv = Some e.

(** A list in descending order of a key: every element is followed only by
    elements whose key is not larger. *)
Fixpoint descending {A : Type} (key : A -> Z) (l : list A) : Prop :=
  match l with
  | [] => True
  | x :: t => (forall y, In y t -> key y <= key x) /\ descending key t
  end.

(** Pothole repairs of the two scripts, with a given position and number of
    potholes. *)
Definition repair_at (lat lng filled : string) : row :=
  [ ("LATITUDE", lat); ("LONGITUDE", lng); ("ADDRESS", "100 N STATE ST");
    ("NUMBER OF POTHOLES FILLED ON BLOCK", filled); ("REQUEST DATE", "01/02/2020") ].

Definition update_repair_at (lat lng filled : string) : row :=
  [ ("latitude", lat); ("longitude", lng); ("street_address", "100 N STATE ST");
    ("number_of_potholes_filled_on_block", filled); ("completion_date", "2020-01-02") ].

(** A cell of three repairs with 40 potholes filled, then a cell of five
    repairs with 10 potholes filled. *)
Definition three_then_five (repair : string -> string -> string -> row) : list row :=
  map (repair "41.8801" "-87.6301") ["20"; "10"; "10"] ++
  map (repair "41.9001" "-87.7001") ["2"; "2"; "2"; "2"; "2"].

(** Permits of the update script in one cell. *)
Definition update_permit : row :=
  [ ("latitude", "41.8801"); ("longitude", "-87.6301"); ("permit_status", "ISSUED");
    ("reported_cost", "1000") ].

(** ** Camera rows *)

Module Sighting.

(** What an accepted row of a camera file carries: the camera id, the
    number of violations and the position; [None] for a row the loop
    leaves out. *)
Definition of_row (r : row) : option (string * Z * float * float) :=
  match Additional.Cameras.read r with
  | Some x => if Additional.Cameras.accepted x then Some x else None
  | None => None
  end.



End Sighting.


(** Every stored count of a category dictionary is positive. *)
Definition positive_counts (m : dict string Z) : Prop :=
  forall c n, lookup String.eqb c m = Some n -> 0 < n.

(** A list in ascending order of a key. *)
Fixpoint ascending {A : Type} (key : A -> Z) (l : list A) : Prop :=
  match l with
  | [] => True
  | x :: t => (forall y, In y t -> key x <= key y) /\ ascending key t
  end.

(** ** Proof steps *)

(** A side condition on concrete numbers. *)
Ltac num := solve [ assumption | lia | vm_compute; intuition congruence ].

(** A closed comparison. *)
Ltac zc := vm_compute; first [ reflexivity | discriminate ].

#[local] Close Scope string_scope.

#[local] Open Scope string_scope.
#[local] Open Scope Z_scope.

(** * [scripts/update-neighborhood-data.py], the fetched datasets

    [process_311], [process_crimes] and [process_crashes] of the update
    script read the replies of [fetch_data] instead of CSV files: lower-case
    column names, a string comparison for the recency window, and the loop
    inside a [try] whose handler gives up on the reply.  What they do with
    the cells afterwards is, line for line, what the file-based script does,
    so the cells, the entries and the output are those of [Neighborhood]. *)

(** [a <= b] on text: by code points, from the left. *)
Definition text_leb (a b : string) : bool :=
  match String.compare a b with
  | Gt => false
  | _ => true
  end.

(** A loop inside [try: ... except Exception: print(...)]: an exception ends
    the loop and keeps what the rows before it did to the state. *)
Fixpoint fold_keep {S : Type} (body : row -> S -> option S) (rows : list row) (s : S) : S :=
  match rows with
  | [] => s
  | r :: t =>
      match body r s with
      | Some s' => fold_keep body t s'
      | None => s
      end
  end.

(** [str(row.get(k, '')).upper() in ['TRUE', 'Y', '1']] and the same with
    the list in the order of [process_crashes]. *)
Definition flagged (r : row) (k : string) : bool :=
  existsb (String.eqb (Str.upper (field r k))) [ "TRUE"; "Y"; "1" ].

Module Fetched.

(** ** 311 service requests *)
Module Requests.

Definition RELEVANT_TYPES : list (string * list string) :=
  [ ("infrastructure",
      [ "Pothole in Street Complaint"; "Alley Pothole Complaint";
        "Street Light Out Complaint"; "Alley Light Out Complaint";
        "Traffic Signal Out Complaint"; "Sign Repair Request";
        "Sidewalk Inspection Request" ]);
    ("sanitation",
      [ "Graffiti Removal Request"; "Garbage Cart Maintenance";
        "Fly Dumping Complaint"; "Sanitation Code Violation";
        "Dead Animal Pick-Up Request" ]);
    ("pests", [ "Rodent Baiting/Rat Complaint"; "Stray Animal Complaint" ]);
    ("vehicles", [ "Abandoned Vehicle Complaint" ]);
    ("trees",
      [ "Tree Trim Request"; "Tree Debris Clean-Up Request";
        "Tree Emergency"; "Weed Removal Request" ]);
    ("water",
      [ "Water On Street Complaint"; "Sewer Cleaning Inspection Request";
        "Check for Leak" ]) ].

(** The pairs [(category, sr_type)] in the order of the two nested loops
    of line 90. *)
Definition queries : list (string * string) :=
  flat_map (fun ct => map (fun t => (fst ct, t)) (snd ct)) RELEVANT_TYPES.

(** [created and created >= ninety_days_ago] *)
Definition is_recent (ninety_days_ago : string) (r : row) : bool :=
  let created := field r "created_date" in
  Str.truthy created && text_leb ninety_days_ago created.

(** Lines 110-121 on the cell [blocks[block_key]]; [category] is the one of
    the outer loop. *)
Definition accumulate (ninety_days_ago category : string) (r : row)
  (b : Neighborhood.Requests.block) : Neighborhood.Requests.block :=
  {| Neighborhood.Requests.count := Neighborhood.Requests.count b + 1;
     Neighborhood.Requests.categories := incr category (Neighborhood.Requests.categories b);
     Neighborhood.Requests.ward := latch (Neighborhood.Requests.ward b) (field r "ward");
     Neighborhood.Requests.address :=
       latch (Neighborhood.Requests.address b) (field r "street_address");
     Neighborhood.Requests.recent_count :=
       Neighborhood.Requests.recent_count b
       + (if is_recent ninety_days_ago r then 1 else 0) |}.

(** The body of the loop over the rows of one reply (lines 99-121). *)
Definition body (ninety_days_ago category : string) (r : row)
  (blocks : dict (float * float) Neighborhood.Requests.block)
  : option (dict (float * float) Neighborhood.Requests.block) :=
  match coords r "latitude" "longitude" with
  | None => Some blocks
  | Some (lat, lng) =>
      if negb (in_box lat lng) then Some blocks
      else
        block_key <- Update.round_to_block lat lng ;;
        Some (update key_eqb block_key Neighborhood.Requests.new_block
                (accumulate ninety_days_ago category r) blocks)
  end.

(** One request type (lines 91-124): [fetched sr_type] is the reply of
    [fetch_data] to the query of the type, [None] when it raised. *)
Definition one_type (fetched : string -> option (list row)) (ninety_days_ago : string)
  (blocks : dict (float * float) Neighborhood.Requests.block) (q : string * string)
  : dict (float * float) Neighborhood.Requests.block :=
  match fetched (snd q) with
  | None => blocks
  | Some rows => fold_keep (body ninety_days_ago (fst q)) rows blocks
  end.

Definition cells (fetched : string -> option (list row)) (ninety_days_ago : string)
  : dict (float * float) Neighborhood.Requests.block :=
  fold_left (one_type fetched ninety_days_ago) queries [].

(** Lines 126-165 are lines 122-150 of the file-based script. *)
Definition process (fetched : string -> option (list row)) (ninety_days_ago : string)
  : option (output Neighborhood.Requests.entry) :=
  Neighborhood.Requests.emit (cells fetched ninety_days_ago).

End Requests.

(** ** Crimes *)
Module Crimes.

(** Lines 217-227 on the cell [blocks[block_key]]. *)
Definition accumulate (r : row) (category : string) (b : Neighborhood.Crimes.block)
  : Neighborhood.Crimes.block :=
  {| Neighborhood.Crimes.count := Neighborhood.Crimes.count b + 1;
     Neighborhood.Crimes.categories := incr category (Neighborhood.Crimes.categories b);
     Neighborhood.Crimes.ward := latch (Neighborhood.Crimes.ward b) (field r "ward");
     Neighborhood.Crimes.address := latch (Neighborhood.Crimes.address b) (field r "block");
     Neighborhood.Crimes.arrests :=
       Neighborhood.Crimes.arrests b + (if flagged r "arrest" then 1 else 0) |}.

(** The body of the loop over the rows (lines 204-227); the table of the
    crime types is the one of the file-based script. *)
Definition body (r : row) (blocks : dict (float * float) Neighborhood.Crimes.block)
  : option (dict (float * float) Neighborhood.Crimes.block) :=
  let crime_type := Str.strip (field r "primary_type") in
  let category := Neighborhood.Crimes.category_of crime_type in
  match coords r "latitude" "longitude" with
  | None => Some blocks
  | Some (lat, lng) =>
      if negb (in_box lat lng) then Some blocks
      else
        block_key <- Update.round_to_block lat lng ;;
        Some (update key_eqb block_key Neighborhood.Crimes.new_block
                (accumulate r category) blocks)
  end.

(** [fetched] is the reply of [fetch_data], [None] when it raised: the
    handler of line 229 returns [None]. *)
Definition process (fetched : option (list row))
  : option (output Neighborhood.Crimes.entry) :=
  rows <- fetched ;;
  blocks <- fold_rows body rows [] ;;
  Neighborhood.Crimes.emit blocks.

End Crimes.

(** ** Traffic crashes *)
Module Crashes.

(** The [try] block of lines 315-319. *)
Definition add_injuries (r : row) (b : Neighborhood.Crashes.block) : Z * Z :=
  match int_field_or 0 r "injuries_total" with
  | None => (Neighborhood.Crashes.injuries b, Neighborhood.Crashes.fatal b)
  | Some i =>
      match int_field_or 0 r "injuries_fatal" with
      | None => (Neighborhood.Crashes.injuries b + i, Neighborhood.Crashes.fatal b)
      | Some f => (Neighborhood.Crashes.injuries b + i, Neighborhood.Crashes.fatal b + f)
      end
  end.

(** Lines 313-328 on the cell [blocks[block_key]]. *)
Definition accumulate (r : row) (b : Neighborhood.Crashes.block)
  : Neighborhood.Crashes.block :=
  {| Neighborhood.Crashes.count := Neighborhood.Crashes.count b + 1;
     Neighborhood.Crashes.injuries := fst (add_injuries r b);
     Neighborhood.Crashes.fatal := snd (add_injuries r b);
     Neighborhood.Crashes.hit_and_run :=
       Neighborhood.Crashes.hit_and_run b + (if flagged r "hit_and_run_i" then 1 else 0);
     Neighborhood.Crashes.address :=
       latch (Neighborhood.Crashes.address b)
         (join3_strip (field r "street_no") (field r "street_direction")
            (field r "street_name")) |}.

Definition body (r : row) (blocks : dict (float * float) Neighborhood.Crashes.block)
  : option (dict (float * float) Neighborhood.Crashes.block) :=
  match coords r "latitude" "longitude" with
  | None => Some blocks
  | Some (lat, lng) =>
      if negb (in_box lat lng) then Some blocks
      else
        block_key <- Update.round_to_block lat lng ;;
        Some (update key_eqb block_key Neighborhood.Crashes.new_block (accumulate r) blocks)
  end.

Definition process (fetched : option (list row))
  : option (output Neighborhood.Crashes.entry) :=
  rows <- fetched ;;
  blocks <- fold_rows body rows [] ;;
  Neighborhood.Crashes.emit blocks.

End Crashes.

Definition process_311 := Requests.process.
Definition process_crimes := Crimes.process.
Definition process_crashes := Crashes.process.

End Fetched.

(** ** Notions for the properties of whole runs *)

(** The rows a loop folds into some cell. *)
Definition folded (verdict_of : row -> verdict) (rows : list row) : list row :=
  filter (fun r => match verdict_of r with Folded _ => true | _ => false end) rows.

(** A dictionary of cells as the loops build it: every key is equal to
    itself (no NaN) and to no key before it. *)
Fixpoint keyed {V : Type} (m : dict (float * float) V) : Prop :=
  match m with
  | [] => True
  | (k, _) :: t =>
      key_eqb k k = true /\ (forall kv, In kv t -> key_eqb k (fst kv) = false) /\ keyed t
  end.

(** The elements of a list with a given key, in their order. *)
Definition with_key {A : Type} (key : A -> Z) (c : Z) (l : list A) : list A :=
  filter (fun x => key x =? c) l.







(** The shape the datasets share after the loop: keep the cells whose count
    reaches [T], make their entries, sort them by descending count. *)
Definition emit_by_count {V E : Type} (T : Z) (count : V -> Z)
  (make_entry : (float * float) * V -> option E) (e_count : E -> Z)
  (blocks : dict (float * float) V) : option (output E) :=
  let filtered := filter (fun kv => T <=? count (snd kv)) blocks in
  d <- mapM make_entry filtered ;;
  Some (Output (total count filtered) (Z.of_nat (List.length d))
          (sort (fun x => - e_count x) d)).

(** What an output says about itself: the array is in descending order of
    the count, [blocks] is its length, [total] the sum of its counts, and
    every element reaches the threshold. *)
Definition well_formed {E : Type} (T : Z) (e_count : E -> Z) (out : output E) : Prop :=
  descending e_count (data out) /\
  meta_blocks out = Z.of_nat (List.length (data out)) /\
  meta_total out = Zsum (map e_count (data out)) /\
  forall e, In e (data out) -> T <= e_count e.

(** Three rows of the sample cell, for each of the datasets whose score
    uses integer counters only. *)
Definition thrice (r : row) : list row := [r; r; r].

(** The entries of the kept cells in the order of the dictionary, before
    they are sorted. *)
Definition entries_in_order {V E : Type} (T : Z) (count : V -> Z)
  (make_entry : (float * float) * V -> option E) (blocks : dict (float * float) V)
  : option (list E) :=
  mapM make_entry (filter (fun kv => T <=? count (snd kv)) blocks).

(** Three crashes of the sample cell. *)
Definition sample_crash : row :=
  [ ("LATITUDE", "41.8801"); ("LONGITUDE", "-87.6301"); ("INJURIES_TOTAL", "2");
    ("INJURIES_FATAL", "0"); ("HIT_AND_RUN_I", "Y"); ("STREET_NO", "100");
    ("STREET_DIRECTION", "N"); ("STREET_NAME", "STATE ST") ].





(** ** Notions for the fetched 311 requests *)

(** The rows of all the replies, in the order of the queries; a query whose
    fetch raised contributes none. *)
Definition fetched_rows (fetched : string -> option (list row)) : list row :=
  flat_map (fun q => match fetched (snd q) with
                     | Some rows => rows
                     | None => []
                     end) Fetched.Requests.queries.

(** A row of a reply together with the category of its query, kept in a
    column of its own in front of the columns of the reply. *)
Definition query_column : string := "(category of the query)".

Definition tagged (category : string) (r : row) : row := (query_column, category) :: r.

Definition tagged_rows (fetched : string -> option (list row)) : list row :=
  flat_map (fun q => match fetched (snd q) with
                     | Some rows => map (tagged (fst q)) rows
                     | None => []
                     end) Fetched.Requests.queries.

(** The body of the loop of the fetched requests on a tagged row. *)
Definition tagged_body (ninety_days_ago : string) (r : row)
  (blocks : dict (float * float) Neighborhood.Requests.block)
  : option (dict (float * float) Neighborhood.Requests.block) :=
  Fetched.Requests.body ninety_days_ago (field r query_column) r blocks.

(** A reply to the query for potholes, and none for the other types. *)
Definition sample_fetched_request : row :=
  [ ("sr_type", "Pothole in Street Complaint"); ("latitude", "41.8801");
    ("longitude", "-87.6301"); ("ward", "42"); ("street_address", "100 N STATE ST");
    ("created_date", "2025-12-01T10:00:00.000") ].

Definition potholes_only (sr_type : string) : option (list row) :=
  if String.eqb sr_type "Pothole in Street Complaint"
  then Some (thrice sample_fetched_request)
  else None.

(** ** The names of the categories *)

Definition permit_type_names : list string :=
  [ "new_construction"; "renovation"; "electrical"; "plumbing"; "signs"; "demolition";
    "other" ].

Definition license_type_names : list string :=
  [ "food"; "retail"; "service"; "entertainment"; "tobacco"; "other" ].

Definition crime_category_names : list string :=
  [ "violent"; "property"; "drugs"; "weapons"; "other" ].

Definition request_category_names : list string :=
  [ "infrastructure"; "sanitation"; "pests"; "vehicles"; "trees"; "water" ].

(** Every category a dictionary of counts holds is one of [names], with a
    positive count. *)
Definition categories_among (names : list string) (m : dict string Z) : Prop :=
  forall c n, lookup String.eqb c m = Some n -> In c names /\ 0 < n.

(** Five permits of the sample cell with a cost. *)
Definition five_permits : list row :=
  map permit_costing [ "1000"; "2000"; "3000"; "4000"; "$5,000.50" ].

#[local] Close Scope string_scope.

Section Rounding.

#[local] Open Scope Z_scope.

(** * Binary64 arithmetic, from its specification *)

Section Digits.

Lemma digits2_pos_log2 (p : positive) :
  Zpos (digits2_pos p) = Z.log2 (Zpos p) + 1.
Proof.
  induction p as [p IH | p IH | ]; cbn [digits2_pos].
  - rewrite Pos2Z.inj_succ, IH.
    change (Zpos p~1) with (2 * Zpos p + 1).
    rewrite Z.log2_succ_double by lia. lia.
  - rewrite Pos2Z.inj_succ, IH.
    change (Zpos p~0) with (2 * Zpos p).
    rewrite Z.log2_double by lia. lia.
  - reflexivity.
Qed.

Lemma Zdigits2_log2 (m : Z) : 0 < m -> Zdigits2 m = Z.log2 m + 1.
Proof.
  destruct m as [ | p | p]; try lia. intros _. apply digits2_pos_log2.
Qed.

Lemma Zdigits2_nonneg (m : Z) : 0 <= Zdigits2 m.
Proof. destruct m; cbn; lia. Qed.

(** [m] has exactly [d] binary digits when [2^(d-1) <= m < 2^d]. *)
Lemma Zdigits2_bounds (m d : Z) :
  0 < d -> 2 ^ (d - 1) <= m < 2 ^ d -> Zdigits2 m = d.
Proof.
  intros Hd [Hlo Hhi].
  assert (0 < m) by (pose proof (Z.pow_pos_nonneg 2 (d - 1)); lia).
  rewrite Zdigits2_log2 by assumption.
  assert (Z.log2 m = d - 1); [ | lia].
  apply Z.log2_unique; [lia | ].
  replace (Z.succ (d - 1)) with d by lia. lia.
Qed.

Lemma Zdigits2_lt_pow (m : Z) : 0 <= m -> m < 2 ^ Zdigits2 m.
Proof.
  intros H. destruct (Z.eq_dec m 0) as [-> | Hn]; [cbn; lia | ].
  rewrite Zdigits2_log2 by lia.
  pose proof (Z.log2_spec m ltac:(lia)). replace (Z.log2 m + 1) with (Z.succ (Z.log2 m)) by lia. lia.
Qed.

Lemma Zdigits2_ge_pow (m : Z) : 0 < m -> 2 ^ (Zdigits2 m - 1) <= m.
Proof.
  intros H. rewrite Zdigits2_log2 by lia.
  replace (Z.log2 m + 1 - 1) with (Z.log2 m) by lia.
  apply (Z.log2_spec m H).
Qed.

(** An upper bound on the digits from an upper bound on the value. *)
Lemma Zdigits2_le (m d : Z) : 0 <= d -> 0 <= m < 2 ^ d -> Zdigits2 m <= d.
Proof.
  intros Hd [H0 Hlt]. destruct (Z.eq_dec m 0) as [-> | Hn]; [cbn; lia | ].
  rewrite Zdigits2_log2 by lia.
  assert (Z.log2 m < d) by (apply Z.log2_lt_pow2; lia). lia.
Qed.

Lemma Zdigits2_mono (a b : Z) : 0 <= a <= b -> Zdigits2 a <= Zdigits2 b.
Proof.
  intros [Ha Hab]. destruct (Z.eq_dec a 0) as [-> | Hn].
  - apply Zdigits2_nonneg.
  - rewrite !Zdigits2_log2 by lia.
    pose proof (Z.log2_le_mono a b Hab). lia.
Qed.

(** Dropping [n] low bits drops [n] digits. *)
Lemma Zdigits2_div_pow2 (m n : Z) :
  0 <= n -> 0 < m / 2 ^ n -> Zdigits2 (m / 2 ^ n) = Zdigits2 m - n.
Proof.
  intros Hn Hq.
  assert (Hp : 0 < 2 ^ n) by (apply Z.pow_pos_nonneg; lia).
  assert (Hm : 0 < m).
  { destruct (Z_lt_le_dec 0 m); [assumption | ].
    assert (m / 2 ^ n <= 0) by (apply Z.div_le_upper_bound; lia). lia. }
  rewrite !Zdigits2_log2 by lia.
  rewrite <- Z.shiftr_div_pow2 by lia.
  rewrite Z.log2_shiftr by lia.
  assert (n <= Z.log2 m).
  { apply Z.log2_le_pow2; [lia | ].
    destruct (Z_lt_le_dec m (2 ^ n)); [ | assumption].
    rewrite Z.div_small in Hq by lia. lia. }
  lia.
Qed.

End Digits.

Section Rounding.

#[local] Abbreviation fexp := (fexp prec emax).
#[local] Abbreviation bra := (binary_round_aux prec emax).

Lemma fexp_eq (x : Z) : fexp x = Z.max (x - 53) (-1074).
Proof. reflexivity. Qed.

Lemma shr_1_m (r : shr_record) :
  0 <= shr_m r -> shr_m (shr_1 r) = shr_m r / 2.
Proof.
  destruct r as [m rb sb]; cbn [shr_m]. intros Hm.
  destruct m as [ | [p | p | ] | p]; cbn [shr_1 shr_m].
  - reflexivity.
  - change (Zpos p~1) with (2 * Zpos p + 1).
    apply Z.div_unique with 1; lia.
  - change (Zpos p~0) with (2 * Zpos p).
    apply Z.div_unique with 0; lia.
  - reflexivity.
  - lia.
Qed.

Lemma iter_shr_1_m (p : positive) (r : shr_record) :
  0 <= shr_m r -> shr_m (iter_pos shr_1 p r) = shr_m r / 2 ^ Zpos p.
Proof.
  revert r. induction p as [p IH | p IH | ]; intros r Hr; cbn [iter_pos].
  - assert (H1 : 0 <= shr_m (shr_1 r)) by (rewrite shr_1_m by lia; apply Z.div_pos; lia).
    assert (Hp : 0 < 2 ^ Zpos p) by (apply Z.pow_pos_nonneg; lia).
    assert (H2 : 0 <= shr_m (iter_pos shr_1 p (shr_1 r)))
      by (rewrite IH by lia; apply Z.div_pos; lia).
    rewrite IH, IH, shr_1_m by lia.
    rewrite !Z.div_div by lia.
    f_equal. replace (Zpos p~1) with (1 + (Zpos p + Zpos p)) by lia.
    rewrite !Z.pow_add_r by lia. lia.
  - assert (Hp : 0 < 2 ^ Zpos p) by (apply Z.pow_pos_nonneg; lia).
    assert (H2 : 0 <= shr_m (iter_pos shr_1 p r))
      by (rewrite IH by lia; apply Z.div_pos; lia).
    rewrite IH, IH by lia.
    rewrite !Z.div_div by lia.
    f_equal. replace (Zpos p~0) with (Zpos p + Zpos p) by lia.
    rewrite !Z.pow_add_r by lia. lia.
  - rewrite shr_1_m by lia. reflexivity.
Qed.

Lemma shr_m_of_loc (m : Z) (l : location) : shr_m (shr_record_of_loc m l) = m.
Proof. destruct l as [ | []]; reflexivity. Qed.

Lemma shr_spec (r : shr_record) (e n : Z) :
  0 <= shr_m r ->
  shr_m (fst (shr r e n)) = shr_m r / 2 ^ Z.max 0 n /\
  snd (shr r e n) = e + Z.max 0 n.
Proof.
  intros Hr. destruct n as [ | p | p]; cbn [shr fst snd].
  - cbn. rewrite Z.div_1_r. lia.
  - rewrite iter_shr_1_m by lia. split; [reflexivity | lia].
  - cbn. rewrite Z.div_1_r. lia.
Qed.

Lemma round_nearest_even_bounds (m : Z) (l : location) :
  m <= round_nearest_even m l <= m + 1.
Proof.
  destruct l as [ | []]; cbn [round_nearest_even]; try lia.
  destruct (Z.even m); lia.
Qed.

(** What [binary_round_aux] returns: the mantissa cut to the precision of
    the format, moved up by at most one, then renormalised. *)
Lemma bra_spec (sx : bool) (mx ex : Z) (lx : location) :
  0 <= mx ->
  let n := Z.max 0 (fexp (Zdigits2 mx + ex) - ex) in
  exists mr, mx / 2 ^ n <= mr <= mx / 2 ^ n + 1 /\
             bra sx mx ex lx = finish sx mr (ex + n).
Proof.
  intros Hmx n. unfold binary_round_aux, shr_fexp.
  pose proof (shr_spec (shr_record_of_loc mx lx) ex
                (fexp (Zdigits2 mx + ex) - ex)) as H1.
  rewrite shr_m_of_loc in H1. specialize (H1 Hmx).
  destruct (shr (shr_record_of_loc mx lx) ex (fexp (Zdigits2 mx + ex) - ex))
    as [mrs1 e1]. cbn [fst snd] in H1. destruct H1 as [Hm1 He1].
  set (mr := round_nearest_even (shr_m mrs1) (loc_of_shr_record mrs1)).
  pose proof (round_nearest_even_bounds (shr_m mrs1) (loc_of_shr_record mrs1)) as Hmr.
  fold mr in Hmr.
  assert (Hp : 0 < 2 ^ n) by (apply Z.pow_pos_nonneg; lia).
  assert (H0 : 0 <= mx / 2 ^ n) by (apply Z.div_pos; lia).
  fold n in Hm1, He1.
  pose proof (shr_spec (shr_record_of_loc mr loc_Exact) e1
                (fexp (Zdigits2 mr + e1) - e1)) as H2.
  rewrite shr_m_of_loc in H2. specialize (H2 ltac:(lia)).
  destruct (shr (shr_record_of_loc mr loc_Exact) e1 (fexp (Zdigits2 mr + e1) - e1))
    as [mrs2 e2]. cbn [fst snd] in H2. destruct H2 as [Hm2 He2].
  exists mr. split; [lia | ].
  unfold finish. rewrite <- He1. rewrite Hm2, He2. reflexivity.
Qed.

End Rounding.

End Rounding.

Section RoundingRange.

#[local] Open Scope Z_scope.

Section Finish.

#[local] Abbreviation fexp := (fexp prec emax).
#[local] Abbreviation bra := (binary_round_aux prec emax).

Lemma fexp_mono (a b : Z) : a <= b -> fexp a <= fexp b.
Proof. rewrite !fexp_eq. lia. Qed.

Lemma fexp_ge_emin (a : Z) : -1074 <= fexp a.
Proof. rewrite fexp_eq. lia. Qed.

Lemma Zdigits2_succ_le (m : Z) : 0 <= m -> Zdigits2 (m + 1) <= Zdigits2 m + 1.
Proof.
  intros Hm. pose proof (Zdigits2_nonneg m) as Hd.
  apply Zdigits2_le; [lia | ].
  pose proof (Zdigits2_lt_pow m Hm).
  rewrite Z.pow_add_r by lia. lia.
Qed.

(** The shape and the size of a renormalised value. *)
Lemma finish_cases (sx : bool) (mr e1 : Z) :
  0 <= mr ->
  finish sx mr e1 = S754_zero sx \/
  finish sx mr e1 = S754_infinity sx \/
  exists p, finish sx mr e1 = S754_finite sx p (Z.max e1 (fexp (Zdigits2 mr + e1))) /\
            Zpos (digits2_pos p) + Z.max e1 (fexp (Zdigits2 mr + e1)) = Zdigits2 mr + e1 /\
            Z.max e1 (fexp (Zdigits2 mr + e1)) <= 971.
Proof.
  intros Hmr. unfold finish.
  set (n := Z.max 0 (fexp (Zdigits2 mr + e1) - e1)).
  assert (Hn : 0 <= n) by lia.
  assert (Hp2 : 0 < 2 ^ n) by (apply Z.pow_pos_nonneg; lia).
  assert (He : e1 + n = Z.max e1 (fexp (Zdigits2 mr + e1))) by lia.
  pose proof (Z.div_pos mr (2 ^ n) Hmr Hp2) as Hq.
  destruct (mr / 2 ^ n) as [ | p | p] eqn:Ep; [left; reflexivity | | lia].
  change (emax - prec) with 971.
  destruct (Z.leb_spec (e1 + n) 971) as [Hle | Hgt]; [ | right; left; reflexivity].
  right; right. exists p. rewrite <- He. split; [reflexivity | split; [ | exact Hle]].
  change (Zpos (digits2_pos p)) with (Zdigits2 (Zpos p)).
  rewrite <- Ep, Zdigits2_div_pow2 by lia. lia.
Qed.

Lemma finish_valid (sx : bool) (mr e1 : Z) :
  0 <= mr -> e1 <= fexp (Zdigits2 mr + e1) ->
  valid_binary (finish sx mr e1) = true.
Proof.
  intros Hmr He.
  destruct (finish_cases sx mr e1 Hmr) as [-> | [-> | (p & -> & Hd & Hle)]];
    try reflexivity.
  cbn [SpecFloat.valid_binary]. unfold bounded, canonical_mantissa.
  rewrite Hd. apply andb_true_intro; split.
  - apply Z.eqb_eq. lia.
  - apply Z.leb_le. exact Hle.
Qed.

Lemma finish_below (mr e1 : Z) :
  0 <= mr -> e1 <= 971 -> Zdigits2 mr + e1 <= 1024 ->
  below (Zdigits2 mr + e1) (finish false mr e1).
Proof.
  intros Hmr He Hd.
  destruct (finish_cases false mr e1 Hmr) as [-> | [Hinf | (p & -> & Hdp & Hle)]].
  - exact I.
  - exfalso. revert Hinf. unfold finish.
    set (n := Z.max 0 (fexp (Zdigits2 mr + e1) - e1)).
    destruct (mr / 2 ^ n); try discriminate.
    change (emax - prec) with 971.
    destruct (Z.leb_spec (e1 + n) 971); [discriminate | ].
    subst n. rewrite fexp_eq in *. lia.
  - cbn [below]. lia.
Qed.

(** [binary_round_aux] on a call that respects its precondition returns a
    float of the format, without overflow when the value is below [2^k]
    for a [k] of at most 1023. *)
Lemma bra_valid (sx : bool) (mx ex : Z) (lx : location) :
  0 <= mx -> ex <= fexp (Zdigits2 mx + ex) ->
  valid_binary (bra sx mx ex lx) = true.
Proof.
  intros Hmx Hpre.
  destruct (bra_spec sx mx ex lx Hmx) as (mr & Hmr & ->).
  set (n := Z.max 0 (fexp (Zdigits2 mx + ex) - ex)) in *.
  assert (Hn : ex + n = fexp (Zdigits2 mx + ex)) by lia.
  assert (Hp2 : 0 < 2 ^ n) by (apply Z.pow_pos_nonneg; lia).
  pose proof (Z.div_pos mx (2 ^ n) Hmx Hp2) as Hq.
  apply finish_valid; [lia | ].
  destruct (Z.eq_dec (mx / 2 ^ n) 0) as [Hz | Hnz].
  - assert (ex + n = -1074); [ | pose proof (fexp_ge_emin (Zdigits2 mr + (ex + n))); lia].
    rewrite Hn, fexp_eq.
    destruct (Z.eq_dec mx 0) as [-> | Hm0].
    + cbn [Zdigits2] in *. rewrite fexp_eq in Hpre. lia.
    + assert (mx < 2 ^ n).
      { destruct (Z_lt_le_dec mx (2 ^ n)); [assumption | ].
        assert (1 <= mx / 2 ^ n); [ | lia].
        apply Z.div_le_lower_bound; lia. }
      assert (Zdigits2 mx <= n) by (apply Zdigits2_le; lia).
      rewrite fexp_eq in Hn. lia.
  - rewrite Hn at 1. apply fexp_mono.
    assert (Zdigits2 (mx / 2 ^ n) = Zdigits2 mx - n)
      by (apply Zdigits2_div_pow2; lia).
    pose proof (Zdigits2_mono (mx / 2 ^ n) mr ltac:(lia)). lia.
Qed.

Lemma bra_below (mx ex k : Z) (lx : location) :
  0 <= mx -> ex <= fexp (Zdigits2 mx + ex) ->
  Zdigits2 mx + ex <= k -> k <= 1023 ->
  below (Z.max (k + 1) (-1073)) (bra false mx ex lx).
Proof.
  intros Hmx Hpre Hk Hk'.
  destruct (bra_spec false mx ex lx Hmx) as (mr & Hmr & ->).
  set (n := Z.max 0 (fexp (Zdigits2 mx + ex) - ex)) in *.
  assert (Hn : ex + n = fexp (Zdigits2 mx + ex)) by lia.
  assert (Hp2 : 0 < 2 ^ n) by (apply Z.pow_pos_nonneg; lia).
  pose proof (Z.div_pos mx (2 ^ n) Hmx Hp2) as Hq.
  assert (He1 : ex + n <= 971) by (rewrite Hn, fexp_eq; lia).
  assert (Hd : Zdigits2 mr + (ex + n) <= Z.max (k + 1) (-1073)).
  { pose proof (Zdigits2_mono mr (mx / 2 ^ n + 1) ltac:(lia)) as H1.
    pose proof (Zdigits2_succ_le (mx / 2 ^ n) Hq) as H2.
    destruct (Z.eq_dec (mx / 2 ^ n) 0) as [Hz | Hnz].
    - rewrite Hz in *. cbn [Zdigits2] in H2.
      destruct (Z.eq_dec mx 0) as [-> | Hm0].
      + cbn [Zdigits2] in *. rewrite fexp_eq in *. lia.
      + assert (mx < 2 ^ n).
        { destruct (Z_lt_le_dec mx (2 ^ n)); [assumption | ].
          assert (1 <= mx / 2 ^ n); [ | lia].
          apply Z.div_le_lower_bound; lia. }
        assert (Zdigits2 mx <= n) by (apply Zdigits2_le; lia).
        rewrite fexp_eq in Hn. lia.
    - assert (Zdigits2 (mx / 2 ^ n) = Zdigits2 mx - n)
        by (apply Zdigits2_div_pow2; lia).
      lia. }
  pose proof (finish_below mr (ex + n) ltac:(lia) He1 ltac:(lia)) as Hb.
  destruct (finish false mr (ex + n)) as [ | | | [] m e]; cbn [below] in *; lia.
Qed.

End Finish.

End RoundingRange.

Section Products.

#[local] Open Scope Z_scope.

Section Operations.

#[local] Abbreviation fexp := (fexp prec emax).
#[local] Abbreviation bra := (binary_round_aux prec emax).

Lemma iter_xO (m d : positive) : Zpos (Pos.iter xO m d) = Zpos m * 2 ^ Zpos d.
Proof.
  induction d as [ | d IH] using Pos.peano_ind.
  - cbn [Pos.iter]. lia.
  - rewrite Pos.iter_succ, Pos2Z.inj_xO, IH, Pos2Z.inj_succ, Z.pow_succ_r by lia. lia.
Qed.

Lemma shl_align_spec (mx : positive) (ex ex' : Z) :
  snd (shl_align mx ex ex') = Z.min ex ex' /\
  Zpos (fst (shl_align mx ex ex')) = Zpos mx * 2 ^ (ex - Z.min ex ex').
Proof.
  unfold shl_align. destruct (ex' - ex) as [ | d | d] eqn:E; cbn [fst snd].
  - replace (Z.min ex ex') with ex by lia. rewrite Z.sub_diag. cbn. lia.
  - replace (Z.min ex ex') with ex by lia. rewrite Z.sub_diag. cbn. lia.
  - replace (Z.min ex ex') with ex' by lia. split; [reflexivity | ].
    rewrite iter_xO. f_equal. f_equal. lia.
Qed.

Lemma Zdigits2_mul_pow2 (m d : Z) :
  0 < m -> 0 <= d -> Zdigits2 (m * 2 ^ d) = Zdigits2 m + d.
Proof.
  intros Hm Hd.
  assert (0 < 2 ^ d) by (apply Z.pow_pos_nonneg; lia).
  rewrite !Zdigits2_log2 by nia.
  rewrite Z.log2_mul_pow2 by lia. lia.
Qed.

Lemma Zdigits2_pos (p : positive) : 1 <= Zdigits2 (Zpos p).
Proof. cbn. lia. Qed.

(** [binary_round]: the rounding of [mx * 2^ex] to the format. *)
Lemma binary_round_pre (sx : bool) (mx : positive) (ex : Z) :
  exists mz ez, binary_round prec emax sx mx ex = bra sx (Zpos mz) ez loc_Exact /\
                ez <= fexp (Zdigits2 (Zpos mz) + ez) /\
                Zdigits2 (Zpos mz) + ez = Zdigits2 (Zpos mx) + ex.
Proof.
  unfold binary_round.
  pose proof (shl_align_spec mx ex (fexp (Zpos (digits2_pos mx) + ex))) as [He Hm].
  destruct (shl_align mx ex (fexp (Zpos (digits2_pos mx) + ex))) as [mz ez].
  cbn [fst snd] in He, Hm.
  exists mz, ez. split; [reflexivity | ].
  assert (Hd : Zdigits2 (Zpos mz) + ez = Zdigits2 (Zpos mx) + ex).
  { rewrite Hm, Zdigits2_mul_pow2 by lia. lia. }
  split; [ | exact Hd].
  rewrite Hd. change (Zdigits2 (Zpos mx)) with (Zpos (digits2_pos mx)). lia.
Qed.

Lemma binary_round_valid (sx : bool) (mx : positive) (ex : Z) :
  valid_binary (binary_round prec emax sx mx ex) = true.
Proof.
  destruct (binary_round_pre sx mx ex) as (mz & ez & -> & Hpre & _).
  apply bra_valid; [lia | exact Hpre].
Qed.

Lemma binary_round_below (mx : positive) (ex k : Z) :
  Zdigits2 (Zpos mx) + ex <= k -> k <= 1023 ->
  below (Z.max (k + 1) (-1073)) (binary_round prec emax false mx ex).
Proof.
  intros Hk Hk'.
  destruct (binary_round_pre false mx ex) as (mz & ez & -> & Hpre & Hd).
  apply bra_below; [lia | exact Hpre | lia | exact Hk'].
Qed.

(** *** Multiplication *)

Lemma Zdigits2_mul_le (a b : positive) :
  Zdigits2 (Zpos (a * b)) <= Zdigits2 (Zpos a) + Zdigits2 (Zpos b).
Proof.
  pose proof (Zdigits2_pos a). pose proof (Zdigits2_pos b).
  apply Zdigits2_le; [lia | ].
  pose proof (Zdigits2_lt_pow (Zpos a) ltac:(lia)).
  pose proof (Zdigits2_lt_pow (Zpos b) ltac:(lia)).
  rewrite Z.pow_add_r by lia. rewrite Pos2Z.inj_mul. nia.
Qed.

Lemma Zdigits2_mul_ge (a b : positive) :
  Zdigits2 (Zpos a) + Zdigits2 (Zpos b) - 1 <= Zdigits2 (Zpos (a * b)).
Proof.
  pose proof (Zdigits2_pos a). pose proof (Zdigits2_pos b).
  pose proof (Zdigits2_ge_pow (Zpos a) ltac:(lia)) as Ha.
  pose proof (Zdigits2_ge_pow (Zpos b) ltac:(lia)) as Hb.
  rewrite (Zdigits2_log2 (Zpos (a * b))) by lia.
  assert (Zdigits2 (Zpos a) + Zdigits2 (Zpos b) - 2 <= Z.log2 (Zpos (a * b))); [ | lia].
  apply Z.log2_le_pow2; [lia | ].
  replace (Zdigits2 (Zpos a) + Zdigits2 (Zpos b) - 2)
    with ((Zdigits2 (Zpos a) - 1) + (Zdigits2 (Zpos b) - 1)) by lia.
  rewrite Z.pow_add_r by lia. rewrite Pos2Z.inj_mul.
  assert (0 < 2 ^ (Zdigits2 (Zpos a) - 1)) by (apply Z.pow_pos_nonneg; lia).
  assert (0 < 2 ^ (Zdigits2 (Zpos b) - 1)) by (apply Z.pow_pos_nonneg; lia).
  nia.
Qed.

Lemma canonical_inv (s : bool) (m : positive) (e : Z) :
  valid_binary (S754_finite s m e) = true ->
  e = fexp (Zdigits2 (Zpos m) + e) /\ e <= 971.
Proof.
  cbn [SpecFloat.valid_binary]. unfold bounded, canonical_mantissa.
  intros H. apply andb_prop in H. destruct H as [H1 H2].
  apply Z.eqb_eq in H1. apply Z.leb_le in H2.
  change (Zdigits2 (Zpos m)) with (Zpos (digits2_pos m)).
  change (emax - prec) with 971 in H2. lia.
Qed.

Lemma SFmul_valid (x y : spec_float) :
  valid_binary x = true -> valid_binary y = true ->
  valid_binary (SF64mul x y) = true.
Proof.
  intros Hx Hy. unfold SF64mul, SFmul.
  destruct x as [sx | sx | | sx mx ex], y as [sy | sy | | sy my ey]; try reflexivity.
  apply canonical_inv in Hx, Hy. destruct Hx as [Hx _], Hy as [Hy _].
  apply bra_valid; [lia | ].
  pose proof (Zdigits2_mul_ge mx my). pose proof (Zdigits2_pos mx). pose proof (Zdigits2_pos my).
  rewrite fexp_eq in *. lia.
Qed.

Lemma SFmul_below (x y : spec_float) (kx ky : Z) :
  valid_binary x = true -> valid_binary y = true ->
  below kx x -> below ky y -> kx + ky <= 1023 ->
  below (Z.max (kx + ky + 1) (-1073)) (SF64mul x y).
Proof.
  intros Hx Hy Bx By Hk. unfold SF64mul, SFmul.
  destruct x as [sx | sx | | [] mx ex], y as [sy | sy | | [] my ey];
    cbn [below] in *; try contradiction; try exact I.
  apply canonical_inv in Hx, Hy. destruct Hx as [Hx _], Hy as [Hy _].
  cbn [xorb].
  pose proof (Zdigits2_mul_ge mx my). pose proof (Zdigits2_mul_le mx my).
  pose proof (Zdigits2_pos mx). pose proof (Zdigits2_pos my).
  change (Zpos (digits2_pos mx)) with (Zdigits2 (Zpos mx)) in Bx.
  change (Zpos (digits2_pos my)) with (Zdigits2 (Zpos my)) in By.
  apply bra_below; [lia | rewrite fexp_eq in *; lia | lia | lia].
Qed.

(** *** Addition *)

Lemma SFadd_valid (x y : spec_float) :
  valid_binary x = true -> valid_binary y = true ->
  valid_binary (SF64add x y) = true.
Proof.
  intros Hx Hy. unfold SF64add, SFadd.
  destruct x as [sx | sx | | sx mx ex], y as [sy | sy | | sy my ey];
    try reflexivity; try assumption;
    try (destruct sx, sy; reflexivity).
  unfold binary_normalize.
  destruct (cond_Zopp sx (Zpos (fst (shl_align mx ex (Z.min ex ey)))) +
            cond_Zopp sy (Zpos (fst (shl_align my ey (Z.min ex ey)))));
    [reflexivity | apply binary_round_valid | apply binary_round_valid].
Qed.

Lemma SFadd_below (x y : spec_float) (kx ky : Z) :
  below kx x -> below ky y -> Z.max kx ky + 1 <= 1023 ->
  below (Z.max (Z.max kx ky + 2) (-1073)) (SF64add x y).
Proof.
  intros Bx By Hk. unfold SF64add, SFadd.
  destruct x as [sx | sx | | [] mx ex], y as [sy | sy | | [] my ey];
    cbn [below] in *; try contradiction.
  - destruct sx, sy; exact I.
  - lia.
  - lia.
  - cbn [cond_Zopp].
    pose proof (shl_align_spec mx ex (Z.min ex ey)) as [_ Hmx].
    pose proof (shl_align_spec my ey (Z.min ex ey)) as [_ Hmy].
    set (ax := fst (shl_align mx ex (Z.min ex ey))) in *.
    set (ay := fst (shl_align my ey (Z.min ex ey))) in *.
    replace (Z.min ex (Z.min ex ey)) with (Z.min ex ey) in Hmx by lia.
    replace (Z.min ey (Z.min ex ey)) with (Z.min ex ey) in Hmy by lia.
    cbn [Z.add binary_normalize].
    change (Zpos (digits2_pos mx)) with (Zdigits2 (Zpos mx)) in Bx.
    change (Zpos (digits2_pos my)) with (Zdigits2 (Zpos my)) in By.
    replace (Z.max kx ky + 2) with ((Z.max kx ky + 1) + 1) by lia.
    apply binary_round_below; [ | lia].
    assert (Hdx : Zdigits2 (Zpos ax) = Zdigits2 (Zpos mx) + (ex - Z.min ex ey))
      by (rewrite Hmx, Zdigits2_mul_pow2 by lia; reflexivity).
    assert (Hdy : Zdigits2 (Zpos ay) = Zdigits2 (Zpos my) + (ey - Z.min ex ey))
      by (rewrite Hmy, Zdigits2_mul_pow2 by lia; reflexivity).
    pose proof (Zdigits2_lt_pow (Zpos ax) ltac:(lia)) as Lx.
    pose proof (Zdigits2_lt_pow (Zpos ay) ltac:(lia)) as Ly.
    pose proof (Zdigits2_pos ax). pose proof (Zdigits2_pos ay).
    set (D := Z.max (Zdigits2 (Zpos ax)) (Zdigits2 (Zpos ay))).
    assert (Zdigits2 (Zpos (ax + ay)) <= D + 1); [ | lia].
    apply Zdigits2_le; [lia | ].
    assert (2 ^ Zdigits2 (Zpos ax) <= 2 ^ D) by (apply Z.pow_le_mono_r; lia).
    assert (2 ^ Zdigits2 (Zpos ay) <= 2 ^ D) by (apply Z.pow_le_mono_r; lia).
    rewrite Z.pow_add_r by lia. rewrite Pos2Z.inj_add. lia.
Qed.

End Operations.

End Products.

Section Quotients.

#[local] Open Scope Z_scope.

Section Division.

#[local] Abbreviation fexp := (fexp prec emax).
#[local] Abbreviation bra := (binary_round_aux prec emax).

Lemma pow2_pos (n : Z) : 0 <= n -> 0 < 2 ^ n.
Proof. intros; apply Z.pow_pos_nonneg; lia. Qed.

(** The quotient of two positive mantissas, as [SFdiv] hands it to the
    rounding: enough digits for the precision, and below
    [2^(mag x - mag y + 1)]. *)
Lemma SFdiv_core_spec (m1 m2 : positive) (e1 e2 : Z) :
  let X := Zdigits2 (Zpos m1) + e1 - (Zdigits2 (Zpos m2) + e2) in
  exists q e' l,
    SFdiv_core_binary prec emax (Zpos m1) e1 (Zpos m2) e2 = (q, e', l) /\
    0 <= q /\
    e' <= fexp (Zdigits2 q + e') /\
    Zdigits2 q + e' <= Z.max (X + 1) (-1074).
Proof.
  intros X. unfold SFdiv_core_binary.
  set (d1 := Zdigits2 (Zpos m1)) in *. set (d2 := Zdigits2 (Zpos m2)) in *.
  fold X.
  set (e' := Z.min (fexp X) (e1 - e2)).
  set (s := e1 - e2 - e').
  assert (Hs : 0 <= s) by (subst s e'; lia).
  set (m' := match s with Z.pos _ => Z.shiftl (Z.pos m1) s | 0 => Z.pos m1 | Z.neg _ => 0 end).
  assert (Hm' : m' = Zpos m1 * 2 ^ s).
  { subst m'. destruct s as [ | p | p] eqn:Es; [cbn; lia | | lia].
    apply Z.shiftl_mul_pow2. lia. }
  pose proof (pow2_pos s Hs) as Hps.
  assert (Hq : fst (Z.div_eucl m' (Zpos m2)) = m' / Zpos m2) by reflexivity.
  destruct (Z.div_eucl m' (Zpos m2)) as [q r]. cbn [fst] in Hq.
  exists q, e', (new_location (Zpos m2) r). split; [reflexivity | ].
  assert (Hq0 : 0 <= q) by (rewrite Hq; apply Z.div_pos; nia).
  split; [exact Hq0 | ].
  pose proof (Zdigits2_pos m1) as P1. pose proof (Zdigits2_pos m2) as P2.
  fold d1 in P1. fold d2 in P2.
  pose proof (Zdigits2_lt_pow (Zpos m1) ltac:(lia)) as U1. fold d1 in U1.
  pose proof (Zdigits2_lt_pow (Zpos m2) ltac:(lia)) as U2. fold d2 in U2.
  pose proof (Zdigits2_ge_pow (Zpos m1) ltac:(lia)) as L1. fold d1 in L1.
  pose proof (Zdigits2_ge_pow (Zpos m2) ltac:(lia)) as L2. fold d2 in L2.
  assert (Hqm : q * Zpos m2 <= m').
  { rewrite Hq. rewrite Z.mul_comm. apply Z.mul_div_le. lia. }
  split.
  - (* enough digits *)
    destruct (Z_le_gt_dec e' (-1074)) as [Hlow | Hhigh].
    + pose proof (fexp_ge_emin (Zdigits2 q + e')). lia.
    + assert (HeX : e' <= X - 53) by (subst e'; rewrite fexp_eq in *; lia).
      set (D := d1 + s - d2).
      assert (HD : 53 <= D) by (subst D s X; lia).
      assert (Hlow : 2 ^ (D - 1) <= q).
      { rewrite Hq. apply Z.div_le_lower_bound; [lia | ].
        rewrite Hm'.
        assert (Zpos m2 * 2 ^ (D - 1) <= 2 ^ d2 * 2 ^ (D - 1)).
        { apply Z.mul_le_mono_nonneg_r; [ | lia].
          pose proof (pow2_pos (D - 1) ltac:(lia)); lia. }
        assert (2 ^ d2 * 2 ^ (D - 1) = 2 ^ (d1 - 1) * 2 ^ s).
        { rewrite <- !Z.pow_add_r by lia. f_equal. subst D. lia. }
        assert (2 ^ (d1 - 1) * 2 ^ s <= Zpos m1 * 2 ^ s)
          by (apply Z.mul_le_mono_nonneg_r; lia).
        lia. }
      assert (Hdq : D <= Zdigits2 q).
      { pose proof (pow2_pos (D - 1) ltac:(lia)).
        rewrite Zdigits2_log2 by lia.
        assert (D - 1 <= Z.log2 q) by (apply Z.log2_le_pow2; lia). lia. }
      rewrite fexp_eq. subst D s X. lia.
  - (* below the quotient of the bounds *)
    assert (Hdq : Zdigits2 q <= Z.max 0 (d1 + s - d2 + 1)).
    { apply Zdigits2_le; [lia | split; [exact Hq0 | ] ].
      destruct (Z_lt_le_dec (d1 + s - d2 + 1) 0) as [Hneg | Hpos].
      - replace (Z.max 0 (d1 + s - d2 + 1)) with 0 by lia.
        assert (m' < Zpos m2).
        { rewrite Hm'.
          assert (Zpos m1 * 2 ^ s < 2 ^ d1 * 2 ^ s)
            by (apply Z.mul_lt_mono_pos_r; lia).
          rewrite <- Z.pow_add_r in H by lia.
          assert (2 ^ (d1 + s) <= 2 ^ (d2 - 1)) by (apply Z.pow_le_mono_r; lia).
          lia. }
        rewrite Hq, Z.div_small by nia. cbn. lia.
      - replace (Z.max 0 (d1 + s - d2 + 1)) with (d1 + s - d2 + 1) by lia.
        destruct (Z_lt_le_dec q (2 ^ (d1 + s - d2 + 1))) as [ | Hbig]; [assumption | ].
        exfalso.
        assert (2 ^ (d1 + s - d2 + 1) * 2 ^ (d2 - 1) <= q * Zpos m2).
        { pose proof (pow2_pos (d1 + s - d2 + 1) Hpos).
          pose proof (pow2_pos (d2 - 1) ltac:(lia)).
          apply Z.mul_le_mono_nonneg; lia. }
        rewrite <- Z.pow_add_r in H by lia.
        replace (d1 + s - d2 + 1 + (d2 - 1)) with (d1 + s) in H by lia.
        assert (Zpos m1 * 2 ^ s < 2 ^ d1 * 2 ^ s)
          by (apply Z.mul_lt_mono_pos_r; lia).
        rewrite <- Z.pow_add_r in H0 by lia.
        lia. }
    subst s e' X. rewrite fexp_eq in *. lia.
Qed.

(** The same with the quotient written out. *)
Lemma SFdiv_finite_eq (s1 s2 : bool) (m1 m2 : positive) (e1 e2 : Z) :
  let X := Zdigits2 (Zpos m1) + e1 - (Zdigits2 (Zpos m2) + e2) in
  let e' := Z.min (fexp X) (e1 - e2) in
  exists l,
    SF64div (S754_finite s1 m1 e1) (S754_finite s2 m2 e2)
    = bra (xorb s1 s2) (Zpos m1 * 2 ^ (e1 - e2 - e') / Zpos m2) e' l.
Proof.
  intros X e'. unfold SF64div, SFdiv, SFdiv_core_binary.
  fold X. fold e'.
  set (s := e1 - e2 - e').
  assert (Hs : 0 <= s) by (subst s e'; lia).
  set (m' := match s with Z.pos _ => Z.shiftl (Z.pos m1) s | 0 => Z.pos m1 | Z.neg _ => 0 end).
  assert (Hm' : m' = Zpos m1 * 2 ^ s).
  { subst m'. destruct s as [ | p | p] eqn:Es; [cbn; lia | | lia].
    apply Z.shiftl_mul_pow2. lia. }
  assert (Hq : fst (Z.div_eucl m' (Zpos m2)) = m' / Zpos m2) by reflexivity.
  destruct (Z.div_eucl m' (Zpos m2)) as [q r]. cbn [fst] in Hq.
  exists (new_location (Zpos m2) r). rewrite <- Hm', <- Hq. reflexivity.
Qed.

Lemma SFdiv_finite (s1 s2 : bool) (m1 m2 : positive) (e1 e2 : Z) :
  let X := Zdigits2 (Zpos m1) + e1 - (Zdigits2 (Zpos m2) + e2) in
  exists q e' l,
    SF64div (S754_finite s1 m1 e1) (S754_finite s2 m2 e2) = bra (xorb s1 s2) q e' l /\
    0 <= q /\
    e' <= fexp (Zdigits2 q + e') /\
    Zdigits2 q + e' <= Z.max (X + 1) (-1074).
Proof.
  intros X. destruct (SFdiv_core_spec m1 m2 e1 e2) as (q & e' & l & Hc & H).
  exists q, e', l. split; [ | exact H].
  unfold SF64div, SFdiv. rewrite Hc. reflexivity.
Qed.

Lemma SFdiv_finite_valid (s1 s2 : bool) (m1 m2 : positive) (e1 e2 : Z) :
  valid_binary (SF64div (S754_finite s1 m1 e1) (S754_finite s2 m2 e2)) = true.
Proof.
  destruct (SFdiv_finite s1 s2 m1 m2 e1 e2) as (q & e' & l & -> & Hq & Hpre & _).
  apply bra_valid; assumption.
Qed.

(** The quotient of a float below [2^kx] by one of at least [2^(ky-1)]. *)
Lemma SFdiv_below (x y : spec_float) (kx ky : Z) :
  below kx x -> atleast ky y -> kx - ky + 1 <= 1023 ->
  below (Z.max (kx - ky + 2) (-1073)) (SF64div x y).
Proof.
  intros Bx Ay Hk.
  destruct y as [sy | sy | | [] my ey]; cbn [atleast] in Ay; try contradiction.
  destruct x as [sx | sx | | [] mx ex]; cbn [below] in Bx; try contradiction.
  - exact I.
  - change (Zpos (digits2_pos mx)) with (Zdigits2 (Zpos mx)) in Bx.
    change (Zpos (digits2_pos my)) with (Zdigits2 (Zpos my)) in Ay.
    destruct (SFdiv_finite false false mx my ex ey) as (q & e' & l & -> & Hq & Hpre & Hd).
    cbn [xorb].
    pose proof (bra_below q e' (Z.max (kx - ky + 1) (-1074)) l Hq Hpre ltac:(lia) ltac:(lia)) as Hb.
    destruct (bra false q e' l) as [ | | | [] m e]; cbn [below] in *; lia.
Qed.

End Division.

End Quotients.

Section Magnitudes.

#[local] Open Scope Z_scope.

(** * Python arithmetic on non-negative numbers *)

Section Nonnegative.

Lemma below_mono (k k' : Z) (x : spec_float) : below k x -> k <= k' -> below k' x.
Proof. destruct x as [ | | | [] m e]; cbn [below]; intros; try assumption; lia. Qed.

Lemma Below_mono (k k' : Z) (x : float) : Below k x -> k <= k' -> Below k' x.
Proof. apply below_mono. Qed.

Lemma mul_Below (x y : float) (kx ky k : Z) :
  Below kx x -> Below ky y -> kx + ky < k -> -1073 <= k <= 1024 ->
  Below k (x * y)%float.
Proof.
  unfold Below. intros Bx By Hk Hk'. rewrite mul_spec.
  eapply below_mono.
  - apply (SFmul_below _ _ kx ky); try apply Prim2SF_valid; try assumption. lia.
  - lia.
Qed.

Lemma add_Below (x y : float) (kx ky k : Z) :
  Below kx x -> Below ky y -> kx + 1 < k -> ky + 1 < k -> -1073 <= k <= 1024 ->
  Below k (x + y)%float.
Proof.
  unfold Below. intros Bx By Hx Hy Hk'. rewrite add_spec.
  eapply below_mono.
  - apply (SFadd_below _ _ kx ky); try assumption. lia.
  - lia.
Qed.

Lemma div_Below (x y : float) (kx ky k : Z) :
  Below kx x -> Atleast ky y -> kx - ky + 1 < k -> -1073 <= k <= 1024 ->
  Below k (x / y)%float.
Proof.
  unfold Below, Atleast. intros Bx Ay Hk Hk'. rewrite div_spec.
  eapply below_mono.
  - apply (SFdiv_below _ _ kx ky); try assumption. lia.
  - lia.
Qed.

(** [int(x)] returns, and returns a natural number, on such a float. *)
Lemma int_Below (x : float) (k : Z) :
  Below k x -> exists i, Py.int x = Some i /\ 0 <= i.
Proof.
  unfold Below, Py.int. destruct (Prim2SF x) as [s | s | | [] m e]; cbn [below];
    try contradiction; intros _.
  - exists 0. split; [reflexivity | lia].
  - exists (Py.truncate m e). split; [reflexivity | ].
    unfold Py.truncate. destruct (Z.leb_spec 0 e).
    + apply Z.mul_nonneg_nonneg; [lia | ]. apply Z.pow_nonneg; lia.
    + apply Z.div_pos; [lia | ]. apply Z.pow_pos_nonneg; lia.
Qed.

Lemma Zdigits2_ge (m k : Z) : 1 <= k -> 2 ^ (k - 1) <= m -> k <= Zdigits2 m.
Proof.
  intros Hk Hm. pose proof (pow2_pos (k - 1) ltac:(lia)).
  rewrite Zdigits2_log2 by lia.
  assert (k - 1 <= Z.log2 m) by (apply Z.log2_le_pow2; lia). lia.
Qed.

(** [a / b] on a natural number below [2^ka] and a positive integer that
    is at least [2^(kb-1)]. *)
Lemma truediv_Below (a b ka kb k : Z) :
  0 <= a < 2 ^ ka -> 0 <= ka -> 1 <= kb -> 2 ^ (kb - 1) <= b ->
  ka - kb + 1 < k -> -1073 <= k <= 1024 ->
  exists f, Py.truediv a b = Some f /\ Below k f.
Proof.
  intros Ha Hka Hkb Hb Hk Hk'.
  pose proof (pow2_pos (kb - 1) ltac:(lia)) as Hp.
  unfold Py.truediv. destruct (Z.eqb_spec b 0) as [-> | _]; [lia | ].
  destruct b as [ | pb | pb]; try lia.
  destruct a as [ | pa | pa]; try lia; cbn [Py.int_as_SF].
  - cbn. eexists; split; [reflexivity | ]. exact I.
  - pose proof (SFdiv_finite_valid false false pa pb 0 0) as Hv.
    assert (Hbel : below k (SF64div (S754_finite false pa 0) (S754_finite false pb 0))).
    { eapply below_mono.
      - apply (SFdiv_below _ _ ka kb).
        + cbn [below]. change (Zpos (digits2_pos pa)) with (Zdigits2 (Zpos pa)).
          pose proof (Zdigits2_le (Zpos pa) ka Hka ltac:(lia)). lia.
        + cbn [atleast]. change (Zpos (digits2_pos pb)) with (Zdigits2 (Zpos pb)).
          pose proof (Zdigits2_ge (Zpos pb) kb Hkb Hb). lia.
        + lia.
      - lia. }
    destruct (SF64div (S754_finite false pa 0) (S754_finite false pb 0)) as [s | s | | s m e] eqn:E;
      cbn [below] in Hbel; try contradiction.
    + eexists; split; [reflexivity | ]. unfold Below.
      rewrite Prim2SF_SF2Prim by reflexivity. exact I.
    + eexists; split; [reflexivity | ]. unfold Below.
      rewrite Prim2SF_SF2Prim by exact Hv. exact Hbel.
Qed.

(** The float of a natural number below [2^kk]. *)
Lemma float_of_int_Below (n kk k : Z) :
  0 <= n < 2 ^ kk -> 0 <= kk -> kk < k -> -1073 <= k <= 1024 ->
  exists f, Py.float_of_int n = Some f /\ Below k f.
Proof.
  intros Hn Hkk Hk Hk'. unfold Py.float_of_int.
  destruct n as [ | p | p]; try lia; cbn [binary_normalize].
  - eexists; split; [reflexivity | ]. unfold Below.
    rewrite Prim2SF_SF2Prim by reflexivity. exact I.
  - pose proof (binary_round_valid false p 0) as Hv.
    assert (Hbel : below k (binary_round prec emax false p 0)).
    { eapply below_mono.
      - apply (binary_round_below p 0 kk); [ | lia].
        pose proof (Zdigits2_le (Zpos p) kk Hkk ltac:(lia)). lia.
      - lia. }
    destruct (binary_round prec emax false p 0) as [s | s | | s m e] eqn:E;
      cbn [below] in Hbel; try contradiction.
    + eexists; split; [reflexivity | ]. unfold Below.
      rewrite Prim2SF_SF2Prim by reflexivity. exact I.
    + eexists; split; [reflexivity | ]. unfold Below.
      rewrite Prim2SF_SF2Prim by exact Hv. exact Hbel.
Qed.

Lemma float_mul_int_Below (x : float) (n kx kk k : Z) :
  Below kx x -> 0 <= n < 2 ^ kk -> 0 <= kk <= 1023 ->
  kx + kk + 1 < k -> -1073 <= k <= 1024 ->
  exists f, Py.float_mul_int x n = Some f /\ Below k f.
Proof.
  intros Bx Hn [Hkk Hkk'] Hk Hk'. unfold Py.float_mul_int.
  destruct (float_of_int_Below n kk (kk + 1) Hn Hkk ltac:(lia) ltac:(lia)) as (f & -> & Bf).
  cbn [bind]. eexists; split; [reflexivity | ].
  apply (mul_Below _ _ kx (kk + 1)); try assumption; lia.
Qed.

Lemma int_add_float_Below (n : Z) (x : float) (kn kx k : Z) :
  0 <= n < 2 ^ kn -> 0 <= kn -> Below kx x ->
  kn + 2 < k -> kx + 1 < k -> -1073 <= k <= 1024 ->
  exists f, Py.int_add_float n x = Some f /\ Below k f.
Proof.
  intros Hn Hkn Bx Hk1 Hk2 Hk'. unfold Py.int_add_float.
  destruct (float_of_int_Below n kn (kn + 1) Hn Hkn ltac:(lia) ltac:(lia)) as (f & -> & Bf).
  cbn [bind]. eexists; split; [reflexivity | ].
  apply (add_Below _ _ (kn + 1) kx); try assumption; lia.
Qed.

(** A float that passes [0 <= x < inf] is a finite float of the format. *)
Lemma finite_nonneg_Below (x : float) : finite_nonneg x = true -> Below 1024 x.
Proof.
  unfold finite_nonneg, Below. intros H. apply andb_prop in H. destruct H as [H0 Hi].
  rewrite leb_spec in H0. rewrite ltb_spec in Hi.
  pose proof (Prim2SF_valid x) as Hv.
  change (Prim2SF 0%float) with (S754_zero false) in H0.
  change (Prim2SF infinity) with (S754_infinity false) in Hi.
  destruct (Prim2SF x) as [s | s | | s m e]; cbn [below].
  - exact I.
  - destruct s; discriminate.
  - discriminate.
  - destruct s; [discriminate | ].
    apply canonical_inv in Hv. destruct Hv as [Hc He].
    change (Zdigits2 (Zpos m)) with (Zpos (digits2_pos m)) in Hc.
    rewrite fexp_eq in Hc. lia.
Qed.

End Nonnegative.

End Magnitudes.

Section ScoreFormulas.

#[local] Open Scope Z_scope.

(** * The score formulas *)

Section Scores.

Lemma huge_lt : huge < 2 ^ 997.
Proof. reflexivity. Qed.

Lemma below_huge (n : Z) : 0 <= n < huge -> 0 <= n < 2 ^ 997.
Proof. pose proof huge_lt. lia. Qed.

Lemma below_huge_4 (a b : Z) :
  0 <= a < huge -> 0 <= b < huge -> 0 <= a * 3 + b < 2 ^ 999.
Proof.
  pose proof huge_lt. assert (E : 2 ^ 999 = 4 * 2 ^ 997) by reflexivity.
  rewrite E. lia.
Qed.

Lemma below_huge_20 (a : Z) : 0 <= a < huge -> 0 <= a * 20 < 2 ^ 1002.
Proof.
  pose proof huge_lt. assert (E : 2 ^ 1002 = 32 * 2 ^ 997) by reflexivity.
  rewrite E. lia.
Qed.

Lemma below_huge_10 (a : Z) : 0 <= a < huge -> 0 <= a * 10 < 2 ^ 1001.
Proof.
  pose proof huge_lt. assert (E : 2 ^ 1001 = 16 * 2 ^ 997) by reflexivity.
  rewrite E. lia.
Qed.

(** [min(100, int(n / 50 * 100))] *)
Lemma ratio_score (n : Z) :
  0 <= n < huge ->
  exists s, (q <- Py.truediv n 50 ;; x <- Py.float_mul_int q 100 ;;
             i <- Py.int x ;; Some (Z.min 100 i)) = Some s /\ 0 <= s <= 100.
Proof.
  intros Hn. apply below_huge in Hn.
  destruct (truediv_Below n 50 997 6 993 ltac:(num) ltac:(num) ltac:(num) ltac:(num) ltac:(num) ltac:(num)) as (q & -> & Bq). cbn [bind].
  destruct (float_mul_int_Below q 100 993 7 1002 ltac:(eassumption) ltac:(num) ltac:(num) ltac:(num) ltac:(num)) as (x & -> & Bx). cbn [bind].
  destruct (int_Below x _ Bx) as (i & -> & Hi). cbn [bind].
  eexists; split; [reflexivity | lia].
Qed.

Lemma requests_score (b : Neighborhood.Requests.block) :
  0 <= Neighborhood.Requests.count b < huge ->
  exists s, Neighborhood.Requests.score b = Some s /\ 0 <= s <= 100.
Proof. apply ratio_score. Qed.

Lemma licenses_score (b : Additional.Licenses.block) :
  0 <= Additional.Licenses.count b < huge ->
  exists s, Additional.Licenses.score b = Some s /\ 0 <= s <= 100.
Proof. apply ratio_score. Qed.

Lemma potholes_score (b : Additional.Potholes.block) :
  0 <= Additional.Potholes.potholes_filled b < huge ->
  exists s, Additional.Potholes.score b = Some s /\ 0 <= s <= 100.
Proof. apply ratio_score. Qed.

Lemma permits_score (n : Z) (cost : float) :
  0 <= n < huge -> finite_nonneg cost = true ->
  exists s, Additional.Permits.score_of n cost = Some s /\ 0 <= s <= 100.
Proof.
  intros Hn Hc. apply below_huge in Hn. apply finite_nonneg_Below in Hc.
  unfold Additional.Permits.score_of.
  destruct (truediv_Below n 100 997 7 992 ltac:(num) ltac:(num) ltac:(num) ltac:(num) ltac:(num) ltac:(num)) as (a & -> & Ba). cbn [bind].
  destruct (float_mul_int_Below a 50 992 6 1000 ltac:(eassumption) ltac:(num) ltac:(num) ltac:(num) ltac:(num)) as (a50 & -> & Ba50). cbn [bind].
  unfold Py.float_div_int.
  change (Py.float_of_int 1000000) with (Some 1000000%float). cbn [bind Z.eqb].
  assert (Bc : Below 1006 (cost / 1000000)%float).
  { apply (div_Below _ _ 1024 20); [exact Hc | vm_compute; intuition congruence | lia | lia]. }
  destruct (float_mul_int_Below (cost / 1000000)%float 50 1006 6 1014 ltac:(eassumption) ltac:(num) ltac:(num) ltac:(num) ltac:(num)) as (c50 & -> & Bc50). cbn [bind].
  assert (Bs : Below 1016 (a50 + c50)%float)
    by (apply (add_Below _ _ 1000 1014); solve [assumption | lia]).
  destruct (int_Below _ _ Bs) as (i & -> & Hi). cbn [bind].
  eexists; split; [reflexivity | lia].
Qed.

Lemma crimes_score (violent property_crime n : Z) :
  0 <= violent < huge -> 0 <= property_crime < huge -> 1 <= n < huge ->
  exists s, Neighborhood.Crimes.score_of violent property_crime n = Some s /\ 0 <= s <= 100.
Proof.
  intros Hv Hp Hn.
  pose proof (below_huge_4 _ _ Hv Hp) as Hvp.
  assert (Hn' : 0 <= n < 2 ^ 997) by (apply below_huge; lia).
  unfold Neighborhood.Crimes.score_of.
  destruct (truediv_Below (violent * 3 + property_crime) n 999 1 1001 ltac:(num) ltac:(num) ltac:(num) ltac:(num) ltac:(num) ltac:(num)) as (a & -> & Ba). cbn [bind].
  destruct (float_mul_int_Below a 50 1001 6 1009 ltac:(eassumption) ltac:(num) ltac:(num) ltac:(num) ltac:(num)) as (a50 & -> & Ba50). cbn [bind].
  destruct (truediv_Below n 20 997 5 994 ltac:(num) ltac:(num) ltac:(num) ltac:(num) ltac:(num) ltac:(num)) as (c & -> & Bc). cbn [bind].
  destruct (float_mul_int_Below c 25 994 5 1001 ltac:(eassumption) ltac:(num) ltac:(num) ltac:(num) ltac:(num)) as (c25 & -> & Bc25). cbn [bind].
  assert (Bs : Below 1011 (a50 + c25)%float)
    by (apply (add_Below _ _ 1009 1001); solve [assumption | lia]).
  destruct (int_Below _ _ Bs) as (i & -> & Hi). cbn [bind].
  eexists; split; [reflexivity | lia].
Qed.

Lemma crashes_score (n inj fat : Z) :
  1 <= n < huge -> 0 <= inj < huge -> 0 <= fat < huge ->
  exists s, Neighborhood.Crashes.score_of n inj fat = Some s /\ 0 <= s <= 100.
Proof.
  intros Hn Hi Hf.
  pose proof (below_huge_20 _ Hf) as Hf20.
  apply below_huge in Hi.
  assert (Hn' : 0 <= n < 2 ^ 997) by (apply below_huge; lia).
  unfold Neighborhood.Crashes.score_of.
  destruct (Z.ltb_spec 0 n) as [_ | ]; [ | lia].
  destruct (truediv_Below inj n 997 1 999 ltac:(num) ltac:(num) ltac:(num) ltac:(num) ltac:(num) ltac:(num)) as (rate & -> & Br). cbn [bind].
  destruct (float_mul_int_Below rate 30 999 5 1006 ltac:(eassumption) ltac:(num) ltac:(num) ltac:(num) ltac:(num)) as (t & -> & Bt). cbn [bind].
  destruct (int_add_float_Below (fat * 20) t 1002 1006 1008 ltac:(num) ltac:(num) ltac:(eassumption) ltac:(num) ltac:(num) ltac:(num)) as (l & -> & Bl).
  cbn [bind].
  destruct (truediv_Below n 50 997 6 993 ltac:(num) ltac:(num) ltac:(num) ltac:(num) ltac:(num) ltac:(num)) as (c & -> & Bc). cbn [bind].
  destruct (float_mul_int_Below c 30 993 5 1000 ltac:(eassumption) ltac:(num) ltac:(num) ltac:(num) ltac:(num)) as (c30 & -> & Bc30). cbn [bind].
  assert (Bs : Below 1010 (l + c30)%float)
    by (apply (add_Below _ _ 1008 1000); solve [assumption | lia]).
  destruct (int_Below _ _ Bs) as (i & -> & Hi'). cbn [bind].
  eexists; split; [reflexivity | lia].
Qed.

Lemma violations_score (n risky : Z) :
  0 <= n < huge -> 0 <= risky < huge ->
  exists s, Update.Violations.score_of n risky = Some s /\ 0 <= s <= 100.
Proof.
  intros Hn Hr.
  pose proof (below_huge_10 _ Hr) as Hr10.
  apply below_huge in Hn.
  unfold Update.Violations.score_of.
  destruct (truediv_Below n 10 997 4 995 ltac:(num) ltac:(num) ltac:(num) ltac:(num) ltac:(num) ltac:(num)) as (c & -> & Bc). cbn [bind].
  destruct (float_mul_int_Below c 50 995 6 1003 ltac:(eassumption) ltac:(num) ltac:(num) ltac:(num) ltac:(num)) as (c50 & -> & Bc50). cbn [bind].
  destruct (int_add_float_Below (risky * 10) c50 1001 1003 1005 ltac:(num) ltac:(num) ltac:(eassumption) ltac:(num) ltac:(num) ltac:(num)) as (x & -> & Bx).
  cbn [bind].
  destruct (int_Below _ _ Bx) as (i & -> & Hi). cbn [bind].
  eexists; split; [reflexivity | lia].
Qed.

End Scores.

End ScoreFormulas.

Section KeyEquality.

#[local] Open Scope Z_scope.

(** * Comparison of floats and of grid keys *)

Section Comparison.

Lemma SFeqb_same (x y : spec_float) : SFeqb x y = true <-> same_value x y.
Proof.
  unfold SFeqb, SFcompare, same_value.
  destruct x as [[] | [] | | [] m1 e1], y as [[] | [] | | [] m2 e2];
    try (split; intros H;
         solve [ exact I | reflexivity | discriminate | contradiction
               | destruct H as (? & _); discriminate ]).
  - destruct (Z.compare_spec e1 e2) as [-> | | ];
      try (split; [discriminate | intros (_ & _ & ?); lia]).
    change (Pos.compare_cont Eq m1 m2) with (Pos.compare m1 m2).
    destruct (Pos.compare_spec m1 m2) as [-> | | ]; cbn [CompOpp];
      try (split; [discriminate | intros (_ & ? & _); lia]).
    split; [intros _; repeat split | reflexivity].
  - destruct (Z.compare_spec e1 e2) as [-> | | ];
      try (split; [discriminate | intros (_ & _ & ?); lia]).
    change (Pos.compare_cont Eq m1 m2) with (Pos.compare m1 m2).
    destruct (Pos.compare_spec m1 m2) as [-> | | ];
      try (split; [discriminate | intros (_ & ? & _); lia]).
    split; [intros _; repeat split | reflexivity].
Qed.

Lemma same_value_sym (x y : spec_float) : same_value x y -> same_value y x.
Proof.
  destruct x, y; cbn; try tauto; try congruence.
  intros (-> & -> & ->). repeat split.
Qed.

Lemma same_value_trans (x y z : spec_float) :
  same_value x y -> same_value y z -> same_value x z.
Proof.
  destruct x, y, z; cbn; try tauto; try congruence.
  intros (-> & -> & ->) (-> & -> & ->). repeat split.
Qed.

Lemma eqb_same (x y : float) : (x =? y)%float = true <-> same_value (Prim2SF x) (Prim2SF y).
Proof. rewrite eqb_spec. apply SFeqb_same. Qed.

Lemma float_eqb_sym (x y : float) : (x =? y)%float = (y =? x)%float.
Proof.
  destruct (x =? y)%float eqn:E1, (y =? x)%float eqn:E2; try reflexivity.
  - apply eqb_same, same_value_sym, eqb_same in E1. congruence.
  - apply eqb_same, same_value_sym, eqb_same in E2. congruence.
Qed.

Lemma float_eqb_trans (x y z : float) :
  (x =? y)%float = true -> (y =? z)%float = true -> (x =? z)%float = true.
Proof.
  rewrite !eqb_same. apply same_value_trans.
Qed.

(** [==] on grid keys is symmetric and transitive. *)
Lemma key_eqb_sym (p q : float * float) : key_eqb p q = key_eqb q p.
Proof.
  unfold key_eqb. rewrite (float_eqb_sym (fst p)), (float_eqb_sym (snd p)). reflexivity.
Qed.

Lemma key_eqb_trans (p q r : float * float) :
  key_eqb p q = true -> key_eqb q r = true -> key_eqb p r = true.
Proof.
  unfold key_eqb. intros H1 H2.
  apply andb_prop in H1. apply andb_prop in H2.
  destruct H1 as [A1 B1], H2 as [A2 B2].
  rewrite (float_eqb_trans _ _ _ A1 A2), (float_eqb_trans _ _ _ B1 B2). reflexivity.
Qed.

(** A float that is a number is equal to itself. *)
Lemma float_eqb_refl (x : float) : Prim2SF x <> S754_nan -> (x =? x)%float = true.
Proof.
  intros H. apply eqb_same. destruct (Prim2SF x); cbn; try tauto; congruence.
Qed.

End Comparison.

End KeyEquality.

Section RoundedQuotients.

#[local] Open Scope Z_scope.

(** * Quantization inside the bounding box *)

Section Quotient.

#[local] Abbreviation fexp := (fexp prec emax).
#[local] Abbreviation bra := (binary_round_aux prec emax).

(** The quotient of two normal floats whose mantissas satisfy [m2 <= m1]:
    one bit is rounded away. *)
Lemma SFdiv_54 (s1 s2 : bool) (m1 m2 : positive) (e1 e2 : Z) :
  Zdigits2 (Zpos m1) = 53 -> Zdigits2 (Zpos m2) = 53 ->
  let q := Zpos m1 * 2 ^ 53 / Zpos m2 in
  2 ^ 53 <= q -> q / 2 + 1 < 2 ^ 53 ->
  -1074 <= e1 - e2 - 53 -> e1 - e2 - 52 <= 971 ->
  exists mr, q / 2 <= mr <= q / 2 + 1 /\
    SF64div (S754_finite s1 m1 e1) (S754_finite s2 m2 e2)
    = S754_finite (xorb s1 s2) (Z.to_pos mr) (e1 - e2 - 52).
Proof.
  intros D1 D2 q Hq1 Hq2 He He'.
  destruct (SFdiv_finite_eq s1 s2 m1 m2 e1 e2) as (l & ->).
  rewrite D1, D2.
  replace (Z.min (fexp (53 + e1 - (53 + e2))) (e1 - e2)) with (e1 - e2 - 53)
    by (rewrite fexp_eq; lia).
  replace (e1 - e2 - (e1 - e2 - 53)) with 53 by lia. fold q. clearbody q.
  assert (Hq0 : 0 <= q) by lia.
  destruct (bra_spec (xorb s1 s2) q (e1 - e2 - 53) l Hq0) as (mr & Hmr & ->).
  assert (Dq : Zdigits2 q = 54).
  { apply Zdigits2_bounds; [lia | ]. change (54 - 1) with 53. split; [exact Hq1 | ].
    change (2 ^ 54) with (2 * 2 ^ 53). Z.to_euclidean_division_equations; lia. }
  rewrite Dq in *.
  replace (Z.max 0 (fexp (54 + (e1 - e2 - 53)) - (e1 - e2 - 53))) with 1 in *
    by (rewrite fexp_eq; lia).
  change (2 ^ 1) with 2 in Hmr.
  exists mr. split; [exact Hmr | ].
  assert (Dr : Zdigits2 mr = 53).
  { apply Zdigits2_bounds; [lia | ]. change (53 - 1) with 52.
    change (2 ^ 53) with (2 * 2 ^ 52) in Hq1. Z.to_euclidean_division_equations; lia. }
  unfold finish. rewrite Dr.
  replace (Z.max 0 (fexp (53 + (e1 - e2 - 53 + 1)) - (e1 - e2 - 53 + 1))) with 0
    by (rewrite fexp_eq; lia).
  change (2 ^ 0) with 1. rewrite Z.div_1_r.
  destruct mr as [ | p | p];
    try (change (2 ^ 53) with (2 * 2 ^ 52) in Hq1; Z.to_euclidean_division_equations; lia).
  change (emax - prec) with 971.
  destruct (Z.leb_spec (e1 - e2 - 53 + 1 + 0) 971) as [_ | ]; [ | lia].
  cbn [Z.to_pos]. f_equal. lia.
Qed.

(** Rounding to the nearest integer keeps a float between two integers. *)
Lemma nearest_even_range (m : positive) (n lo hi : Z) :
  0 < n -> lo * 2 ^ n <= Zpos m <= hi * 2 ^ n ->
  lo <= Py.nearest_even m (- n) <= hi.
Proof.
  intros Hn [Hlo Hhi]. unfold Py.nearest_even.
  destruct (Z.leb_spec 0 (- n)) as [ | _]; [lia | ].
  rewrite Z.opp_involutive.
  pose proof (pow2_pos n ltac:(lia)) as Hp.
  pose proof (Z.div_mod (Zpos m) (2 ^ n) ltac:(lia)) as Hdm.
  pose proof (Z.mod_pos_bound (Zpos m) (2 ^ n) Hp) as Hr.
  set (q := Zpos m / 2 ^ n) in *. set (r := Zpos m mod 2 ^ n) in *.
  assert (Hq1 : lo <= q) by (apply Z.div_le_lower_bound; lia).
  assert (Hq2 : q <= hi) by (apply Z.div_le_upper_bound; lia).
  assert (Hq3 : 0 < r -> q + 1 <= hi) by nia.
  destruct (Z.compare_spec (2 * r) (2 ^ n)) as [E | L | G].
  - destruct (Z.even q); lia.
  - lia.
  - lia.
Qed.

End Quotient.

End RoundedQuotients.

Section Envelope.

#[local] Open Scope Z_scope.

Section Box.

(** The index of a coordinate whose mantissa lies between two bounds. *)
Lemma round_quotient (x b : float) (s : bool) (m mb : positive) (e1 e2 : Z)
  (mlo mhi lo hi : Z) :
  Prim2SF x = S754_finite s m e1 -> Prim2SF b = S754_finite false mb e2 ->
  mlo < Zpos m < mhi -> 2 ^ 52 <= mlo -> mhi <= 2 ^ 53 ->
  Zdigits2 (Zpos mb) = 53 ->
  0 < - (e1 - e2 - 52) -> -1074 <= e1 - e2 - 53 ->
  2 ^ 53 <= (mlo + 1) * 2 ^ 53 / Zpos mb ->
  (mhi - 1) * 2 ^ 53 / Zpos mb / 2 + 1 < 2 ^ 53 ->
  lo * 2 ^ (- (e1 - e2 - 52)) <= (mlo + 1) * 2 ^ 53 / Zpos mb / 2 ->
  (mhi - 1) * 2 ^ 53 / Zpos mb / 2 + 1 <= hi * 2 ^ (- (e1 - e2 - 52)) ->
  exists k, Py.round (x / b)%float = Some (cond_Zopp s k) /\ lo <= k <= hi.
Proof.
  intros Hx Hb Hm Hlo Hhi Db Hn He Q1 Q2 R1 R2.
  assert (Dm : Zdigits2 (Zpos m) = 53).
  { apply Zdigits2_bounds; [lia | ]. change (53 - 1) with 52. lia. }
  assert (P53 : 0 < 2 ^ 53) by reflexivity.
  assert (M1 : (mlo + 1) * 2 ^ 53 / Zpos mb <= Zpos m * 2 ^ 53 / Zpos mb)
    by (apply Z.div_le_mono; nia).
  assert (M2 : Zpos m * 2 ^ 53 / Zpos mb <= (mhi - 1) * 2 ^ 53 / Zpos mb)
    by (apply Z.div_le_mono; nia).
  set (q := Zpos m * 2 ^ 53 / Zpos mb) in *.
  assert (H1 : (mlo + 1) * 2 ^ 53 / Zpos mb / 2 <= q / 2)
    by (apply Z.div_le_mono; lia).
  assert (H2 : q / 2 <= (mhi - 1) * 2 ^ 53 / Zpos mb / 2)
    by (apply Z.div_le_mono; lia).
  destruct (SFdiv_54 s false m mb e1 e2 Dm Db) as (mr & Hmr & Hdiv);
    try (fold q; lia).
  fold q in Hmr.
  unfold Py.round. rewrite div_spec, Hx, Hb, Hdiv.
  rewrite xorb_false_r.
  exists (Py.nearest_even (Z.to_pos mr) (e1 - e2 - 52)). split; [reflexivity | ].
  replace (e1 - e2 - 52) with (- - (e1 - e2 - 52)) by lia.
  assert (0 < mr).
  { assert (0 < 2 ^ 52) by reflexivity.
    assert (2 ^ 52 <= (mlo + 1) * 2 ^ 53 / Zpos mb / 2).
    { apply Z.div_le_lower_bound; [lia | ].
      change (2 * 2 ^ 52) with (2 ^ 53). exact Q1. }
    lia. }
  apply nearest_even_range; [lia | ].
  rewrite Z2Pos.id by lia. lia.
Qed.

Lemma SFltb_pos (m1 m2 : positive) (e1 e2 : Z) :
  SFltb (S754_finite false m1 e1) (S754_finite false m2 e2) = true ->
  e1 < e2 \/ (e1 = e2 /\ Zpos m1 < Zpos m2).
Proof.
  unfold SFltb, SFcompare.
  destruct (Z.compare_spec e1 e2); try discriminate; [ | lia].
  change (Pos.compare_cont Eq m1 m2) with (Pos.compare m1 m2).
  destruct (Pos.compare_spec m1 m2); try discriminate. lia.
Qed.

Lemma SFltb_neg (m1 m2 : positive) (e1 e2 : Z) :
  SFltb (S754_finite true m1 e1) (S754_finite true m2 e2) = true ->
  e2 < e1 \/ (e1 = e2 /\ Zpos m2 < Zpos m1).
Proof.
  unfold SFltb, SFcompare.
  destruct (Z.compare_spec e1 e2); try discriminate; [ | lia].
  change (Pos.compare_cont Eq m1 m2) with (Pos.compare m1 m2).
  destruct (Pos.compare_spec m1 m2); try discriminate. lia.
Qed.

(** What the bounding box says about the two coordinates. *)
Lemma box_lat (lat : float) :
  (41.6 <? lat)%float = true -> (lat <? 42.1)%float = true ->
  exists m, Prim2SF lat = S754_finite false m (-47) /\
            5854679515581645 < Zpos m < 5925048259759309.
Proof.
  rewrite !ltb_spec.
  change (Prim2SF 41.6) with (S754_finite false 5854679515581645 (-47)).
  change (Prim2SF 42.1) with (S754_finite false 5925048259759309 (-47)).
  intros H1 H2.
  destruct (Prim2SF lat) as [s | s | | s m e].
  - discriminate H1.
  - destruct s; [discriminate H1 | discriminate H2].
  - discriminate H1.
  - destruct s; [discriminate H1 | ].
    apply SFltb_pos in H1, H2.
    exists m. assert (e = -47) by lia. subst e. split; [reflexivity | lia].
Qed.

Lemma box_lng (lng : float) :
  (-88.0 <? lng)%float = true -> (lng <? -87.5)%float = true ->
  exists m, Prim2SF lng = S754_finite true m (-46) /\
            6157265115545600 < Zpos m < 6192449487634432.
Proof.
  rewrite !ltb_spec.
  change (Prim2SF (-88.0)) with (S754_finite true 6192449487634432 (-46)).
  change (Prim2SF (-87.5)) with (S754_finite true 6157265115545600 (-46)).
  intros H1 H2.
  destruct (Prim2SF lng) as [s | s | | s m e].
  - destruct s; discriminate H2.
  - destruct s; [discriminate H1 | discriminate H2].
  - discriminate H1.
  - destruct s; [ | discriminate H2].
    apply SFltb_neg in H1, H2.
    exists m. assert (e = -46) by lia. subst e. split; [reflexivity | lia].
Qed.

Lemma in_box_inv (lat lng : float) :
  in_box lat lng = true ->
  (41.6 <? lat)%float = true /\ (lat <? 42.1)%float = true /\
  (-88.0 <? lng)%float = true /\ (lng <? -87.5)%float = true.
Proof.
  unfold in_box. intros H.
  apply andb_prop in H. destruct H as [H H4].
  apply andb_prop in H. destruct H as [H H3].
  apply andb_prop in H. destruct H as [H1 H2]. tauto.
Qed.

End Box.

End Envelope.

Section GridIndices.

#[local] Open Scope Z_scope.

Section Indices.

Lemma Zrange_In (lo hi k : Z) : lo <= k <= hi -> In k (Zrange lo hi).
Proof.
  intros H. unfold Zrange. apply in_map_iff.
  exists (Z.to_nat (k - lo)). split; [lia | ].
  apply in_seq. lia.
Qed.

Lemma requantizes_inv (B : float) (k : Z) :
  requantizes B k = true ->
  exists y, Py.int_mul_float k B = Some y /\ Py.round (y / B)%float = Some k.
Proof.
  unfold requantizes. destruct (Py.int_mul_float k B) as [y | ]; [ | discriminate].
  destruct (Py.round (y / B)%float) as [k' | ] eqn:E; [ | discriminate].
  intros H. apply Z.eqb_eq in H. subst k'. exists y. split; [reflexivity | exact E].
Qed.


(** The indices of the coordinates of the box, on the two grids. *)
Lemma lat_index_002 (lat : float) :
  (41.6 <? lat)%float = true -> (lat <? 42.1)%float = true ->
  exists i, Py.round (lat / 0.002)%float = Some i /\ 20800 <= i <= 21050.
Proof.
  intros H1 H2. destruct (box_lat lat H1 H2) as (m & Hm & Hb).
  apply (round_quotient lat 0.002%float false m 4611686018427388 (-47) (-61)
           5854679515581645 5925048259759309 20800 21050 Hm eq_refl Hb); zc.
Qed.

Lemma lat_index_004 (lat : float) :
  (41.6 <? lat)%float = true -> (lat <? 42.1)%float = true ->
  exists i, Py.round (lat / 0.004)%float = Some i /\ 10400 <= i <= 10525.
Proof.
  intros H1 H2. destruct (box_lat lat H1 H2) as (m & Hm & Hb).
  apply (round_quotient lat 0.004%float false m 4611686018427388 (-47) (-60)
           5854679515581645 5925048259759309 10400 10525 Hm eq_refl Hb); zc.
Qed.

Lemma lng_index_002 (lng : float) :
  (-88.0 <? lng)%float = true -> (lng <? -87.5)%float = true ->
  exists j, Py.round (lng / 0.002)%float = Some j /\ -44000 <= j <= -43750.
Proof.
  intros H1 H2. destruct (box_lng lng H1 H2) as (m & Hm & Hb).
  destruct (round_quotient lng 0.002%float true m 4611686018427388 (-46) (-61)
              6157265115545600 6192449487634432 43750 44000 Hm eq_refl Hb)
    as (k & Hk & Hr); try zc.
  exists (- k). split; [exact Hk | lia].
Qed.

Lemma lng_index_004 (lng : float) :
  (-88.0 <? lng)%float = true -> (lng <? -87.5)%float = true ->
  exists j, Py.round (lng / 0.004)%float = Some j /\ -22000 <= j <= -21875.
Proof.
  intros H1 H2. destruct (box_lng lng H1 H2) as (m & Hm & Hb).
  destruct (round_quotient lng 0.004%float true m 4611686018427388 (-46) (-60)
              6157265115545600 6192449487634432 21875 22000 Hm eq_refl Hb)
    as (k & Hk & Hr); try zc.
  exists (- k). split; [exact Hk | lia].
Qed.

(** Every grid coordinate of the box quantizes to itself (by enumeration
    of the indices). *)
Lemma requantizes_lat_002 : forallb (requantizes 0.002) (Zrange 20800 21050) = true.
Proof. vm_compute. reflexivity. Qed.

Lemma requantizes_lng_002 : forallb (requantizes 0.002) (Zrange (-44000) (-43750)) = true.
Proof. vm_compute. reflexivity. Qed.

Lemma requantizes_lat_004 : forallb (requantizes 0.004) (Zrange 10400 10525) = true.
Proof. vm_compute. reflexivity. Qed.

Lemma requantizes_lng_004 : forallb (requantizes 0.004) (Zrange (-22000) (-21875)) = true.
Proof. vm_compute. reflexivity. Qed.

End Indices.

Section InBox.

Variable B : float.
Variables lo1 hi1 lo2 hi2 : Z.
Hypothesis lat_index : forall lat,
  (41.6 <? lat)%float = true -> (lat <? 42.1)%float = true ->
  exists i, Py.round (lat / B)%float = Some i /\ lo1 <= i <= hi1.
Hypothesis lng_index : forall lng,
  (-88.0 <? lng)%float = true -> (lng <? -87.5)%float = true ->
  exists j, Py.round (lng / B)%float = Some j /\ lo2 <= j <= hi2.
Hypothesis requantizes_lat : forallb (requantizes B) (Zrange lo1 hi1) = true.
Hypothesis requantizes_lng : forallb (requantizes B) (Zrange lo2 hi2) = true.

(** In the box, [quantize] returns a pair of grid coordinates, and each
    of them has the index it was built from. *)
Lemma quantize_in_box_gen (lat lng : float) :
  in_box lat lng = true ->
  exists i j qlat qlng,
    Py.round (lat / B)%float = Some i /\ Py.round (lng / B)%float = Some j /\
    Py.int_mul_float i B = Some qlat /\ Py.int_mul_float j B = Some qlng /\
    Py.round (qlat / B)%float = Some i /\ Py.round (qlng / B)%float = Some j /\
    quantize B lat lng = Some (qlat, qlng).
Proof.
  intros H. apply in_box_inv in H. destruct H as (H1 & H2 & H3 & H4).
  destruct (lat_index lat H1 H2) as (i & Hi & Ri).
  destruct (lng_index lng H3 H4) as (j & Hj & Rj).
  pose proof (proj1 (forallb_forall _ _) requantizes_lat i (Zrange_In _ _ _ Ri)) as Qi.
  pose proof (proj1 (forallb_forall _ _) requantizes_lng j (Zrange_In _ _ _ Rj)) as Qj.
  apply requantizes_inv in Qi, Qj.
  destruct Qi as (qlat & Mi & Bi), Qj as (qlng & Mj & Bj).
  exists i, j, qlat, qlng. repeat split; try assumption.
  unfold quantize. rewrite Hi. cbn [bind]. rewrite Mi. cbn [bind].
  rewrite Hj. cbn [bind]. rewrite Mj. reflexivity.
Qed.

Lemma quantize_idempotent_gen (lat lng : float) :
  in_box lat lng = true ->
  exists q, quantize B lat lng = Some q /\ quantize B (fst q) (snd q) = Some q.
Proof.
  intros H.
  destruct (quantize_in_box_gen lat lng H)
    as (i & j & qlat & qlng & Hi & Hj & Mi & Mj & Bi & Bj & Hq).
  exists (qlat, qlng). split; [exact Hq | ]. cbn [fst snd].
  unfold quantize. rewrite Bi. cbn [bind]. rewrite Mi. cbn [bind].
  rewrite Bj. cbn [bind]. rewrite Mj. reflexivity.
Qed.

End InBox.

Section Grids.

Lemma quantize_in_box_002 (lat lng : float) :
  in_box lat lng = true ->
  exists i j qlat qlng,
    Py.round (lat / 0.002)%float = Some i /\ Py.round (lng / 0.002)%float = Some j /\
    Py.int_mul_float i 0.002 = Some qlat /\ Py.int_mul_float j 0.002 = Some qlng /\
    Py.round (qlat / 0.002)%float = Some i /\ Py.round (qlng / 0.002)%float = Some j /\
    quantize 0.002 lat lng = Some (qlat, qlng).
Proof.
  exact (quantize_in_box_gen 0.002 20800 21050 (-44000) (-43750)
           lat_index_002 lng_index_002 requantizes_lat_002 requantizes_lng_002 lat lng).
Qed.

Lemma quantize_in_box_004 (lat lng : float) :
  in_box lat lng = true ->
  exists i j qlat qlng,
    Py.round (lat / 0.004)%float = Some i /\ Py.round (lng / 0.004)%float = Some j /\
    Py.int_mul_float i 0.004 = Some qlat /\ Py.int_mul_float j 0.004 = Some qlng /\
    Py.round (qlat / 0.004)%float = Some i /\ Py.round (qlng / 0.004)%float = Some j /\
    quantize 0.004 lat lng = Some (qlat, qlng).
Proof.
  exact (quantize_in_box_gen 0.004 10400 10525 (-22000) (-21875)
           lat_index_004 lng_index_004 requantizes_lat_004 requantizes_lng_004 lat lng).
Qed.

Lemma quantize_idempotent_002 (lat lng : float) :
  in_box lat lng = true ->
  exists q, quantize 0.002 lat lng = Some q /\ quantize 0.002 (fst q) (snd q) = Some q.
Proof.
  exact (quantize_idempotent_gen 0.002 20800 21050 (-44000) (-43750)
           lat_index_002 lng_index_002 requantizes_lat_002 requantizes_lng_002 lat lng).
Qed.

Lemma quantize_idempotent_004 (lat lng : float) :
  in_box lat lng = true ->
  exists q, quantize 0.004 lat lng = Some q /\ quantize 0.004 (fst q) (snd q) = Some q.
Proof.
  exact (quantize_idempotent_gen 0.004 10400 10525 (-22000) (-21875)
           lat_index_004 lng_index_004 requantizes_lat_004 requantizes_lng_004 lat lng).
Qed.

(** A record of the box always reaches a cell: [round_to_block] cannot
    raise there. *)
Lemma quantize_total_002 (lat lng : float) :
  in_box lat lng = true -> exists k, quantize 0.002 lat lng = Some k.
Proof.
  intros H. destruct (quantize_idempotent_002 lat lng H) as (q & Hq & _). eauto.
Qed.

Lemma quantize_total_004 (lat lng : float) :
  in_box lat lng = true -> exists k, quantize 0.004 lat lng = Some k.
Proof.
  intros H. destruct (quantize_idempotent_004 lat lng H) as (q & Hq & _). eauto.
Qed.

End Grids.

End GridIndices.

Section Quantization.

#[local] Open Scope Z_scope.

(** * Quantization (claims C1 and C9) *)

Lemma nearest_even_spec (m : positive) (e : Z) :
  let num := Zpos m * 2 ^ Z.max 0 e in
  let den := 2 ^ Z.max 0 (- e) in
  let dist := Z.abs (2 * num - 2 * Py.nearest_even m e * den) in
  dist <= den /\ (dist = den -> Z.even (Py.nearest_even m e) = true).
Proof.
  unfold Py.nearest_even. destruct (Z.leb_spec 0 e) as [He | He].
  - replace (Z.max 0 e) with e by lia. replace (Z.max 0 (- e)) with 0 by lia.
    change (2 ^ 0) with 1. cbv zeta.
    replace (2 * (Zpos m * 2 ^ e) - 2 * (Zpos m * 2 ^ e) * 1) with 0 by lia.
    cbn. split; [lia | discriminate].
  - replace (Z.max 0 e) with 0 by lia. replace (Z.max 0 (- e)) with (- e) by lia.
    change (2 ^ 0) with 1. cbv zeta.
    pose proof (pow2_pos (- e) ltac:(lia)) as Hp.
    pose proof (Z.div_mod (Zpos m) (2 ^ (- e)) ltac:(lia)) as Hdm.
    pose proof (Z.mod_pos_bound (Zpos m) (2 ^ (- e)) Hp) as Hr.
    set (d := 2 ^ (- e)) in *.
    set (q := Zpos m / d) in *. set (r := Zpos m mod d) in *.
    rewrite Z.mul_1_r.
    destruct (Z.compare_spec (2 * r) d) as [E | L | G].
    + destruct (Z.even q) eqn:Ev.
      * replace (2 * Zpos m - 2 * q * d) with d by nia.
        split; [lia | intros _; exact Ev].
      * replace (2 * Zpos m - 2 * (q + 1) * d) with (- d) by nia.
        rewrite Z.abs_opp. split; [lia | intros _].
        rewrite Z.even_add, Ev. reflexivity.
    + replace (2 * Zpos m - 2 * q * d) with (2 * r) by nia.
      split; lia.
    + replace (2 * Zpos m - 2 * (q + 1) * d) with (2 * r - 2 * d) by nia.
      split; lia.
Qed.

(** [round(x)] returns an integer nearest to [x], the even one on a tie. *)
Lemma round_nearest (x : float) (k : Z) : Py.round x = Some k -> nearest_to x k.
Proof.
  unfold Py.round, nearest_to.
  destruct (Prim2SF x) as [s | s | | s m e]; try discriminate.
  - intros H. injection H as <-. reflexivity.
  - intros H. injection H as <-.
    pose proof (nearest_even_spec m e) as Hs. cbv zeta in Hs |- *.
    destruct s; cbn [cond_Zopp].
    + rewrite Z.opp_involutive, Z.even_opp. exact Hs.
    + exact Hs.
Qed.

(** In the box, [round_to_block] of either grid returns, and what it returns
    are the multiples of the block size whose indices are the integers
    nearest to the two quotients, ties going to the even index. *)
Lemma quantize_nearest (B : float) (lat lng : float) :
  (exists i j qlat qlng,
      Py.round (lat / B)%float = Some i /\ Py.round (lng / B)%float = Some j /\
      Py.int_mul_float i B = Some qlat /\ Py.int_mul_float j B = Some qlng /\
      Py.round (qlat / B)%float = Some i /\ Py.round (qlng / B)%float = Some j /\
      quantize B lat lng = Some (qlat, qlng)) ->
  exists i j qlat qlng,
    nearest_to (lat / B)%float i /\ nearest_to (lng / B)%float j /\
    Py.int_mul_float i B = Some qlat /\ Py.int_mul_float j B = Some qlng /\
    quantize B lat lng = Some (qlat, qlng).
Proof.
  intros (i & j & qlat & qlng & Hi & Hj & Mi & Mj & _ & _ & Hq).
  exists i, j, qlat, qlng. repeat split; try assumption; apply round_nearest; assumption.
Qed.

(** C1 (as amended): for every pair accepted by the bounding-box check,
    [round_to_block] returns [(i * BLOCK_SIZE, j * BLOCK_SIZE)] where [i]
    and [j] are the integers nearest to [lat / BLOCK_SIZE] and
    [lng / BLOCK_SIZE], a quotient exactly halfway between two integers
    going to the even one (Python's [round]), on the 0.002 grid and on the
    0.004 grid. *)
Theorem round_to_block_half_even (lat lng : float) :
  in_box lat lng = true ->
  (exists i j qlat qlng,
      nearest_to (lat / Neighborhood.BLOCK_SIZE)%float i /\
      nearest_to (lng / Neighborhood.BLOCK_SIZE)%float j /\
      Py.int_mul_float i Neighborhood.BLOCK_SIZE = Some qlat /\
      Py.int_mul_float j Neighborhood.BLOCK_SIZE = Some qlng /\
      Neighborhood.round_to_block lat lng = Some (qlat, qlng)) /\
  (exists i j qlat qlng,
      nearest_to (lat / Additional.BLOCK_SIZE)%float i /\
      nearest_to (lng / Additional.BLOCK_SIZE)%float j /\
      Py.int_mul_float i Additional.BLOCK_SIZE = Some qlat /\
      Py.int_mul_float j Additional.BLOCK_SIZE = Some qlng /\
      Additional.round_to_block lat lng = Some (qlat, qlng)) /\
  Update.round_to_block lat lng = Neighborhood.round_to_block lat lng.
Proof.
  intros H. split; [ | split].
  - apply (quantize_nearest 0.002), quantize_in_box_002, H.
  - apply (quantize_nearest 0.004), quantize_in_box_004, H.
  - reflexivity.
Qed.

Lemma round_to_block_half_even_witness :
  in_box 41.801 (-87.501) = true /\
  ((exists i j qlat qlng,
      nearest_to (41.801 / Neighborhood.BLOCK_SIZE)%float i /\
      nearest_to (-87.501 / Neighborhood.BLOCK_SIZE)%float j /\
      Py.int_mul_float i Neighborhood.BLOCK_SIZE = Some qlat /\
      Py.int_mul_float j Neighborhood.BLOCK_SIZE = Some qlng /\
      Neighborhood.round_to_block 41.801 (-87.501) = Some (qlat, qlng)) /\
   (exists i j qlat qlng,
      nearest_to (41.801 / Additional.BLOCK_SIZE)%float i /\
      nearest_to (-87.501 / Additional.BLOCK_SIZE)%float j /\
      Py.int_mul_float i Additional.BLOCK_SIZE = Some qlat /\
      Py.int_mul_float j Additional.BLOCK_SIZE = Some qlng /\
      Additional.round_to_block 41.801 (-87.501) = Some (qlat, qlng)) /\
   Update.round_to_block 41.801 (-87.501) = Neighborhood.round_to_block 41.801 (-87.501)).
Proof.
  split; [reflexivity | apply (round_to_block_half_even 41.801 (-87.501)); reflexivity].
Defined.

(** C1 as stated fails: at latitude 41.801 and longitude -87.501, inside
    the box, both quotients are exactly halfway (20900.5 and -43750.5);
    [round_to_block] goes to the even indices 20900 and -43750, rounding
    half away from zero goes to 20901 and -43751, and the two cells
    differ. *)
Lemma round_to_block_not_half_away :
  in_box 41.801 (-87.501) = true /\
  (41.801 / Neighborhood.BLOCK_SIZE)%float = 20900.5%float /\
  (-87.501 / Neighborhood.BLOCK_SIZE)%float = (-43750.5)%float /\
  Py.round 20900.5 = Some 20900 /\ Spec.round_half_away 20900.5 = Some 20901 /\
  Py.round (-43750.5) = Some (-43750) /\ Spec.round_half_away (-43750.5) = Some (-43751) /\
  Neighborhood.round_to_block 41.801 (-87.501)
    = Some (41.800000000000004, -87.5)%float /\
  Spec.quantize Neighborhood.BLOCK_SIZE 41.801 (-87.501)
    = Some (41.802, -87.502)%float /\
  key_eqb (41.800000000000004, -87.5)%float (41.802, -87.502)%float = false.
Proof. repeat split; vm_compute; reflexivity. Qed.




End Quantization.

Section Dictionaries.

#[local] Open Scope Z_scope.

(** * Dictionaries *)

Section DictFacts.
Context {K V : Type}.
Variable eqb : K -> K -> bool.
Hypothesis eqb_sym : forall a b, eqb a b = eqb b a.
Hypothesis eqb_trans : forall a b c, eqb a b = true -> eqb b c = true -> eqb a c = true.

Lemma lookup_update_same (k k' : K) (d : V) (f : V -> V) (m : dict K V) :
  eqb k' k = true ->
  lookup eqb k (update eqb k' d f m)
  = Some (f (match lookup eqb k m with Some v => v | None => d end)).
Proof.
  intros Hk. induction m as [ | [k0 v] t IH]; cbn [update lookup].
  - rewrite Hk. reflexivity.
  - destruct (eqb k0 k') eqn:E0; cbn [lookup].
    + rewrite (eqb_trans _ _ _ E0 Hk). reflexivity.
    + destruct (eqb k0 k) eqn:E1; [ | exact IH].
      exfalso. rewrite eqb_sym in Hk.
      rewrite (eqb_trans _ _ _ E1 Hk) in E0. discriminate.
Qed.

Lemma lookup_update_other (k k' : K) (d : V) (f : V -> V) (m : dict K V) :
  eqb k' k = false ->
  lookup eqb k (update eqb k' d f m) = lookup eqb k m.
Proof.
  intros Hk. induction m as [ | [k0 v] t IH]; cbn [update lookup].
  - rewrite Hk. reflexivity.
  - destruct (eqb k0 k') eqn:E0; cbn [lookup].
    + destruct (eqb k0 k) eqn:E1; [ | reflexivity].
      exfalso. rewrite eqb_sym in E0.
      rewrite (eqb_trans _ _ _ E0 E1) in Hk. discriminate.
    + destruct (eqb k0 k); [reflexivity | exact IH].
Qed.

(** An update creates or changes one entry and keeps the others, in
    place. *)
Lemma update_keys (k' : K) (d : V) (f : V -> V) (m : dict K V) :
  (exists v, lookup eqb k' m = Some v /\ map fst (update eqb k' d f m) = map fst m) \/
  (lookup eqb k' m = None /\ update eqb k' d f m = m ++ [(k', f d)]).
Proof.
  induction m as [ | [k0 v] t IH]; cbn [update lookup].
  - right. split; reflexivity.
  - destruct (eqb k0 k') eqn:E0.
    + left. exists v. split; reflexivity.
    + destruct IH as [(w & Hw & Hm) | (Hn & Hm)].
      * left. exists w. split; [exact Hw | ]. cbn [map fst]. rewrite Hm. reflexivity.
      * right. split; [exact Hn | ]. rewrite Hm. reflexivity.
Qed.
End DictFacts.

Lemma string_eqb_trans (a b c : string) :
  String.eqb a b = true -> String.eqb b c = true -> String.eqb a c = true.
Proof. rewrite !String.eqb_eq. congruence. Qed.

(** [counts[c] += 1] read back with [counts.get(c', 0)]. *)
Lemma get0_incr (c c' : string) (m : dict string Z) :
  get0 c' (incr c m) = get0 c' m + (if String.eqb c c' then 1 else 0).
Proof.
  unfold get0, incr. destruct (String.eqb c c') eqn:E.
  - rewrite (lookup_update_same String.eqb String.eqb_sym string_eqb_trans) by exact E.
    destruct (lookup String.eqb c' m); lia.
  - rewrite (lookup_update_other String.eqb String.eqb_sym string_eqb_trans) by exact E.
    lia.
Qed.

(** * The grid loops, cell by cell *)

Section GridFacts.
Context {V : Type}.
Variable new_block : V.
Variable verdict_of : row -> verdict.
Variable accumulate : row -> V -> V.
Hypothesis never_raised : forall r, verdict_of r <> Raised.

#[local] Abbreviation step := (grid_step new_block verdict_of accumulate).
#[local] Abbreviation rows_of := (members verdict_of).
#[local] Abbreviation after := (cell_after new_block accumulate).

Lemma grid_fold_from (rows : list row) (blocks : dict (float * float) V) :
  exists blocks',
    fold_rows step rows blocks = Some blocks' /\
    forall k, lookup key_eqb k blocks' = after (lookup key_eqb k blocks) (rows_of k rows).
Proof.
  revert blocks. induction rows as [ | r t IH]; intros blocks; cbn [fold_rows].
  - exists blocks. split; [reflexivity | intros k; reflexivity].
  - unfold grid_step at 1. unfold members. cbn [filter].
    destruct (verdict_of r) as [ | | k'] eqn:Ev.
    + cbn [bind]. exact (IH blocks).
    + exfalso. exact (never_raised r Ev).
    + cbn [bind].
      destruct (IH (update key_eqb k' new_block (accumulate r) blocks)) as (b' & Hf & Hl).
      exists b'. split; [exact Hf | ]. intros k. rewrite Hl.
      destruct (key_eqb k' k) eqn:Ek.
      * rewrite (lookup_update_same key_eqb key_eqb_sym key_eqb_trans) by exact Ek.
        reflexivity.
      * rewrite (lookup_update_other key_eqb key_eqb_sym key_eqb_trans) by exact Ek.
        reflexivity.
Qed.

(** The loop returns, and the cell of a key holds what the rows of that
    key made of a new cell, in their order. *)
Lemma grid_fold (rows : list row) :
  exists blocks,
    fold_rows step rows [] = Some blocks /\
    forall k, lookup key_eqb k blocks = after None (rows_of k rows).
Proof. exact (grid_fold_from rows []). Qed.


Lemma after_None (c : option V) : after c [] = c.
Proof. reflexivity. Qed.

(** A counter that every row moves by an amount of its own. *)
Section Counter.
Variable p : V -> Z.
Variable delta : row -> Z.
Hypothesis p_new : p new_block = 0.
Hypothesis p_acc : forall r b, p (accumulate r b) = p b + delta r.

Lemma after_counter (ms : list row) (c : option V) (b : V) :
  after c ms = Some b ->
  p b = match c with Some b0 => p b0 | None => 0 end + Zsum (map delta ms).
Proof.
  revert c. induction ms as [ | r t IH]; intros c; cbn [cell_after fold_left map Zsum fold_right].
  - intros ->. lia.
  - intros H. apply IH in H. rewrite H, p_acc.
    destruct c; [ | rewrite p_new]; fold (Zsum (map delta t)); lia.
Qed.
End Counter.

(** A latch: set from a row while it is unset. *)
Section Latch.
Variable l : V -> option string.
Variable text : row -> string.
Hypothesis l_new : l new_block = None.
Hypothesis l_acc : forall r b, l (accumulate r b) = latch (l b) (text r).

Lemma after_latch_set (ms : list row) (c : option V) (b b0 : V) (w : string) :
  c = Some b0 -> l b0 = Some w -> Str.truthy w = true ->
  after c ms = Some b -> l b = Some w.
Proof.
  revert c b0. induction ms as [ | r t IH]; intros c b0 Hc Hl Hw;
    cbn [cell_after fold_left].
  - intros H. subst c. injection H as <-. exact Hl.
  - subst c. apply (IH _ (accumulate r b0) eq_refl); [ | exact Hw].
    rewrite l_acc, Hl. unfold latch, unset. rewrite Hw. reflexivity.
Qed.

Lemma after_latch (ms : list row) (c : option V) (b : V) :
  after c ms = Some b ->
  unset (match c with Some b0 => l b0 | None => None end) = true ->
  or_empty (match ms with [] => match c with Some b0 => l b0 | None => None end
                       | _ => l b end)
  = first_nonempty (map text ms).
Proof.
  revert c b. induction ms as [ | r t IH]; intros c b H Hu.
  - cbn. destruct (match c with Some b0 => l b0 | None => None end) as [s | ]; cbn in *.
    + destruct (Str.truthy s) eqn:E; [discriminate | ].
      unfold Str.truthy in E. apply negb_false_iff, String.eqb_eq in E. exact E.
    + reflexivity.
  - cbn [cell_after fold_left] in H. cbn [map first_nonempty].
    set (b1 := accumulate r (match c with Some b0 => b0 | None => new_block end)) in *.
    assert (Hb1 : l b1 = Some (text r)).
    { subst b1. rewrite l_acc. unfold latch.
      destruct c as [b0 | ]; [rewrite Hu | rewrite l_new]; reflexivity. }
    destruct (Str.truthy (text r)) eqn:Et.
    + rewrite (after_latch_set t (Some b1) b b1 (text r) eq_refl Hb1 Et H).
      reflexivity.
    + specialize (IH (Some b1) b H). cbn beta iota in IH.
      rewrite Hb1 in IH. cbn [unset] in IH. rewrite Et in IH.
      specialize (IH eq_refl).
      destruct t as [ | r' t'].
      * cbn in H. injection H as <-. rewrite Hb1. exact IH.
      * exact IH.
Qed.
End Latch.
End GridFacts.

(** Sums and the rows of a cell do not depend on the order of the rows. *)
Lemma Zsum_perm (l l' : list Z) : Permutation l l' -> Zsum l = Zsum l'.
Proof.
  unfold Zsum. induction 1; cbn [fold_right]; lia.
Qed.



End Dictionaries.

Section LoopBodies.

#[local] Open Scope string_scope.
#[local] Open Scope Z_scope.

(** * The loop bodies *)

Lemma place_not_raised_002 (c : option (float * float)) : place 0.002 c <> Raised.
Proof.
  unfold place. destruct c as [[lat lng] | ]; [ | discriminate].
  destruct (in_box lat lng) eqn:E; cbn [negb]; [ | discriminate].
  destruct (quantize_total_002 lat lng E) as (k & ->). discriminate.
Qed.

Lemma place_not_raised_004 (c : option (float * float)) : place 0.004 c <> Raised.
Proof.
  unfold place. destruct c as [[lat lng] | ]; [ | discriminate].
  destruct (in_box lat lng) eqn:E; cbn [negb]; [ | discriminate].
  destruct (quantize_total_004 lat lng E) as (k & ->). discriminate.
Qed.

Lemma requests_not_raised (r : row) : Cells.requests r <> Raised.
Proof.
  unfold Cells.requests.
  destruct (_ || _); [discriminate | ].
  destruct (Neighborhood.Requests.find_category _); [ | discriminate].
  apply place_not_raised_002.
Qed.

Lemma crimes_not_raised (r : row) : Cells.crimes r <> Raised.
Proof. apply place_not_raised_002. Qed.

Lemma crashes_not_raised (r : row) : Cells.crashes r <> Raised.
Proof. apply place_not_raised_002. Qed.

Lemma additional_not_raised (r : row) : Cells.additional r <> Raised.
Proof. apply place_not_raised_004. Qed.

Lemma update_not_raised (r : row) : Cells.update r <> Raised.
Proof. apply place_not_raised_002. Qed.

Lemma place_step {V : Type} (B : float) (new_block : V) (f : V -> V)
  (c : option (float * float)) (blocks : dict (float * float) V) :
  match c with
  | None => Some blocks
  | Some (lat, lng) =>
      if negb (in_box lat lng) then Some blocks
      else block_key <- quantize B lat lng ;;
           Some (update key_eqb block_key new_block f blocks)
  end
  = match place B c with
    | Skipped => Some blocks
    | Raised => None
    | Folded k => Some (update key_eqb k new_block f blocks)
    end.
Proof.
  unfold place. destruct c as [[lat lng] | ]; [ | reflexivity].
  destruct (negb (in_box lat lng)); [reflexivity | ].
  destruct (quantize B lat lng); reflexivity.
Qed.

Lemma requests_body (recent : clock) (r : row) blocks :
  Neighborhood.Requests.body recent r blocks
  = grid_step Neighborhood.Requests.new_block Cells.requests
      (fun r => Neighborhood.Requests.accumulate recent r (Cells.requests_category r))
      r blocks.
Proof.
  unfold Neighborhood.Requests.body, grid_step, Cells.requests, Cells.requests_category.
  destruct (_ || _); [reflexivity | ].
  destruct (Neighborhood.Requests.find_category _) as [c | ]; [ | reflexivity].
  apply (place_step Neighborhood.BLOCK_SIZE).
Qed.

Lemma crimes_body (r : row) blocks :
  Neighborhood.Crimes.body r blocks
  = grid_step Neighborhood.Crimes.new_block Cells.crimes
      (fun r => Neighborhood.Crimes.accumulate r (Cells.crimes_category r)) r blocks.
Proof. apply (place_step Neighborhood.BLOCK_SIZE). Qed.

Lemma crashes_body (r : row) blocks :
  Neighborhood.Crashes.body r blocks
  = grid_step Neighborhood.Crashes.new_block Cells.crashes
      Neighborhood.Crashes.accumulate r blocks.
Proof. apply (place_step Neighborhood.BLOCK_SIZE). Qed.

Lemma permits_body (recent : clock) (r : row) blocks :
  Additional.Permits.body recent r blocks
  = grid_step Additional.Permits.new_block Cells.additional
      (Additional.Permits.accumulate recent) r blocks.
Proof. apply (place_step Additional.BLOCK_SIZE). Qed.

Lemma licenses_body (r : row) blocks :
  Additional.Licenses.body r blocks
  = grid_step Additional.Licenses.new_block Cells.additional
      Additional.Licenses.accumulate r blocks.
Proof. apply (place_step Additional.BLOCK_SIZE). Qed.

Lemma potholes_body (recent : clock) (r : row) blocks :
  Additional.Potholes.body recent r blocks
  = grid_step Additional.Potholes.new_block Cells.additional
      (Additional.Potholes.accumulate recent) r blocks.
Proof. apply (place_step Additional.BLOCK_SIZE). Qed.

Lemma update_violations_body (r : row) blocks :
  Update.Violations.body r blocks
  = grid_step Update.Violations.new_block Cells.update Update.Violations.accumulate r blocks.
Proof. apply (place_step Update.BLOCK_SIZE). Qed.

Lemma update_potholes_body (r : row) blocks :
  Update.Potholes.body r blocks
  = grid_step Update.Potholes.new_block Cells.update Update.Potholes.accumulate r blocks.
Proof. apply (place_step Update.BLOCK_SIZE). Qed.

Lemma update_permits_body (r : row) blocks :
  Update.Permits.body r blocks
  = grid_step Update.Permits.new_block Cells.update Update.Permits.accumulate r blocks.
Proof. apply (place_step Update.BLOCK_SIZE). Qed.

Lemma update_licenses_body (r : row) blocks :
  Update.Licenses.body r blocks
  = grid_step Update.Licenses.new_block Cells.update Update.Licenses.accumulate r blocks.
Proof. apply (place_step Update.BLOCK_SIZE). Qed.

Lemma fold_rows_ext {S : Type} (f g : row -> S -> option S) (rows : list row) (s : S) :
  (forall r s, f r s = g r s) -> fold_rows f rows s = fold_rows g rows s.
Proof.
  intros H. revert s. induction rows as [ | r t IH]; intros s; cbn [fold_rows].
  - reflexivity.
  - rewrite H. destruct (g r s); cbn [bind]; [apply IH | reflexivity].
Qed.

(** * Rows the bounding box rejects (claim C6) *)




Lemma fold_rows_app {S : Type} (body : row -> S -> option S) (l1 l2 : list row) (s : S) :
  fold_rows body (l1 ++ l2) s = s' <- fold_rows body l1 s ;; fold_rows body l2 s'.
Proof.
  revert s. induction l1 as [ | r t IH]; intros s; cbn [fold_rows app bind].
  - reflexivity.
  - destruct (body r s); cbn [bind]; [apply IH | reflexivity].
Qed.




End LoopBodies.

Section FinishedLoops.

#[local] Open Scope string_scope.
#[local] Open Scope Z_scope.

(** * The cells of a finished loop *)


Lemma tally_all (ms : list row) : tally (fun _ => true) ms = Z.of_nat (List.length ms).
Proof.
  unfold tally, Zsum. induction ms as [ | r t IH]; cbn [map fold_right List.length].
  - reflexivity.
  - rewrite IH. lia.
Qed.

Lemma tally_nonneg (test : row -> bool) (ms : list row) : 0 <= tally test ms.
Proof.
  unfold tally, Zsum. induction ms as [ | r t IH]; cbn [map fold_right].
  - lia.
  - destruct (test r); lia.
Qed.


Lemma positive_counts_nil : positive_counts [].
Proof. intros c n H. discriminate H. Qed.

Lemma positive_counts_incr (c : string) (m : dict string Z) :
  positive_counts m -> positive_counts (incr c m).
Proof.
  intros H c' n. unfold incr. destruct (String.eqb c c') eqn:E.
  - rewrite (lookup_update_same String.eqb String.eqb_sym string_eqb_trans) by exact E.
    intros [= <-]. destruct (lookup String.eqb c' m) as [k | ] eqn:El.
    + specialize (H c' k El). lia.
    + lia.
  - rewrite (lookup_update_other String.eqb String.eqb_sym string_eqb_trans) by exact E.
    apply H.
Qed.

Lemma lookup_of_get0 (c : string) (m : dict string Z) :
  positive_counts m ->
  lookup String.eqb c m = if get0 c m =? 0 then None else Some (get0 c m).
Proof.
  intros H. unfold get0. destruct (lookup String.eqb c m) as [n | ] eqn:E.
  - specialize (H c n E). destruct (n =? 0) eqn:En; [lia | reflexivity].
  - reflexivity.
Qed.

Section CellFacts.
Context {V : Type}.
Variable new_block : V.
Variable verdict_of : row -> verdict.
Variable accumulate : row -> V -> V.
Variable body : row -> dict (float * float) V -> option (dict (float * float) V).
Hypothesis never_raised : forall r, verdict_of r <> Raised.
Hypothesis body_step :
  forall r s, body r s = grid_step new_block verdict_of accumulate r s.

#[local] Abbreviation rows_of := (members verdict_of).
#[local] Abbreviation after := (cell_after new_block accumulate).

(** The loop returns, whatever the rows. *)
Lemma loop_returns (rows : list row) :
  exists blocks,
    fold_rows body rows [] = Some blocks /\
    forall k, lookup key_eqb k blocks = after None (rows_of k rows).
Proof.
  destruct (grid_fold new_block verdict_of accumulate never_raised rows) as (b & Hf & Hl).
  exists b. split; [ | exact Hl].
  rewrite <- Hf. apply fold_rows_ext, body_step.
Qed.

Lemma cell_of (rows : list row) blocks (k : float * float) :
  fold_rows body rows [] = Some blocks ->
  lookup key_eqb k blocks = after None (rows_of k rows).
Proof.
  intros H. destruct (loop_returns rows) as (b & Hf & Hl).
  rewrite H in Hf. injection Hf as <-. apply Hl.
Qed.

(** A cell exists for the keys some row was folded into, and for no
    other. *)
Lemma cell_absent (rows : list row) blocks (k : float * float) :
  fold_rows body rows [] = Some blocks ->
  rows_of k rows = [] -> lookup key_eqb k blocks = None.
Proof. intros H E. rewrite (cell_of rows blocks k H), E. reflexivity. Qed.


Lemma cell_members (rows : list row) blocks (k : float * float) (b : V) :
  fold_rows body rows [] = Some blocks ->
  lookup key_eqb k blocks = Some b -> rows_of k rows <> [].
Proof.
  intros H L E. rewrite (cell_absent rows blocks k H E) in L. discriminate.
Qed.

Section Counter.
Variable p : V -> Z.
Variable delta : row -> Z.
Hypothesis p_new : p new_block = 0.
Hypothesis p_acc : forall r b, p (accumulate r b) = p b + delta r.

Lemma cell_counter (rows : list row) blocks (k : float * float) (b : V) :
  fold_rows body rows [] = Some blocks ->
  lookup key_eqb k blocks = Some b ->
  p b = Zsum (map delta (rows_of k rows)).
Proof.
  intros H L. rewrite (cell_of rows blocks k H) in L.
  rewrite (after_counter new_block accumulate p delta p_new p_acc _ None b L).
  lia.
Qed.
End Counter.

Section Tally.
Variable p : V -> Z.
Variable test : row -> bool.
Hypothesis p_new : p new_block = 0.
Hypothesis p_acc : forall r b, p (accumulate r b) = p b + (if test r then 1 else 0).

Lemma cell_tally (rows : list row) blocks (k : float * float) (b : V) :
  fold_rows body rows [] = Some blocks ->
  lookup key_eqb k blocks = Some b ->
  p b = tally test (rows_of k rows).
Proof. apply (cell_counter p _ p_new p_acc). Qed.
End Tally.

Section Latch.
Variable l : V -> option string.
Variable text : row -> string.
Hypothesis l_new : l new_block = None.
Hypothesis l_acc : forall r b, l (accumulate r b) = latch (l b) (text r).

Lemma cell_latch (rows : list row) blocks (k : float * float) (b : V) :
  fold_rows body rows [] = Some blocks ->
  lookup key_eqb k blocks = Some b ->
  or_empty (l b) = first_nonempty (map text (rows_of k rows)).
Proof.
  intros H L. pose proof (cell_members rows blocks k b H L) as Hm.
  rewrite (cell_of rows blocks k H) in L.
  pose proof (after_latch new_block accumulate l text l_new l_acc
                _ None b L eq_refl) as A.
  destruct (rows_of k rows); [congruence | exact A].
Qed.
End Latch.

Section Invariant.
Variable P : V -> Prop.
Hypothesis P_new : P new_block.
Hypothesis P_acc : forall r b, P b -> P (accumulate r b).

Lemma after_invariant (ms : list row) (c : option V) (b : V) :
  after c ms = Some b ->
  match c with Some b0 => P b0 | None => ms <> [] end -> P b.
Proof.
  revert c. induction ms as [ | r t IH]; intros c; cbn [cell_after fold_left].
  - intros ->. intros H. exact H.
  - intros H Hc. apply (IH _ H). apply P_acc. destruct c; [exact Hc | exact P_new].
Qed.

Lemma cell_invariant (rows : list row) blocks (k : float * float) (b : V) :
  fold_rows body rows [] = Some blocks ->
  lookup key_eqb k blocks = Some b -> P b.
Proof.
  intros H L. pose proof (cell_members rows blocks k b H L) as Hm.
  rewrite (cell_of rows blocks k H) in L.
  exact (after_invariant _ None b L Hm).
Qed.
End Invariant.

Section Categories.
Variable cats : V -> dict string Z.
Variable cat : row -> string.
Hypothesis cats_new : cats new_block = [].
Hypothesis cats_acc : forall r b, cats (accumulate r b) = incr (cat r) (cats b).

Lemma cell_categories (rows : list row) blocks (k : float * float) (b : V) (c : string) :
  fold_rows body rows [] = Some blocks ->
  lookup key_eqb k blocks = Some b ->
  lookup String.eqb c (cats b) = counted cat c (rows_of k rows).
Proof.
  intros H L.
  assert (Hp : positive_counts (cats b)).
  { apply (cell_invariant (fun b => positive_counts (cats b))) with (rows := rows)
      (blocks := blocks) (k := k); try assumption.
    - rewrite cats_new. apply positive_counts_nil.
    - intros r b0 Hb. rewrite cats_acc. apply positive_counts_incr, Hb. }
  rewrite (lookup_of_get0 c _ Hp). unfold counted.
  assert (Hg : get0 c (cats b) = tally (fun r => String.eqb (cat r) c) (rows_of k rows)).
  { apply (cell_tally (fun b => get0 c (cats b)) (fun r => String.eqb (cat r) c))
      with (blocks := blocks); try assumption.
    - rewrite cats_new. reflexivity.
    - intros r b0. rewrite cats_acc. apply get0_incr. }
  rewrite Hg. reflexivity.
Qed.
End Categories.

(** A field every row transforms in its own way. *)
Section Folded.
Context {A : Type}.
Variable p : V -> A.
Variable g : row -> A -> A.
Hypothesis p_acc : forall r b, p (accumulate r b) = g r (p b).


End Folded.
End CellFacts.


End FinishedLoops.

Section RejectionAndLatch.

#[local] Open Scope string_scope.
#[local] Open Scope Z_scope.

(** * Rows outside the envelope *)





(** * The latch fields *)

Lemma latch_keeps (o : option string) (w v : string) :
  o = Some w -> Str.truthy w = true -> latch o v = Some w.
Proof. intros -> H. unfold latch, unset. rewrite H. reflexivity. Qed.

(** C4.  The ward and the address of a cell of the 311 requests and of the
    building permits are those of the first row folded into the cell that
    carries a non-empty text for them (the empty text when no row does); a
    field that holds a non-empty text is not changed by any later row. *)
Theorem ward_and_address_latch (recent : clock) (rows : list row) :
  (exists blocks,
      fold_rows (Neighborhood.Requests.body recent) rows [] = Some blocks /\
      forall k b, lookup key_eqb k blocks = Some b ->
        or_empty (Neighborhood.Requests.ward b)
        = first_nonempty (map (fun r => field r "WARD") (members Cells.requests k rows)) /\
        or_empty (Neighborhood.Requests.address b)
        = first_nonempty
            (map (fun r => field r "STREET_ADDRESS") (members Cells.requests k rows))) /\
  (exists blocks,
      fold_rows (Additional.Permits.body recent) rows [] = Some blocks /\
      forall k b, lookup key_eqb k blocks = Some b ->
        or_empty (Additional.Permits.ward b)
        = first_nonempty (map (fun r => field r "WARD") (members Cells.additional k rows)) /\
        or_empty (Additional.Permits.address b)
        = first_nonempty
            (map (fun r => join3_strip (field r "STREET_NUMBER") (field r "STREET_DIRECTION")
                             (field r "STREET_NAME"))
               (members Cells.additional k rows))) /\
  (forall r c b w, Str.truthy w = true ->
      (Neighborhood.Requests.ward b = Some w ->
       Neighborhood.Requests.ward (Neighborhood.Requests.accumulate recent r c b) = Some w) /\
      (Neighborhood.Requests.address b = Some w ->
       Neighborhood.Requests.address (Neighborhood.Requests.accumulate recent r c b) = Some w)) /\
  (forall r b w, Str.truthy w = true ->
      (Additional.Permits.ward b = Some w ->
       Additional.Permits.ward (Additional.Permits.accumulate recent r b) = Some w) /\
      (Additional.Permits.address b = Some w ->
       Additional.Permits.address (Additional.Permits.accumulate recent r b) = Some w)).
Proof.
  split; [ | split; [ | split]].
  - destruct (loop_returns _ _ _ _ requests_not_raised (requests_body recent) rows)
      as (blocks & Hf & _).
    exists blocks. split; [exact Hf | ]. intros k b L. split.
    + apply (cell_latch _ _ _ _ requests_not_raised (requests_body recent)
               Neighborhood.Requests.ward (fun r => field r "WARD"))
        with (blocks := blocks); auto.
    + apply (cell_latch _ _ _ _ requests_not_raised (requests_body recent)
               Neighborhood.Requests.address (fun r => field r "STREET_ADDRESS"))
        with (blocks := blocks); auto.
  - destruct (loop_returns _ _ _ _ additional_not_raised (permits_body recent) rows)
      as (blocks & Hf & _).
    exists blocks. split; [exact Hf | ]. intros k b L. split.
    + apply (cell_latch _ _ _ _ additional_not_raised (permits_body recent)
               Additional.Permits.ward (fun r => field r "WARD"))
        with (blocks := blocks); auto.
    + apply (cell_latch _ _ _ _ additional_not_raised (permits_body recent)
               Additional.Permits.address
               (fun r => join3_strip (field r "STREET_NUMBER") (field r "STREET_DIRECTION")
                           (field r "STREET_NAME")))
        with (blocks := blocks); auto.
  - intros r c b w Hw. split; intros H; cbn; apply latch_keeps; assumption.
  - intros r b w Hw. split; intros H; cbn; apply latch_keeps; assumption.
Qed.

(** The first request of a cell carries an empty ward and an empty address:
    the cell holds them after it, and the second request of the cell replaces
    both. *)
Lemma ward_taken_from_later_row :
  field Sample.request_unnamed "WARD" = "" /\
  option_map (map (fun kv => (Neighborhood.Requests.count (snd kv),
                              Neighborhood.Requests.ward (snd kv),
                              Neighborhood.Requests.address (snd kv))))
    (fold_rows (Neighborhood.Requests.body long_ago) [Sample.request_unnamed] [])
  = Some [(1, Some "", Some "")] /\
  option_map (map (fun kv => (Neighborhood.Requests.count (snd kv),
                              Neighborhood.Requests.ward (snd kv),
                              Neighborhood.Requests.address (snd kv))))
    (fold_rows (Neighborhood.Requests.body long_ago)
       [Sample.request_unnamed; Sample.request_named] [])
  = Some [(2, Some "42", Some "100 N STATE ST")].
Proof. repeat split; vm_compute; reflexivity. Qed.

End RejectionAndLatch.

Section RowOrder.

#[local] Open Scope string_scope.
#[local] Open Scope Z_scope.

(** * The order of the rows *)

Section TwoRuns.
Context {V : Type}.
Variable new_block : V.
Variable verdict_of : row -> verdict.
Variable accumulate : row -> V -> V.
Variable body : row -> dict (float * float) V -> option (dict (float * float) V).
Hypothesis never_raised : forall r, verdict_of r <> Raised.
Hypothesis body_step :
  forall r s, body r s = grid_step new_block verdict_of accumulate r s.
Variable related : float * float -> V -> V -> Prop.
Variables rows rows' : list row.
Hypothesis same_rows : Permutation rows rows'.
Hypothesis related_cells :
  forall blocks blocks' k c c',
    fold_rows body rows [] = Some blocks ->
    fold_rows body rows' [] = Some blocks' ->
    lookup key_eqb k blocks = Some c ->
    lookup key_eqb k blocks' = Some c' ->
    related k c c'.

End TwoRuns.




(** The sum of the permit costs is a sum of floats, added from the left in
    the order of the rows: it is not the same in every order, and neither is
    the integer written to the output. *)
Lemma permits_cost_depends_on_order :
  option_map (map (fun kv => Py.int (Additional.Permits.total_cost (snd kv))))
    (fold_rows (Additional.Permits.body long_ago)
       (map permit_costing ["10000000000000000"; "1"; "1"]) [])
  = Some [Some 10000000000000000] /\
  option_map (map (fun kv => Py.int (Additional.Permits.total_cost (snd kv))))
    (fold_rows (Additional.Permits.body long_ago)
       (map permit_costing ["1"; "1"; "10000000000000000"]) [])
  = Some [Some 10000000000000002].
Proof. split; vm_compute; reflexivity. Qed.

(** * Numeric fields *)






End RowOrder.

Section Outputs.

#[local] Open Scope string_scope.
#[local] Open Scope Z_scope.

(** * Sorting and filtering *)

Section SortFacts.
Context {A : Type}.
Variable key : A -> Z.

Lemma insert_perm (x : A) (l : list A) : Permutation (insert key x l) (x :: l).
Proof.
  induction l as [ | y t IH]; cbn [insert].
  - apply Permutation_refl.
  - destruct (key x <=? key y).
    + apply Permutation_refl.
    + eapply Permutation_trans; [apply perm_skip, IH | apply perm_swap].
Qed.

Lemma sort_perm (l : list A) : Permutation (sort key l) l.
Proof.
  unfold sort. induction l as [ | x t IH]; cbn [fold_right].
  - apply Permutation_refl.
  - eapply Permutation_trans; [apply insert_perm | apply perm_skip, IH].
Qed.

Lemma sort_In (l : list A) (x : A) : In x (sort key l) <-> In x l.
Proof.
  split; apply Permutation_in; [ | apply Permutation_sym]; apply sort_perm.
Qed.

Lemma insert_ascending (x : A) (l : list A) : ascending key l -> ascending key (insert key x l).
Proof.
  induction l as [ | y t IH]; cbn [insert ascending].
  - intros _. split; [intros y [] | exact I].
  - intros [Hy Ht]. destruct (key x <=? key y) eqn:E; cbn [ascending].
    + apply Z.leb_le in E. split; [ | split; assumption].
      intros z [<- | Hz]; [exact E | ]. specialize (Hy z Hz). lia.
    + apply Z.leb_gt in E. split; [ | apply IH, Ht].
      intros z Hz. apply (Permutation_in _ (insert_perm x t)) in Hz.
      destruct Hz as [<- | Hz]; [lia | apply Hy, Hz].
Qed.

Lemma sort_ascending (l : list A) : ascending key (sort key l).
Proof.
  unfold sort. induction l as [ | x t IH]; cbn [fold_right].
  - exact I.
  - apply insert_ascending, IH.
Qed.
End SortFacts.

(** Sorting by the negated key orders the list descending in the key. *)
Lemma sort_descending {A : Type} (key : A -> Z) (l : list A) :
  descending key (sort (fun x => - key x) l).
Proof.
  pose proof (sort_ascending (fun x => - key x) l) as H.
  induction (sort (fun x => - key x) l) as [ | x t IH]; cbn [descending ascending] in *.
  - exact I.
  - destruct H as [H1 H2]. split; [ | apply IH, H2].
    intros y Hy. specialize (H1 y Hy). lia.
Qed.

Lemma mapM_In {A B : Type} (f : A -> option B) (l : list A) (l' : list B) :
  mapM f l = Some l' ->
  forall y, In y l' <-> exists x, In x l /\ f x = Some y.
Proof.
  revert l'. induction l as [ | a t IH]; intros l'; cbn [mapM].
  - intros [= <-] y. split; [intros [] | intros (x & [] & _)].
  - destruct (f a) as [b | ] eqn:Ea; cbn [bind]; [ | discriminate].
    destruct (mapM f t) as [r | ]; cbn [bind]; [ | discriminate].
    intros [= <-] y. specialize (IH r eq_refl y). cbn [In]. split.
    + intros [<- | Hy].
      * exists a. split; [left; reflexivity | exact Ea].
      * apply IH in Hy. destruct Hy as (x & Hx & Hf). exists x. split; [right | ]; assumption.
    + intros (x & [<- | Hx] & Hf).
      * left. congruence.
      * right. apply IH. exists x. split; assumption.
Qed.

Lemma mapM_length {A B : Type} (f : A -> option B) (l : list A) (l' : list B) :
  mapM f l = Some l' -> List.length l' = List.length l.
Proof.
  revert l'. induction l as [ | a t IH]; intros l'; cbn [mapM].
  - intros [= <-]. reflexivity.
  - destruct (f a) as [b | ]; cbn [bind]; [ | discriminate].
    destruct (mapM f t) as [r | ]; cbn [bind]; [ | discriminate].
    intros [= <-]. cbn [List.length]. rewrite (IH r eq_refl). reflexivity.
Qed.

Lemma keeps_filter {V : Type} (T : Z) (count : V -> Z) :
  keeps T count (filter (fun kv => T <=? count (snd kv))).
Proof.
  intros blocks kv. rewrite filter_In, Z.leb_le. reflexivity.
Qed.

Lemma serializes_sorted {V E : Type}
  (filtered : dict (float * float) V -> dict (float * float) V)
  (make_entry : (float * float) * V -> option E)
  (emit : dict (float * float) V -> option (output E))
  (key : E -> Z) (count : V -> Z) :
  (forall blocks,
      emit blocks
      = (d <- mapM make_entry (filtered blocks) ;;
         Some (Output (total count (filtered blocks)) (Z.of_nat (List.length d))
                 (sort key d)))) ->
  serializes filtered make_entry emit.
Proof.
  intros He blocks out H e. rewrite He in H.
  destruct (mapM make_entry (filtered blocks)) as [d | ] eqn:Ed; cbn [bind] in H;
    [ | discriminate].
  injection H as <-. cbn [data]. rewrite sort_In. exact (mapM_In _ _ _ Ed e).
Qed.

Lemma serializes_total {V E : Type}
  (filtered : dict (float * float) V -> dict (float * float) V)
  (make_entry : (float * float) * V -> E)
  (emit : dict (float * float) V -> output E)
  (key : E -> Z) (count : V -> Z) :
  (forall blocks,
      emit blocks
      = Output (total count (filtered blocks))
          (Z.of_nat (List.length (map make_entry (filtered blocks))))
          (sort key (map make_entry (filtered blocks)))) ->
  serializes filtered (fun kv => Some (make_entry kv)) (fun blocks => Some (emit blocks)).
Proof.
  intros He blocks out [= <-] e. rewrite He. cbn [data]. rewrite sort_In, in_map_iff.
  split; intros (kv & H1 & H2).
  - exists kv. split; [exact H2 | congruence].
  - exists kv. split; [congruence | exact H1].
Qed.

(** C3.  Each dataset keeps the cells whose count reaches its threshold and
    writes the entries of the cells it keeps, so a cell whose count equals
    the threshold is kept and one below it is not; the thresholds are those of
    the script: in the two file-based scripts requests 3, crimes 2, crashes 3,
    permits 5, licenses 3, potholes 3, and in the update script violations 2,
    potholes 2, permits 2, licenses 2. *)
Theorem thresholds_by_script :
  (keeps 3 Neighborhood.Requests.count Neighborhood.Requests.filtered /\
   serializes Neighborhood.Requests.filtered Neighborhood.Requests.make_entry
     Neighborhood.Requests.emit) /\
  (keeps 2 Neighborhood.Crimes.count Neighborhood.Crimes.filtered /\
   serializes Neighborhood.Crimes.filtered Neighborhood.Crimes.make_entry
     Neighborhood.Crimes.emit) /\
  (keeps 3 Neighborhood.Crashes.count Neighborhood.Crashes.filtered /\
   serializes Neighborhood.Crashes.filtered Neighborhood.Crashes.make_entry
     Neighborhood.Crashes.emit) /\
  (keeps 5 Additional.Permits.count Additional.Permits.filtered /\
   serializes Additional.Permits.filtered Additional.Permits.make_entry
     Additional.Permits.emit) /\
  (keeps 3 Additional.Licenses.count Additional.Licenses.filtered /\
   serializes Additional.Licenses.filtered Additional.Licenses.make_entry
     Additional.Licenses.emit) /\
  (keeps 3 Additional.Potholes.count Additional.Potholes.filtered /\
   serializes Additional.Potholes.filtered Additional.Potholes.make_entry
     Additional.Potholes.emit) /\
  (keeps 2 Update.Violations.count Update.Violations.filtered /\
   serializes Update.Violations.filtered Update.Violations.make_entry
     Update.Violations.emit) /\
  (keeps 2 Update.Potholes.count Update.Potholes.filtered /\
   serializes Update.Potholes.filtered (fun kv => Some (Update.Potholes.make_entry kv))
     (fun blocks => Some (Update.Potholes.emit blocks))) /\
  (keeps 2 Update.Permits.count Update.Permits.filtered /\
   serializes Update.Permits.filtered Update.Permits.make_entry Update.Permits.emit) /\
  (keeps 2 Update.Licenses.count Update.Licenses.filtered /\
   serializes Update.Licenses.filtered (fun kv => Some (Update.Licenses.make_entry kv))
     (fun blocks => Some (Update.Licenses.emit blocks))).
Proof.
  repeat match goal with |- _ /\ _ => split end;
    try apply keeps_filter;
    try (eapply serializes_sorted; intros blocks; reflexivity);
    try (eapply serializes_total; intros blocks; reflexivity).
Qed.

(** Four permits of one cell in the update script: the cell, one short of
    the threshold 5, is written to the [data] array. *)
Lemma update_keeps_four_permits :
  option_map (fun out => map Update.Permits.e_count (data out))
    (Update.process_permits [update_permit; update_permit; update_permit; update_permit])
  = Some [4].
Proof. vm_compute. reflexivity. Qed.

(** * The order of the potholes *)

(** The file-based script orders the potholes by potholes filled. *)
Lemma additional_potholes_by_filled (blocks : dict (float * float) Additional.Potholes.block)
  (out : output Additional.Potholes.entry) :
  Additional.Potholes.emit blocks = Some out ->
  descending Additional.Potholes.e_filled (data out).
Proof.
  unfold Additional.Potholes.emit.
  destruct (mapM _ _) as [d | ]; cbn [bind]; [ | discriminate].
  intros [= <-]. cbn [data]. apply sort_descending.
Qed.

(** The update script orders them by count. *)
Lemma update_potholes_by_count (blocks : dict (float * float) Update.Potholes.block) :
  descending Update.Potholes.e_count (data (Update.Potholes.emit blocks)).
Proof. unfold Update.Potholes.emit. cbn [data]. apply sort_descending. Qed.

(** C2.  On a cell of count 3 with 40 potholes filled and a cell of count 5
    with 10 potholes filled, [process_potholes] of the update script writes
    the cell of count 5 first, while [process_potholes] of the file-based
    script writes the cell with 40 potholes filled first. *)
Theorem potholes_order_differs :
  option_map
    (fun out => map (fun e => (Update.Potholes.e_count e, Update.Potholes.e_filled e))
                  (data out))
    (Update.process_potholes (three_then_five update_repair_at))
  = Some [(5, 10); (3, 40)] /\
  option_map
    (fun out => map (fun e => (Additional.Potholes.e_count e, Additional.Potholes.e_filled e))
                  (data out))
    (Additional.process_potholes long_ago (three_then_five repair_at))
  = Some [(3, 40); (5, 10)].
Proof. split; vm_compute; reflexivity. Qed.

End Outputs.

Section CameraFacts.

#[local] Open Scope string_scope.
#[local] Open Scope Z_scope.

(** * Cameras *)

Lemma lookup_none_keys {V : Type} (k : string) (m : dict string V) :
  lookup String.eqb k m = None -> ~ In k (map fst m).
Proof.
  induction m as [ | [k0 v] t IH]; cbn [lookup map fst In].
  - intros _ [].
  - destruct (String.eqb k0 k) eqn:E; [discriminate | ].
    intros H [H0 | H0]; [ | exact (IH H H0)].
    subst k0. rewrite String.eqb_refl in E. discriminate.
Qed.


Lemma update_NoDup {V : Type} (k : string) (d : V) (f : V -> V) (m : dict string V) :
  NoDup (map fst m) -> NoDup (map fst (update String.eqb k d f m)).
Proof.
  intros N. destruct (update_keys String.eqb k d f m) as [(v & _ & E) | (Hn & E)].
  - rewrite E. exact N.
  - rewrite E, map_app. cbn [map fst].
    apply NoDup_rev in N. rewrite <- (rev_involutive (map fst m ++ [k])).
    apply NoDup_rev. rewrite rev_app_distr. cbn [rev app]. constructor; [ | exact N].
    rewrite <- in_rev. apply lookup_none_keys, Hn.
Qed.

Section CameraLoop.
Variable record : row -> Z -> float -> float
                  -> Additional.Cameras.camera -> Additional.Cameras.camera.

#[local] Abbreviation body := (Additional.Cameras.body record).

Lemma camera_body (cams : dict string Additional.Cameras.camera) (r : row) :
  body cams r
  = match Sighting.of_row r with
    | Some (id, n, la, lo) =>
        update String.eqb id Additional.Cameras.new_camera (record r n la lo) cams
    | None => cams
    end.
Proof.
  unfold Additional.Cameras.body, Sighting.of_row.
  destruct (Additional.Cameras.read r) as [[[[id n] la] lo] | ]; [ | reflexivity].
  destruct (Additional.Cameras.accepted (id, n, la, lo)); reflexivity.
Qed.


Lemma camera_keys (rows : list row) (cams : dict string Additional.Cameras.camera) :
  NoDup (map fst cams) -> NoDup (map fst (fold_left body rows cams)).
Proof.
  revert cams. induction rows as [ | r t IH]; intros cams N; cbn [fold_left].
  - exact N.
  - apply IH. rewrite camera_body.
    destruct (Sighting.of_row r) as [[[[id' n] la] lo] | ]; [ | exact N].
    apply update_NoDup, N.
Qed.


Hypothesis record_violations :
  forall r n la lo c,
    Additional.Cameras.violations (record r n la lo c)
    = Additional.Cameras.violations c + n.

End CameraLoop.





Section CameraFinal.
Variable record : row -> Z -> float -> float
                  -> Additional.Cameras.camera -> Additional.Cameras.camera.
Hypothesis record_violations :
  forall r n la lo c,
    Additional.Cameras.violations (record r n la lo c)
    = Additional.Cameras.violations c + n.
Hypothesis record_place :
  forall r n la lo c,
    Additional.Cameras.lat (record r n la lo c) = la /\
    Additional.Cameras.lng (record r n la lo c) = lo /\
    Additional.Cameras.address (record r n la lo c) = field r "ADDRESS".

End CameraFinal.



End CameraFacts.

Section ScoreBounds.

#[local] Open Scope string_scope.
#[local] Open Scope Z_scope.

(** * The scores *)

(** C8.  For a cell whose count reaches the threshold of its dataset, whose
    integer accumulators are non-negative and below [10^300] and, for the
    permits, whose total cost is a non-negative finite float, each of the
    seven score formulas returns an integer between 0 and 100. *)
Theorem scores_within_bounds :
  (forall b, 3 <= Neighborhood.Requests.count b < huge ->
             exists s, Neighborhood.Requests.score b = Some s /\ 0 <= s <= 100) /\
  (forall b, 2 <= Neighborhood.Crimes.count b < huge ->
             0 <= get0 "violent" (Neighborhood.Crimes.categories b) < huge ->
             0 <= get0 "property" (Neighborhood.Crimes.categories b) < huge ->
             exists s, Neighborhood.Crimes.score b = Some s /\ 0 <= s <= 100) /\
  (forall b, 3 <= Neighborhood.Crashes.count b < huge ->
             0 <= Neighborhood.Crashes.injuries b < huge ->
             0 <= Neighborhood.Crashes.fatal b < huge ->
             exists s, Neighborhood.Crashes.score b = Some s /\ 0 <= s <= 100) /\
  (forall b, 5 <= Additional.Permits.count b < huge ->
             finite_nonneg (Additional.Permits.total_cost b) = true ->
             exists s, Additional.Permits.score b = Some s /\ 0 <= s <= 100) /\
  (forall b, 3 <= Additional.Licenses.count b < huge ->
             exists s, Additional.Licenses.score b = Some s /\ 0 <= s <= 100) /\
  (forall b, 3 <= Additional.Potholes.count b ->
             0 <= Additional.Potholes.potholes_filled b < huge ->
             exists s, Additional.Potholes.score b = Some s /\ 0 <= s <= 100) /\
  (forall b, 2 <= Update.Violations.count b < huge ->
             0 <= Update.Violations.high_risk b < huge ->
             exists s, Update.Violations.score b = Some s /\ 0 <= s <= 100).
Proof.
  refine (conj _ (conj _ (conj _ (conj _ (conj _ (conj _ _)))))).
  - intros b H. apply requests_score. lia.
  - intros b H Hv Hp. apply crimes_score; [exact Hv | exact Hp | lia].
  - intros b H Hi Hf. apply crashes_score; [lia | exact Hi | exact Hf].
  - intros b H Hc. apply permits_score; [lia | exact Hc].
  - intros b H. apply licenses_score. lia.
  - intros b _ H. apply potholes_score, H.
  - intros b H Hr. apply violations_score; [lia | exact Hr].
Qed.

(** Cells at their thresholds. *)
Lemma scores_within_bounds_witness :
  (exists s, Neighborhood.Requests.score (Neighborhood.Requests.Block 3 [] None None 0)
             = Some s /\ 0 <= s <= 100) /\
  (exists s, Neighborhood.Crimes.score
               (Neighborhood.Crimes.Block 2 [("violent", 1); ("property", 1)] None None 0)
             = Some s /\ 0 <= s <= 100) /\
  (exists s, Neighborhood.Crashes.score (Neighborhood.Crashes.Block 3 2 1 0 None)
             = Some s /\ 0 <= s <= 100) /\
  (exists s, Additional.Permits.score
               (Additional.Permits.Block 5 [] None None 250000%float 0)
             = Some s /\ 0 <= s <= 100) /\
  (exists s, Update.Violations.score (Update.Violations.Block 2 1 0 None)
             = Some s /\ 0 <= s <= 100).
Proof.
  destruct scores_within_bounds as (H1 & H2 & H3 & H4 & _ & _ & H7).
  refine (conj _ (conj _ (conj _ (conj _ _)))).
  - apply H1. vm_compute. intuition congruence.
  - apply H2; vm_compute; intuition congruence.
  - apply H3; vm_compute; intuition congruence.
  - apply H4; vm_compute; intuition congruence.
  - apply H7; vm_compute; intuition congruence.
Defined.

(** Five permits of one cell, the cost of one of them beyond the range of
    binary64: the total cost of the cell is [+infinity], which is not
    negative; the score formula raises on it, and so does the script. *)
Lemma infinite_cost_has_no_score :
  option_map (map (fun kv => (Additional.Permits.count (snd kv),
                              Additional.Permits.total_cost (snd kv))))
    (fold_rows (Additional.Permits.body long_ago)
       (map permit_costing ["1e999"; "1"; "1"; "1"; "1"]) [])
  = Some [(5, infinity)] /\
  (0 <=? infinity)%float = true /\
  Additional.Permits.score_of 5 infinity = None /\
  Additional.process_permits long_ago (map permit_costing ["1e999"; "1"; "1"; "1"; "1"])
  = None.
Proof. repeat split; vm_compute; reflexivity. Qed.

End ScoreBounds.

Section WholeRuns.

#[local] Open Scope string_scope.
#[local] Open Scope Z_scope.

(** * Whole runs *)

(** ** The keys of the cells *)

Lemma round_not_nan (x B : float) (q : Z) :
  Py.round (x / B)%float = Some q -> Prim2SF x <> S754_nan.
Proof.
  intros H E. unfold Py.round in H. rewrite div_spec, E in H. discriminate H.
Qed.

Lemma quantize_key_refl_002 (lat lng : float) (k : float * float) :
  in_box lat lng = true -> quantize 0.002 lat lng = Some k -> key_eqb k k = true.
Proof.
  intros H Hk.
  destruct (quantize_in_box_002 lat lng H)
    as (i & j & qlat & qlng & _ & _ & _ & _ & Ri & Rj & Hq).
  rewrite Hq in Hk. injection Hk as <-. unfold key_eqb. cbn [fst snd].
  rewrite (float_eqb_refl qlat (round_not_nan _ _ _ Ri)).
  rewrite (float_eqb_refl qlng (round_not_nan _ _ _ Rj)). reflexivity.
Qed.

Lemma quantize_key_refl_004 (lat lng : float) (k : float * float) :
  in_box lat lng = true -> quantize 0.004 lat lng = Some k -> key_eqb k k = true.
Proof.
  intros H Hk.
  destruct (quantize_in_box_004 lat lng H)
    as (i & j & qlat & qlng & _ & _ & _ & _ & Ri & Rj & Hq).
  rewrite Hq in Hk. injection Hk as <-. unfold key_eqb. cbn [fst snd].
  rewrite (float_eqb_refl qlat (round_not_nan _ _ _ Ri)).
  rewrite (float_eqb_refl qlng (round_not_nan _ _ _ Rj)). reflexivity.
Qed.

Lemma place_key_refl_002 (c : option (float * float)) (k : float * float) :
  place 0.002 c = Folded k -> key_eqb k k = true.
Proof.
  unfold place. destruct c as [[lat lng] | ]; [ | discriminate].
  destruct (in_box lat lng) eqn:E; cbn [negb]; [ | discriminate].
  destruct (quantize 0.002 lat lng) as [q | ] eqn:Eq; [ | discriminate].
  intros [= <-]. exact (quantize_key_refl_002 lat lng q E Eq).
Qed.

Lemma place_key_refl_004 (c : option (float * float)) (k : float * float) :
  place 0.004 c = Folded k -> key_eqb k k = true.
Proof.
  unfold place. destruct c as [[lat lng] | ]; [ | discriminate].
  destruct (in_box lat lng) eqn:E; cbn [negb]; [ | discriminate].
  destruct (quantize 0.004 lat lng) as [q | ] eqn:Eq; [ | discriminate].
  intros [= <-]. exact (quantize_key_refl_004 lat lng q E Eq).
Qed.

Lemma requests_key_refl (r : row) (k : float * float) :
  Cells.requests r = Folded k -> key_eqb k k = true.
Proof.
  unfold Cells.requests. destruct (_ || _); [discriminate | ].
  destruct (Neighborhood.Requests.find_category _); [ | discriminate].
  apply place_key_refl_002.
Qed.

Section KeyedFacts.
Context {V : Type}.

Lemma update_In (k : float * float) (d : V) (f : V -> V) (m : dict (float * float) V) kv :
  In kv (update key_eqb k d f m) ->
  fst kv = k \/ exists v, In (fst kv, v) m.
Proof.
  induction m as [ | [k0 v0] t IH]; cbn [update In].
  - intros [<- | []]. left. reflexivity.
  - destruct (key_eqb k0 k); cbn [In].
    + intros [<- | H]; right.
      * exists v0. left. reflexivity.
      * exists (snd kv). right. destruct kv. exact H.
    + intros [<- | H].
      * right. exists v0. left. reflexivity.
      * destruct (IH H) as [E | (v & Hv)]; [left; exact E | ].
        right. exists v. right. exact Hv.
Qed.

Lemma update_keyed (k : float * float) (d : V) (f : V -> V) (m : dict (float * float) V) :
  key_eqb k k = true -> keyed m -> keyed (update key_eqb k d f m).
Proof.
  intros Hk. induction m as [ | [k0 v0] t IH]; cbn [update keyed].
  - intros _. split; [exact Hk | ]. split; [intros kv [] | exact I].
  - intros (H0 & Ht & Kt). destruct (key_eqb k0 k) eqn:E; cbn [keyed].
    + split; [exact H0 | ]. split; assumption.
    + split; [exact H0 | ]. split; [ | apply IH, Kt].
      intros kv Hkv. destruct (update_In k d f t kv Hkv) as [-> | (v & Hv)].
      * exact E.
      * exact (Ht _ Hv).
Qed.

Lemma keyed_lookup (m : dict (float * float) V) (k : float * float) (b : V) :
  keyed m -> In (k, b) m -> lookup key_eqb k m = Some b.
Proof.
  induction m as [ | [k0 v0] t IH]; cbn [keyed In lookup].
  - intros _ [].
  - intros (H0 & Ht & Kt) [H | H].
    + injection H as -> ->. rewrite H0. reflexivity.
    + pose proof (Ht _ H) as E. cbn [fst] in E. rewrite E. apply IH; assumption.
Qed.

Lemma lookup_entry (m : dict (float * float) V) (k : float * float) (b : V) :
  lookup key_eqb k m = Some b -> exists k', In (k', b) m /\ key_eqb k' k = true.
Proof.
  induction m as [ | [k0 v0] t IH]; cbn [lookup In]; [discriminate | ].
  destruct (key_eqb k0 k) eqn:E.
  - intros [= ->]. exists k0. split; [left; reflexivity | exact E].
  - intros H. destruct (IH H) as (k' & Hi & Hk). exists k'. split; [right | ]; assumption.
Qed.
End KeyedFacts.

Lemma total_sum {V : Type} (f : V -> Z) (m : dict (float * float) V) :
  total f m = Zsum (map (fun kv => f (snd kv)) m).
Proof.
  unfold total.
  assert (G : forall a, fold_left (fun acc kv => acc + f (snd kv)) m a
                        = a + Zsum (map (fun kv => f (snd kv)) m)).
  { induction m as [ | kv t IH]; intros a; cbn [fold_left map Zsum fold_right].
    - lia.
    - rewrite IH. unfold Zsum. lia. }
  rewrite G. lia.
Qed.


Lemma tally_cons (test : row -> bool) (r : row) (t : list row) :
  tally test (r :: t) = (if test r then 1 else 0) + tally test t.
Proof. reflexivity. Qed.

Lemma tally_le_all (test : row -> bool) (ms : list row) :
  tally test ms <= tally (fun _ => true) ms.
Proof.
  induction ms as [ | r t IH]; [reflexivity | ].
  rewrite !tally_cons. destruct (test r); lia.
Qed.

Section WholeRun.
Context {V : Type}.
Variable new_block : V.
Variable verdict_of : row -> verdict.
Variable accumulate : row -> V -> V.
Variable body : row -> dict (float * float) V -> option (dict (float * float) V).
Hypothesis never_raised : forall r, verdict_of r <> Raised.
Hypothesis body_step :
  forall r s, body r s = grid_step new_block verdict_of accumulate r s.
Hypothesis keys_sound : forall r k, verdict_of r = Folded k -> key_eqb k k = true.

Lemma run_keyed_from (rows : list row) (blocks0 blocks : dict (float * float) V) :
  keyed blocks0 -> fold_rows body rows blocks0 = Some blocks -> keyed blocks.
Proof.
  revert blocks0. induction rows as [ | r t IH]; intros blocks0 K; cbn [fold_rows].
  - intros [= <-]. exact K.
  - rewrite body_step. unfold grid_step.
    destruct (verdict_of r) as [ | | k] eqn:Ev; cbn [bind].
    + apply IH, K.
    + discriminate.
    + apply IH, update_keyed; [exact (keys_sound r k Ev) | exact K].
Qed.

Lemma run_keyed (rows : list row) (blocks : dict (float * float) V) :
  fold_rows body rows [] = Some blocks -> keyed blocks.
Proof. apply run_keyed_from. exact I. Qed.

(** An entry of the dictionary is the cell of its key. *)
Lemma entry_cell (rows : list row) (blocks : dict (float * float) V)
  (k : float * float) (b : V) :
  fold_rows body rows [] = Some blocks ->
  In (k, b) blocks -> lookup key_eqb k blocks = Some b.
Proof. intros H. apply keyed_lookup, (run_keyed rows), H. Qed.

Lemma members_folded (k : float * float) (rows : list row) :
  incl (members verdict_of k rows) (folded verdict_of rows).
Proof.
  intros r. unfold members, folded. rewrite !filter_In. intros [Hi Hv].
  split; [exact Hi | ]. destruct (verdict_of r); try discriminate. reflexivity.
Qed.

Lemma members_length (k : float * float) (rows : list row) :
  (List.length (members verdict_of k rows) <= List.length rows)%nat.
Proof. unfold members. apply filter_length_le. Qed.

Section Count.
Variable count : V -> Z.
Hypothesis count_new : count new_block = 0.
Hypothesis count_acc : forall r b, count (accumulate r b) = count b + 1.



Lemma entry_count (rows : list row) (blocks : dict (float * float) V)
  (k : float * float) (b : V) :
  fold_rows body rows [] = Some blocks ->
  In (k, b) blocks ->
  count b = Z.of_nat (List.length (members verdict_of k rows)).
Proof.
  intros H Hi. rewrite <- tally_all.
  apply (cell_tally new_block verdict_of accumulate body never_raised body_step
           count (fun _ => true) count_new count_acc rows blocks k b H).
  exact (entry_cell rows blocks k b H Hi).
Qed.

Lemma entry_count_bounds (rows : list row) (blocks : dict (float * float) V)
  (k : float * float) (b : V) :
  fold_rows body rows [] = Some blocks ->
  In (k, b) blocks ->
  1 <= count b <= Z.of_nat (List.length rows).
Proof.
  intros H Hi. rewrite (entry_count rows blocks k b H Hi).
  pose proof (members_length k rows).
  pose proof (cell_members new_block verdict_of accumulate body never_raised body_step
                rows blocks k b H (entry_cell rows blocks k b H Hi)) as Hne.
  destruct (members verdict_of k rows) as [ | r0 t0]; [congruence | ].
  cbn [List.length] in H0 |- *. lia.
Qed.

Section Tally.
Variable p : V -> Z.
Variable test : row -> bool.
Hypothesis p_new : p new_block = 0.
Hypothesis p_acc : forall r b, p (accumulate r b) = p b + (if test r then 1 else 0).

Lemma entry_tally (rows : list row) (blocks : dict (float * float) V)
  (k : float * float) (b : V) :
  fold_rows body rows [] = Some blocks ->
  In (k, b) blocks ->
  p b = tally test (members verdict_of k rows) /\ 0 <= p b <= count b.
Proof.
  intros H Hi.
  pose proof (cell_tally new_block verdict_of accumulate body never_raised body_step
                p test p_new p_acc rows blocks k b H (entry_cell rows blocks k b H Hi))
    as E.
  split; [exact E | ]. rewrite E, (entry_count rows blocks k b H Hi), <- tally_all.
  split; [apply tally_nonneg | apply tally_le_all].
Qed.
End Tally.
End Count.
End WholeRun.

Lemma mapM_total {A B : Type} (f : A -> option B) (l : list A) :
  (forall x, In x l -> exists y, f x = Some y) -> exists l', mapM f l = Some l'.
Proof.
  induction l as [ | a t IH]; intros H; cbn [mapM].
  - eauto.
  - destruct (H a (or_introl eq_refl)) as (y & ->). cbn [bind].
    destruct IH as (l' & ->); [intros x Hx; apply H; right; exact Hx | ].
    cbn [bind]. eauto.
Qed.

End WholeRuns.

Section SoundLoops.

#[local] Open Scope string_scope.
#[local] Open Scope Z_scope.

(** * The loops, as whole runs *)

Section SoundRun.
Context {V : Type}.
Variable new_block : V.
Variable verdict_of : row -> verdict.
Variable accumulate : row -> V -> V.
Variable body : row -> dict (float * float) V -> option (dict (float * float) V).
Hypothesis never_raised : forall r, verdict_of r <> Raised.
Hypothesis body_step :
  forall r s, body r s = grid_step new_block verdict_of accumulate r s.
Hypothesis keys_sound : forall r k, verdict_of r = Folded k -> key_eqb k k = true.
Variable count : V -> Z.
Hypothesis count_new : count new_block = 0.
Hypothesis count_acc : forall r b, count (accumulate r b) = count b + 1.

End SoundRun.




(** * The outputs *)

Lemma mapM_map {A B : Type} (f : A -> option B) (l : list A) (l' : list B)
  (p : A -> Z) (q : B -> Z) :
  (forall x y, f x = Some y -> q y = p x) ->
  mapM f l = Some l' -> map q l' = map p l.
Proof.
  intros Hpq. revert l'. induction l as [ | a t IH]; intros l'; cbn [mapM].
  - intros [= <-]. reflexivity.
  - destruct (f a) as [b | ] eqn:Ea; cbn [bind]; [ | discriminate].
    destruct (mapM f t) as [r | ]; cbn [bind]; [ | discriminate].
    intros [= <-]. cbn [map]. rewrite (Hpq a b Ea), (IH r eq_refl). reflexivity.
Qed.

Section EmitFacts.
Context {V E : Type}.
Variable T : Z.
Variable count : V -> Z.
Variable make_entry : (float * float) * V -> option E.
Variable e_count : E -> Z.
Hypothesis entry_count : forall kv e, make_entry kv = Some e -> e_count e = count (snd kv).

Lemma emit_well_formed (blocks : dict (float * float) V) (out : output E) :
  emit_by_count T count make_entry e_count blocks = Some out ->
  well_formed T e_count out /\
  forall e, In e (data out) <->
            exists kv, In kv blocks /\ T <= count (snd kv) /\ make_entry kv = Some e.
Proof.
  unfold emit_by_count. cbv zeta.
  destruct (mapM make_entry _) as [d | ] eqn:Ed; cbn [bind]; [ | discriminate].
  intros [= <-]. cbn [data meta_blocks meta_total].
  assert (Hin : forall e, In e (sort (fun x => - e_count x) d) <->
                          exists kv, In kv blocks /\ T <= count (snd kv) /\
                                     make_entry kv = Some e).
  { intros e. rewrite sort_In, (mapM_In _ _ _ Ed e). split.
    - intros (kv & Hk & He). apply filter_In in Hk. destruct Hk as [Hk Hc].
      apply Z.leb_le in Hc. eauto.
    - intros (kv & Hk & Hc & He). exists kv. split; [ | exact He].
      apply filter_In. split; [exact Hk | apply Z.leb_le, Hc]. }
  split; [ | exact Hin].
  unfold well_formed. cbn [data meta_blocks meta_total].
  refine (conj _ (conj _ (conj _ _))).
  - apply sort_descending.
  - rewrite (Permutation_length (sort_perm (fun x => - e_count x) d)). reflexivity.
  - rewrite total_sum.
    rewrite <- (mapM_map make_entry _ d (fun kv => count (snd kv)) e_count entry_count Ed).
    apply Zsum_perm, Permutation_map, Permutation_sym, sort_perm.
  - intros e He. apply Hin in He. destruct He as (kv & _ & Hc & He).
    rewrite (entry_count kv e He). exact Hc.
Qed.

Lemma emit_returns (blocks : dict (float * float) V) :
  (forall kv, In kv blocks -> T <= count (snd kv) -> exists e, make_entry kv = Some e) ->
  exists out, emit_by_count T count make_entry e_count blocks = Some out.
Proof.
  intros H. unfold emit_by_count. cbv zeta.
  destruct (mapM_total make_entry (filter (fun kv => T <=? count (snd kv)) blocks))
    as (d & ->).
  - intros kv Hk. apply filter_In in Hk. destruct Hk as [Hk Hc].
    apply Z.leb_le in Hc. exact (H kv Hk Hc).
  - cbn [bind]. eauto.
Qed.
End EmitFacts.


Lemma incr_sum (c : string) (m : dict string Z) :
  Zsum (map snd (incr c m)) = Zsum (map snd m) + 1.
Proof.
  unfold incr, Zsum. induction m as [ | [k0 v0] t IH]; cbn [update map fold_right snd].
  - lia.
  - destruct (String.eqb k0 c); cbn [map fold_right snd]; lia.
Qed.

Lemma score_unique {A : Type} (o : option A) (P : A -> Prop) (s : A) :
  (exists x, o = Some x /\ P x) -> o = Some s -> P s.
Proof. intros (x & -> & H) [= <-]. exact H. Qed.

End SoundLoops.

Section RequestsRuns.

#[local] Open Scope string_scope.
#[local] Open Scope Z_scope.

(** * The datasets, from the rows to the output *)

Lemma huge_length (rows : list row) (n : Z) :
  Z.of_nat (List.length rows) < huge -> 1 <= n <= Z.of_nat (List.length rows) ->
  0 <= n < huge.
Proof. lia. Qed.

(** ** 311 service requests *)

Lemma requests_entry_count kv e :
  Neighborhood.Requests.make_entry kv = Some e ->
  Neighborhood.Requests.e_count e = Neighborhood.Requests.count (snd kv).
Proof.
  destruct kv as [[lat lng] b]. unfold Neighborhood.Requests.make_entry.
  destruct (Neighborhood.Requests.score b); cbn [bind]; [ | discriminate].
  intros [= <-]. reflexivity.
Qed.

Section RequestsOutput.
Variable accumulate : row -> Neighborhood.Requests.block -> Neighborhood.Requests.block.
Variable verdict_of : row -> verdict.
Variable body : row -> dict (float * float) Neighborhood.Requests.block
                -> option (dict (float * float) Neighborhood.Requests.block).
Hypothesis never_raised : forall r, verdict_of r <> Raised.
Hypothesis body_step :
  forall r s, body r s = grid_step Neighborhood.Requests.new_block verdict_of accumulate r s.
Hypothesis keys_sound : forall r k, verdict_of r = Folded k -> key_eqb k k = true.
Variable category : row -> string.
Variable test : row -> bool.
Hypothesis count_acc :
  forall r b, Neighborhood.Requests.count (accumulate r b)
              = Neighborhood.Requests.count b + 1.
Hypothesis cats_acc :
  forall r b, Neighborhood.Requests.categories (accumulate r b)
              = incr (category r) (Neighborhood.Requests.categories b).
Hypothesis recent_acc :
  forall r b, Neighborhood.Requests.recent_count (accumulate r b)
              = Neighborhood.Requests.recent_count b + (if test r then 1 else 0).

Lemma requests_output (rows : list row) :
  Z.of_nat (List.length rows) < huge ->
  exists blocks out,
    fold_rows body rows [] = Some blocks /\
    Neighborhood.Requests.emit blocks = Some out /\
    well_formed 3 Neighborhood.Requests.e_count out /\
    forall e, In e (data out) ->
      0 <= Neighborhood.Requests.e_score e <= 100 /\
      0 <= Neighborhood.Requests.e_recent e <= Neighborhood.Requests.e_count e /\
      Zsum (map snd (Neighborhood.Requests.e_categories e))
      = Neighborhood.Requests.e_count e.
Proof.
  intros Hlen.
  destruct (loop_returns _ _ _ _ never_raised body_step rows) as (blocks & Hf & _).
  assert (Hb : forall k b, In (k, b) blocks ->
                 0 <= Neighborhood.Requests.count b < huge).
  { intros k b Hi. apply (huge_length rows _ Hlen).
    exact (entry_count_bounds _ _ _ _ never_raised body_step keys_sound
             Neighborhood.Requests.count eq_refl count_acc rows blocks k b Hf Hi). }
  destruct (emit_returns 3 Neighborhood.Requests.count Neighborhood.Requests.make_entry
              Neighborhood.Requests.e_count blocks) as (out & Ho).
  { intros [[lat lng] b] Hi _. unfold Neighborhood.Requests.make_entry.
    destruct (requests_score b (Hb _ _ Hi)) as (s & -> & _). cbn [bind]. eauto. }
  exists blocks, out. split; [exact Hf | ]. split; [exact Ho | ].
  destruct (emit_well_formed 3 Neighborhood.Requests.count Neighborhood.Requests.make_entry
              Neighborhood.Requests.e_count requests_entry_count blocks out Ho)
    as (Hw & Hin).
  split; [exact Hw | ]. intros e He. apply Hin in He.
  destruct He as ([[lat lng] b] & Hi & _ & He).
  unfold Neighborhood.Requests.make_entry in He.
  destruct (Neighborhood.Requests.score b) as [s | ] eqn:Es; cbn [bind] in He;
    [ | discriminate].
  injection He as <-. cbn.
  refine (conj _ (conj _ _)).
  - exact (score_unique _ (fun s => 0 <= s <= 100) s (requests_score b (Hb _ _ Hi)) Es).
  - apply (entry_tally _ _ _ _ never_raised body_step keys_sound
             Neighborhood.Requests.count eq_refl count_acc
             Neighborhood.Requests.recent_count test eq_refl recent_acc
             rows blocks (lat, lng) b Hf Hi).
  - apply (cell_invariant _ _ _ _ never_raised body_step
             (fun b => Zsum (map snd (Neighborhood.Requests.categories b))
                       = Neighborhood.Requests.count b))
      with (rows := rows) (blocks := blocks) (k := (lat, lng)).
    + reflexivity.
    + intros r b0 H0. rewrite cats_acc, count_acc, incr_sum, H0. reflexivity.
    + exact Hf.
    + exact (entry_cell _ _ _ _ body_step keys_sound rows blocks _ _ Hf Hi).
Qed.
End RequestsOutput.



End RequestsRuns.

Section OtherRuns.

#[local] Open Scope string_scope.
#[local] Open Scope Z_scope.

(** ** Crimes *)


Section CrimesOutput.
Variable accumulate : row -> Neighborhood.Crimes.block -> Neighborhood.Crimes.block.
Variable verdict_of : row -> verdict.
Variable body : row -> dict (float * float) Neighborhood.Crimes.block
                -> option (dict (float * float) Neighborhood.Crimes.block).
Hypothesis never_raised : forall r, verdict_of r <> Raised.
Hypothesis body_step :
  forall r s, body r s = grid_step Neighborhood.Crimes.new_block verdict_of accumulate r s.
Hypothesis keys_sound : forall r k, verdict_of r = Folded k -> key_eqb k k = true.
Variable category : row -> string.
Variable test : row -> bool.
Hypothesis count_acc :
  forall r b, Neighborhood.Crimes.count (accumulate r b) = Neighborhood.Crimes.count b + 1.
Hypothesis cats_acc :
  forall r b, Neighborhood.Crimes.categories (accumulate r b)
              = incr (category r) (Neighborhood.Crimes.categories b).
Hypothesis arrests_acc :
  forall r b, Neighborhood.Crimes.arrests (accumulate r b)
              = Neighborhood.Crimes.arrests b + (if test r then 1 else 0).


End CrimesOutput.



(** ** Business licenses *)




(** ** Building violations *)




(** ** The datasets of the update script without a score *)




End OtherRuns.

Section OutputOrder.

#[local] Open Scope string_scope.
#[local] Open Scope Z_scope.

(** * More on the outputs *)

(** ** Cameras *)

Lemma filter_NoDup_keys {V : Type} (p : string * V -> bool) (m : dict string V) :
  NoDup (map fst m) -> NoDup (map fst (filter p m)).
Proof.
  induction m as [ | kv t IH]; cbn [map filter]; [intros H; exact H | ].
  intros N. inversion N as [ | ? ? Hn Nt]; subst.
  destruct (p kv); cbn [map]; [ | apply IH, Nt].
  constructor; [ | apply IH, Nt].
  intros Hi. apply Hn. apply in_map_iff in Hi. destruct Hi as (x & Hx & Hf).
  apply filter_In in Hf. apply in_map_iff. exists x. split; [exact Hx | apply Hf].
Qed.

(** In the two [data] arrays of [process_camera_violations] no camera id
    occurs twice, and the arrays are in descending order of the
    violations. *)
Theorem camera_data_distinct_descending (rl_rows speed_rows : list row) :
  let out := Additional.process_camera_violations rl_rows speed_rows in
  NoDup (map Additional.Cameras.e_cam_id (fst out)) /\
  descending Additional.Cameras.e_violations (fst out) /\
  NoDup (map Additional.Cameras.e_cam_id (snd out)) /\
  descending Additional.Cameras.e_violations (snd out).
Proof.
  cbv zeta. unfold Additional.process_camera_violations, Additional.Cameras.process.
  cbn [fst snd]. unfold Additional.Cameras.rl_data, Additional.Cameras.speed_data.
  refine (conj _ (conj _ (conj _ _))); try apply sort_descending.
  - apply (Permutation_NoDup
             (Permutation_sym (Permutation_map _ (sort_perm _ _)))).
    rewrite map_map.
    rewrite (map_ext _ fst) by (intros [id c]; reflexivity).
    apply filter_NoDup_keys.
    exact (camera_keys Additional.Cameras.record_red_light rl_rows [] (NoDup_nil _)).
  - apply (Permutation_NoDup
             (Permutation_sym (Permutation_map _ (sort_perm _ _)))).
    rewrite map_map.
    rewrite (map_ext _ fst) by (intros [id c]; reflexivity).
    apply filter_NoDup_keys.
    exact (camera_keys Additional.Cameras.record_speed speed_rows [] (NoDup_nil _)).
Qed.

(** ** Ties in the order of the output *)

Section Stability.
Context {A : Type}.
Variable key : A -> Z.

Lemma insert_other (c : Z) (x : A) (l : list A) :
  key x <> c -> with_key key c (insert key x l) = with_key key c l.
Proof.
  intros Hx. unfold with_key.
  induction l as [ | y t IH]; cbn [insert filter].
  - destruct (key x =? c) eqn:E; [apply Z.eqb_eq in E; contradiction | reflexivity].
  - destruct (key x <=? key y); cbn [filter].
    + destruct (key x =? c) eqn:E; [apply Z.eqb_eq in E; contradiction | reflexivity].
    + rewrite IH. reflexivity.
Qed.

Lemma insert_same (c : Z) (x : A) (l : list A) :
  key x = c -> with_key key c (insert key x l) = x :: with_key key c l.
Proof.
  intros Hx. unfold with_key.
  induction l as [ | y t IH]; cbn [insert filter].
  - rewrite Hx, Z.eqb_refl. reflexivity.
  - destruct (key x <=? key y) eqn:E; cbn [filter].
    + rewrite Hx, Z.eqb_refl. reflexivity.
    + apply Z.leb_gt in E. destruct (key y =? c) eqn:Ey.
      * apply Z.eqb_eq in Ey. lia.
      * exact IH.
Qed.

(** The sort is stable: elements with the same key keep their order. *)
Lemma sort_stable (c : Z) (l : list A) :
  with_key key c (sort key l) = with_key key c l.
Proof.
  unfold sort. induction l as [ | x t IH]; cbn [fold_right]; [reflexivity | ].
  destruct (Z.eq_dec (key x) c) as [E | E].
  - rewrite (insert_same c x _ E), IH. unfold with_key. cbn [filter].
    rewrite E, Z.eqb_refl. reflexivity.
  - rewrite (insert_other c x _ E), IH. unfold with_key. cbn [filter].
    destruct (key x =? c) eqn:Ex; [apply Z.eqb_eq in Ex; contradiction | reflexivity].
Qed.
End Stability.

Lemma with_key_opp {A : Type} (key : A -> Z) (c : Z) (l : list A) :
  with_key (fun x => - key x) (- c) l = with_key key c l.
Proof.
  unfold with_key. apply filter_ext. intros x.
  destruct (key x =? c) eqn:E.
  - apply Z.eqb_eq in E. apply Z.eqb_eq. lia.
  - apply Z.eqb_neq in E. apply Z.eqb_neq. lia.
Qed.

Lemma emit_ties {V E : Type} (T : Z) (count : V -> Z)
  (make_entry : (float * float) * V -> option E) (e_count : E -> Z)
  (blocks : dict (float * float) V) (out : output E) :
  emit_by_count T count make_entry e_count blocks = Some out ->
  exists d, entries_in_order T count make_entry blocks = Some d /\
            forall c, with_key e_count c (data out) = with_key e_count c d.
Proof.
  unfold emit_by_count, entries_in_order. cbv zeta.
  destruct (mapM make_entry _) as [d | ]; cbn [bind]; [ | discriminate].
  intros [= <-]. exists d. split; [reflexivity | ]. intros c. cbn [data].
  rewrite <- (with_key_opp e_count c (sort _ d)), sort_stable. apply with_key_opp.
Qed.

(** Cells with equal counts are written in the order in which the cells were
    created: in the output of each dataset of the file-based neighborhood
    script, the elements with a given count are the entries of that count in
    the order of the dictionary. *)
Theorem equal_counts_keep_dictionary_order
  (requests : dict (float * float) Neighborhood.Requests.block)
  (crimes : dict (float * float) Neighborhood.Crimes.block)
  (crashes : dict (float * float) Neighborhood.Crashes.block) :
  (forall out, Neighborhood.Requests.emit requests = Some out ->
     exists d,
       entries_in_order 3 Neighborhood.Requests.count Neighborhood.Requests.make_entry
         requests = Some d /\
       forall c, with_key Neighborhood.Requests.e_count c (data out)
                 = with_key Neighborhood.Requests.e_count c d) /\
  (forall out, Neighborhood.Crimes.emit crimes = Some out ->
     exists d,
       entries_in_order 2 Neighborhood.Crimes.count Neighborhood.Crimes.make_entry
         crimes = Some d /\
       forall c, with_key Neighborhood.Crimes.e_count c (data out)
                 = with_key Neighborhood.Crimes.e_count c d) /\
  (forall out, Neighborhood.Crashes.emit crashes = Some out ->
     exists d,
       entries_in_order 3 Neighborhood.Crashes.count Neighborhood.Crashes.make_entry
         crashes = Some d /\
       forall c, with_key Neighborhood.Crashes.e_count c (data out)
                 = with_key Neighborhood.Crashes.e_count c d).
Proof.
  refine (conj _ (conj _ _)); intros out H.
  - exact (emit_ties 3 Neighborhood.Requests.count Neighborhood.Requests.make_entry
             Neighborhood.Requests.e_count requests out H).
  - exact (emit_ties 2 Neighborhood.Crimes.count Neighborhood.Crimes.make_entry
             Neighborhood.Crimes.e_count crimes out H).
  - exact (emit_ties 3 Neighborhood.Crashes.count Neighborhood.Crashes.make_entry
             Neighborhood.Crashes.e_count crashes out H).
Qed.

(** ** The indices of the cells *)

(** Inside the envelope [round_to_block] of the 0.002 grid returns the
    products by the block size of a latitude index between 20800 and 21050
    and of a longitude index between -44000 and -43750; on the 0.004 grid
    the indices are between 10400 and 10525 and between -22000 and
    -21875. *)
Theorem round_to_block_index_range (lat lng : float) :
  in_box lat lng = true ->
  (exists i j qlat qlng,
      Neighborhood.round_to_block lat lng = Some (qlat, qlng) /\
      Py.int_mul_float i Neighborhood.BLOCK_SIZE = Some qlat /\
      Py.int_mul_float j Neighborhood.BLOCK_SIZE = Some qlng /\
      20800 <= i <= 21050 /\ -44000 <= j <= -43750) /\
  (exists i j qlat qlng,
      Additional.round_to_block lat lng = Some (qlat, qlng) /\
      Py.int_mul_float i Additional.BLOCK_SIZE = Some qlat /\
      Py.int_mul_float j Additional.BLOCK_SIZE = Some qlng /\
      10400 <= i <= 10525 /\ -22000 <= j <= -21875).
Proof.
  intros H. pose proof (in_box_inv lat lng H) as (H1 & H2 & H3 & H4). split.
  - destruct (quantize_in_box_002 lat lng H)
      as (i & j & qlat & qlng & Hi & Hj & Mi & Mj & _ & _ & Hq).
    destruct (lat_index_002 lat H1 H2) as (i' & Hi' & Ri).
    destruct (lng_index_002 lng H3 H4) as (j' & Hj' & Rj).
    assert (i' = i) by congruence. assert (j' = j) by congruence. subst i' j'.
    exists i, j, qlat, qlng. repeat split; try assumption; lia.
  - destruct (quantize_in_box_004 lat lng H)
      as (i & j & qlat & qlng & Hi & Hj & Mi & Mj & _ & _ & Hq).
    destruct (lat_index_004 lat H1 H2) as (i' & Hi' & Ri).
    destruct (lng_index_004 lng H3 H4) as (j' & Hj' & Rj).
    assert (i' = i) by congruence. assert (j' = j) by congruence. subst i' j'.
    exists i, j, qlat, qlng. repeat split; try assumption; lia.
Qed.

Lemma round_to_block_index_range_witness :
  in_box 41.8789 (-87.6359) = true /\
  (exists i j qlat qlng,
      Neighborhood.round_to_block 41.8789 (-87.6359) = Some (qlat, qlng) /\
      Py.int_mul_float i Neighborhood.BLOCK_SIZE = Some qlat /\
      Py.int_mul_float j Neighborhood.BLOCK_SIZE = Some qlng /\
      20800 <= i <= 21050 /\ -44000 <= j <= -43750) /\
  (exists i j qlat qlng,
      Additional.round_to_block 41.8789 (-87.6359) = Some (qlat, qlng) /\
      Py.int_mul_float i Additional.BLOCK_SIZE = Some qlat /\
      Py.int_mul_float j Additional.BLOCK_SIZE = Some qlng /\
      10400 <= i <= 10525 /\ -22000 <= j <= -21875).
Proof.
  split; [reflexivity | ].
  apply (round_to_block_index_range 41.8789 (-87.6359)). reflexivity.
Defined.

(** ** Rejected rows in the update script *)



(** Whenever [process_potholes] of the file-based script writes an output,
    its [data] array is in descending order of the potholes filled. *)
Theorem potholes_descending_by_filled (recent : clock) (rows : list row)
  (out : output Additional.Potholes.entry) :
  Additional.process_potholes recent rows = Some out ->
  descending Additional.Potholes.e_filled (data out).
Proof.
  unfold Additional.process_potholes, Additional.Potholes.process.
  destruct (fold_rows (Additional.Potholes.body recent) rows []) as [blocks | ];
    cbn [bind]; [ | discriminate].
  apply additional_potholes_by_filled.
Qed.

Lemma potholes_descending_by_filled_witness :
  exists out,
    Additional.process_potholes long_ago (three_then_five repair_at) = Some out /\
    descending Additional.Potholes.e_filled (data out).
Proof.
  destruct (Additional.process_potholes long_ago (three_then_five repair_at))
    as [out | ] eqn:E; [ | vm_compute in E; discriminate E].
  exists out. split; [reflexivity | ].
  exact (potholes_descending_by_filled long_ago (three_then_five repair_at) out E).
Defined.

End OutputOrder.

Section FieldSums.

#[local] Open Scope string_scope.
#[local] Open Scope Z_scope.

(** * Field by field *)

(** ** Injuries and fatalities *)



(** ** The numeric fields of the update script *)



(** ** The latch fields of the other loops *)

(** In the loops of the crimes, the crashes, the licenses and the potholes
    of the file-based scripts, the ward and the address of a cell are the
    first non-empty text that the rows folded into the cell carry for them,
    in the order of the rows, and the empty text when no row carries one. *)
Theorem file_latches_first_nonempty (recent : clock) (rows : list row) :
  (exists blocks,
      fold_rows Neighborhood.Crimes.body rows [] = Some blocks /\
      forall k b, In (k, b) blocks ->
        or_empty (Neighborhood.Crimes.ward b)
        = first_nonempty (map (fun r => field r "WARD") (members Cells.crimes k rows)) /\
        or_empty (Neighborhood.Crimes.address b)
        = first_nonempty (map (fun r => field r "BLOCK") (members Cells.crimes k rows))) /\
  (exists blocks,
      fold_rows Neighborhood.Crashes.body rows [] = Some blocks /\
      forall k b, In (k, b) blocks ->
        or_empty (Neighborhood.Crashes.address b)
        = first_nonempty
            (map (fun r => join3_strip (field r "STREET_NO") (field r "STREET_DIRECTION")
                             (field r "STREET_NAME"))
               (members Cells.crashes k rows))) /\
  (exists blocks,
      fold_rows Additional.Licenses.body rows [] = Some blocks /\
      forall k b, In (k, b) blocks ->
        or_empty (Additional.Licenses.ward b)
        = first_nonempty (map (fun r => field r "WARD") (members Cells.additional k rows)) /\
        or_empty (Additional.Licenses.address b)
        = first_nonempty
            (map (fun r => field r "ADDRESS") (members Cells.additional k rows))) /\
  (exists blocks,
      fold_rows (Additional.Potholes.body recent) rows [] = Some blocks /\
      forall k b, In (k, b) blocks ->
        or_empty (Additional.Potholes.address b)
        = first_nonempty
            (map (fun r => field r "ADDRESS") (members Cells.additional k rows))).
Proof.
  refine (conj _ (conj _ (conj _ _))).
  - destruct (loop_returns _ _ _ _ crimes_not_raised crimes_body rows) as (blocks & Hf & _).
    exists blocks. split; [exact Hf | ]. intros k b Hi.
    pose proof (entry_cell _ _ _ _ crimes_body (fun r => place_key_refl_002 _)
                  rows blocks k b Hf Hi) as L.
    split.
    + exact (cell_latch _ _ _ _ crimes_not_raised crimes_body
               Neighborhood.Crimes.ward (fun r => field r "WARD") eq_refl
               (fun _ _ => eq_refl) rows blocks k b Hf L).
    + exact (cell_latch _ _ _ _ crimes_not_raised crimes_body
               Neighborhood.Crimes.address (fun r => field r "BLOCK") eq_refl
               (fun _ _ => eq_refl) rows blocks k b Hf L).
  - destruct (loop_returns _ _ _ _ crashes_not_raised crashes_body rows)
      as (blocks & Hf & _).
    exists blocks. split; [exact Hf | ]. intros k b Hi.
    pose proof (entry_cell _ _ _ _ crashes_body (fun r => place_key_refl_002 _)
                  rows blocks k b Hf Hi) as L.
    exact (cell_latch _ _ _ _ crashes_not_raised crashes_body
             Neighborhood.Crashes.address
             (fun r => join3_strip (field r "STREET_NO") (field r "STREET_DIRECTION")
                         (field r "STREET_NAME"))
             eq_refl (fun _ _ => eq_refl) rows blocks k b Hf L).
  - destruct (loop_returns _ _ _ _ additional_not_raised licenses_body rows)
      as (blocks & Hf & _).
    exists blocks. split; [exact Hf | ]. intros k b Hi.
    pose proof (entry_cell _ _ _ _ licenses_body (fun r => place_key_refl_004 _)
                  rows blocks k b Hf Hi) as L.
    split.
    + exact (cell_latch _ _ _ _ additional_not_raised licenses_body
               Additional.Licenses.ward (fun r => field r "WARD") eq_refl
               (fun _ _ => eq_refl) rows blocks k b Hf L).
    + exact (cell_latch _ _ _ _ additional_not_raised licenses_body
               Additional.Licenses.address (fun r => field r "ADDRESS") eq_refl
               (fun _ _ => eq_refl) rows blocks k b Hf L).
  - destruct (loop_returns _ _ _ _ additional_not_raised (potholes_body recent) rows)
      as (blocks & Hf & _).
    exists blocks. split; [exact Hf | ]. intros k b Hi.
    pose proof (entry_cell _ _ _ _ (potholes_body recent) (fun r => place_key_refl_004 _)
                  rows blocks k b Hf Hi) as L.
    exact (cell_latch _ _ _ _ additional_not_raised (potholes_body recent)
             Additional.Potholes.address (fun r => field r "ADDRESS") eq_refl
             (fun _ _ => eq_refl) rows blocks k b Hf L).
Qed.

(** The same for the address of the four loops of the update script. *)
Theorem update_latches_first_nonempty (rows : list row) :
  (exists blocks,
      fold_rows Update.Violations.body rows [] = Some blocks /\
      forall k b, In (k, b) blocks ->
        or_empty (Update.Violations.address b)
        = first_nonempty (map (fun r => field r "address") (members Cells.update k rows))) /\
  (exists blocks,
      fold_rows Update.Potholes.body rows [] = Some blocks /\
      forall k b, In (k, b) blocks ->
        or_empty (Update.Potholes.address b)
        = first_nonempty
            (map (fun r => field r "street_address") (members Cells.update k rows))) /\
  (exists blocks,
      fold_rows Update.Permits.body rows [] = Some blocks /\
      forall k b, In (k, b) blocks ->
        or_empty (Update.Permits.address b)
        = first_nonempty
            (map (fun r => join3_strip (field r "street_number")
                             (field r "street_direction") (field r "street_name"))
               (members Cells.update k rows))) /\
  (exists blocks,
      fold_rows Update.Licenses.body rows [] = Some blocks /\
      forall k b, In (k, b) blocks ->
        or_empty (Update.Licenses.address b)
        = first_nonempty (map (fun r => field r "address") (members Cells.update k rows))).
Proof.
  refine (conj _ (conj _ (conj _ _))).
  - destruct (loop_returns _ _ _ _ update_not_raised update_violations_body rows)
      as (blocks & Hf & _).
    exists blocks. split; [exact Hf | ]. intros k b Hi.
    pose proof (entry_cell _ _ _ _ update_violations_body (fun r => place_key_refl_002 _)
                  rows blocks k b Hf Hi) as L.
    exact (cell_latch _ _ _ _ update_not_raised update_violations_body
             Update.Violations.address (fun r => field r "address") eq_refl
             (fun _ _ => eq_refl) rows blocks k b Hf L).
  - destruct (loop_returns _ _ _ _ update_not_raised update_potholes_body rows)
      as (blocks & Hf & _).
    exists blocks. split; [exact Hf | ]. intros k b Hi.
    pose proof (entry_cell _ _ _ _ update_potholes_body (fun r => place_key_refl_002 _)
                  rows blocks k b Hf Hi) as L.
    exact (cell_latch _ _ _ _ update_not_raised update_potholes_body
             Update.Potholes.address (fun r => field r "street_address") eq_refl
             (fun _ _ => eq_refl) rows blocks k b Hf L).
  - destruct (loop_returns _ _ _ _ update_not_raised update_permits_body rows)
      as (blocks & Hf & _).
    exists blocks. split; [exact Hf | ]. intros k b Hi.
    pose proof (entry_cell _ _ _ _ update_permits_body (fun r => place_key_refl_002 _)
                  rows blocks k b Hf Hi) as L.
    exact (cell_latch _ _ _ _ update_not_raised update_permits_body
             Update.Permits.address
             (fun r => join3_strip (field r "street_number")
                         (field r "street_direction") (field r "street_name"))
             eq_refl (fun _ _ => eq_refl) rows blocks k b Hf L).
  - destruct (loop_returns _ _ _ _ update_not_raised update_licenses_body rows)
      as (blocks & Hf & _).
    exists blocks. split; [exact Hf | ]. intros k b Hi.
    pose proof (entry_cell _ _ _ _ update_licenses_body (fun r => place_key_refl_002 _)
                  rows blocks k b Hf Hi) as L.
    exact (cell_latch _ _ _ _ update_not_raised update_licenses_body
             Update.Licenses.address (fun r => field r "address") eq_refl
             (fun _ _ => eq_refl) rows blocks k b Hf L).
Qed.

(** ** Inputs without an accepted row *)




End FieldSums.

Section FetchedRuns.

#[local] Open Scope string_scope.
#[local] Open Scope Z_scope.

(** * The fetched datasets of the update script *)





(** ** Crimes *)



(** ** 311 service requests *)

Lemma fold_keep_returns {S : Type} (body : row -> S -> option S) (rows : list row)
  (s s' : S) :
  fold_rows body rows s = Some s' -> fold_keep body rows s = s'.
Proof.
  revert s. induction rows as [ | r t IH]; intros s; cbn [fold_rows fold_keep].
  - intros [= <-]. reflexivity.
  - destruct (body r s) as [s1 | ]; cbn [bind]; [apply IH | discriminate].
Qed.

Lemma tagged_body_eq (ninety category : string) (r : row) blocks :
  tagged_body ninety (tagged category r) blocks
  = Fetched.Requests.body ninety category r blocks.
Proof. reflexivity. Qed.

Lemma fold_tagged (ninety category : string) (rows : list row) blocks :
  fold_rows (tagged_body ninety) (map (tagged category) rows) blocks
  = fold_rows (Fetched.Requests.body ninety category) rows blocks.
Proof.
  revert blocks. induction rows as [ | r t IH]; intros blocks; cbn [map fold_rows].
  - reflexivity.
  - rewrite tagged_body_eq.
    destruct (Fetched.Requests.body ninety category r blocks); cbn [bind];
      [apply IH | reflexivity].
Qed.

Lemma tagged_step (ninety : string) (r : row) blocks :
  tagged_body ninety r blocks
  = grid_step Neighborhood.Requests.new_block Cells.update
      (fun r => Fetched.Requests.accumulate ninety (field r query_column) r) r blocks.
Proof. apply (place_step Update.BLOCK_SIZE). Qed.

Lemma tagged_from (ninety : string) (rows : list row) blocks :
  exists blocks', fold_rows (tagged_body ninety) rows blocks = Some blocks'.
Proof.
  destruct (grid_fold_from Neighborhood.Requests.new_block Cells.update
              (fun r => Fetched.Requests.accumulate ninety (field r query_column) r)
              update_not_raised rows blocks) as (b' & Hb & _).
  exists b'. rewrite <- Hb. apply fold_rows_ext, tagged_step.
Qed.

(** The loops over the replies are one loop over the tagged rows. *)
Lemma cells_tagged (fetched : string -> option (list row)) (ninety : string) :
  fold_rows (tagged_body ninety) (tagged_rows fetched) []
  = Some (Fetched.Requests.cells fetched ninety).
Proof.
  unfold Fetched.Requests.cells, tagged_rows.
  generalize (@nil ((float * float) * Neighborhood.Requests.block)).
  induction Fetched.Requests.queries as [ | q t IH]; intros blocks;
    cbn [flat_map fold_left].
  - reflexivity.
  - rewrite fold_rows_app. unfold Fetched.Requests.one_type at 2.
    destruct (fetched (snd q)) as [rows | ]; cbn [fold_rows bind].
    + rewrite fold_tagged.
      destruct (tagged_from ninety (map (tagged (fst q)) rows) blocks) as (b' & Hb).
      rewrite fold_tagged in Hb. rewrite Hb. cbn [bind].
      rewrite (fold_keep_returns _ _ _ _ Hb). apply IH.
    + apply IH.
Qed.

Lemma tagged_length (fetched : string -> option (list row)) :
  List.length (tagged_rows fetched) = List.length (fetched_rows fetched).
Proof.
  unfold tagged_rows, fetched_rows.
  induction Fetched.Requests.queries as [ | q t IH]; cbn [flat_map]; [reflexivity | ].
  rewrite !length_app, IH. destruct (fetched (snd q)); [rewrite length_map | ]; reflexivity.
Qed.

(** [process_311] of the update script returns an output whatever fetches
    raised, when the replies hold fewer than [10^300] rows in all: a query
    whose fetch raised contributes no row, no row ends the loop of its
    reply early, and the output is in descending order of the count, with
    consistent [blocks] and [total], every cell written having a count of at
    least 3, a score between 0 and 100, a recent count between 0 and the
    count, and category counts that add up to the count. *)
Theorem fetched_311_output (fetched : string -> option (list row)) (ninety : string) :
  Z.of_nat (List.length (fetched_rows fetched)) < huge ->
  exists out,
    Fetched.process_311 fetched ninety = Some out /\
    well_formed 3 Neighborhood.Requests.e_count out /\
    forall e, In e (data out) ->
      0 <= Neighborhood.Requests.e_score e <= 100 /\
      0 <= Neighborhood.Requests.e_recent e <= Neighborhood.Requests.e_count e /\
      Zsum (map snd (Neighborhood.Requests.e_categories e))
      = Neighborhood.Requests.e_count e.
Proof.
  intros Hlen. rewrite <- tagged_length in Hlen.
  destruct (requests_output _ _ _ update_not_raised (tagged_step ninety)
              (fun r => place_key_refl_002 _) (fun r => field r query_column)
              (Fetched.Requests.is_recent ninety)
              (fun _ _ => eq_refl) (fun _ _ => eq_refl) (fun _ _ => eq_refl)
              (tagged_rows fetched) Hlen)
    as (blocks & out & Hf & Ho & Hw & He).
  rewrite cells_tagged in Hf. injection Hf as <-.
  exists out. split; [exact Ho | split; assumption].
Qed.

Lemma fetched_311_output_witness :
  Z.of_nat (List.length (fetched_rows potholes_only)) < huge /\
  exists out,
    Fetched.process_311 potholes_only "2025-10-01T00:00:00" = Some out /\
    well_formed 3 Neighborhood.Requests.e_count out /\
    forall e, In e (data out) ->
      0 <= Neighborhood.Requests.e_score e <= 100 /\
      0 <= Neighborhood.Requests.e_recent e <= Neighborhood.Requests.e_count e /\
      Zsum (map snd (Neighborhood.Requests.e_categories e))
      = Neighborhood.Requests.e_count e.
Proof.
  split; [reflexivity | ].
  apply (fetched_311_output potholes_only "2025-10-01T00:00:00"). reflexivity.
Defined.

End FetchedRuns.

Section Categories.

#[local] Open Scope string_scope.
#[local] Open Scope Z_scope.

(** * Categories *)

Lemma first_containing_In (table : list (string * string)) (text c : string) :
  first_containing table text = Some c -> In c (map snd table).
Proof.
  induction table as [ | [kw cat] t IH]; cbn [first_containing map snd In];
    [discriminate | ].
  destruct (Str.contains kw text); [intros [= <-]; left; reflexivity | ].
  intros H. right. apply IH, H.
Qed.

Lemma first_containing_none (table : list (string * string)) (text : string) :
  (forall kw, In kw (map fst table) -> Str.contains kw text = false) ->
  first_containing table text = None.
Proof.
  induction table as [ | [kw cat] t IH]; cbn [first_containing map fst In]; intros H;
    [reflexivity | ].
  rewrite (H kw (or_introl eq_refl)). apply IH. intros k Hk. apply H. right. exact Hk.
Qed.

Lemma upper_or_empty (s : string) :
  (if Str.truthy s then Str.upper s else "") = Str.upper s.
Proof. destruct s; reflexivity. Qed.

Lemma In_names (c : string) (names table : list string) :
  (forall x, In x table -> In x names) -> In c table -> In c names.
Proof. intros H. apply H. Qed.

(** [get_permit_type] and [get_license_type] return one of the names of
    their table; they depend on the text only up to the case of its letters;
    and they return ["other"] when the upper-cased text contains none of the
    keywords. *)
Theorem types_from_text :
  (forall s, In (Additional.Permits.get_permit_type s) permit_type_names) /\
  (forall s t, Str.upper s = Str.upper t ->
               Additional.Permits.get_permit_type s = Additional.Permits.get_permit_type t) /\
  (forall s,
      (forall kw, In kw (map fst (flatten Additional.Permits.PERMIT_TYPES)) ->
                  Str.contains kw (Str.upper s) = false) ->
      Additional.Permits.get_permit_type s = "other") /\
  (forall s, In (Additional.Licenses.get_license_type s) license_type_names) /\
  (forall s t, Str.upper s = Str.upper t ->
               Additional.Licenses.get_license_type s
               = Additional.Licenses.get_license_type t) /\
  (forall s,
      (forall kw, In kw (map fst (flatten Additional.Licenses.LICENSE_TYPES)) ->
                  Str.contains kw (Str.upper s) = false) ->
      Additional.Licenses.get_license_type s = "other").
Proof.
  refine (conj _ (conj _ (conj _ (conj _ (conj _ _))))).
  - intros s. unfold Additional.Permits.get_permit_type. rewrite upper_or_empty.
    destruct (first_containing _ _) as [c | ] eqn:E.
    + apply first_containing_In in E. revert E. apply In_names.
      intros x Hx. vm_compute in Hx. unfold permit_type_names. cbn [In]. tauto.
    + unfold permit_type_names. cbn [In]. tauto.
  - intros s t H. unfold Additional.Permits.get_permit_type.
    rewrite !upper_or_empty, H. reflexivity.
  - intros s H. unfold Additional.Permits.get_permit_type. rewrite upper_or_empty.
    rewrite (first_containing_none _ _ H). reflexivity.
  - intros s. unfold Additional.Licenses.get_license_type. rewrite upper_or_empty.
    destruct (first_containing _ _) as [c | ] eqn:E.
    + apply first_containing_In in E. revert E. apply In_names.
      intros x Hx. vm_compute in Hx. unfold license_type_names. cbn [In]. tauto.
    + unfold license_type_names. cbn [In]. tauto.
  - intros s t H. unfold Additional.Licenses.get_license_type.
    rewrite !upper_or_empty, H. reflexivity.
  - intros s H. unfold Additional.Licenses.get_license_type. rewrite upper_or_empty.
    rewrite (first_containing_none _ _ H). reflexivity.
Qed.

Lemma tally_positive (test : row -> bool) (ms : list row) :
  tally test ms <> 0 -> exists r, In r ms /\ test r = true.
Proof.
  induction ms as [ | r t IH]; [intros H; exfalso; apply H; reflexivity | ].
  rewrite tally_cons. destruct (test r) eqn:E.
  - intros _. exists r. split; [left; reflexivity | exact E].
  - intros H. destruct IH as (x & Hx & Ht); [lia | ].
    exists x. split; [right; exact Hx | exact Ht].
Qed.

Lemma counted_among (cat : row -> string) (names : list string) (ms : list row) :
  (forall r, In r ms -> In (cat r) names) ->
  forall c n, counted cat c ms = Some n -> In c names /\ 0 < n.
Proof.
  intros H c n. unfold counted. cbv zeta.
  destruct (tally _ ms =? 0) eqn:E; [discriminate | ].
  intros [= <-]. apply Z.eqb_neq in E. split.
  - destruct (tally_positive _ ms E) as (r & Hr & Ht).
    apply String.eqb_eq in Ht. subst c. apply H, Hr.
  - pose proof (tally_nonneg (fun r => String.eqb (cat r) c) ms). lia.
Qed.

Lemma crimes_category_known (s : string) :
  In (Neighborhood.Crimes.category_of s) crime_category_names.
Proof.
  unfold Neighborhood.Crimes.category_of.
  destruct (lookup String.eqb s Neighborhood.Crimes.type_to_category) as [c | ] eqn:E.
  - revert E. unfold Neighborhood.Crimes.type_to_category.
    repeat (cbn [lookup]; match goal with
                          | |- (if ?b then _ else _) = _ -> _ =>
                              destruct b; [intros [= <-]; vm_compute; tauto | ]
                          end).
    cbn [lookup]. discriminate.
  - vm_compute. tauto.
Qed.

Lemma requests_category_known (r : row) (k : float * float) :
  Cells.requests r = Folded k -> In (Cells.requests_category r) request_category_names.
Proof.
  unfold Cells.requests, Cells.requests_category.
  destruct (_ || _); [discriminate | ].
  unfold Neighborhood.Requests.find_category.
  destruct (first_containing _ _) as [c | ] eqn:E; [ | discriminate].
  intros _. apply first_containing_In in E. revert E. apply In_names.
  intros x Hx. vm_compute in Hx. unfold request_category_names. cbn [In]. tauto.
Qed.

Lemma members_verdict (verdict_of : row -> verdict) (k : float * float) (rows : list row)
  (r : row) :
  In r (members verdict_of k rows) -> exists k', verdict_of r = Folded k'.
Proof.
  unfold members. rewrite filter_In. intros [_ H].
  destruct (verdict_of r) as [ | | k']; try discriminate. eauto.
Qed.

(** The category counts of a cell hold only names of the table of its
    dataset, each with a positive count: the six request categories, the
    five crime categories, the seven permit types, the six license types. *)
Theorem cell_categories_are_known (recent : clock) (rows : list row) :
  (exists blocks,
      fold_rows (Neighborhood.Requests.body recent) rows [] = Some blocks /\
      forall k b, In (k, b) blocks ->
        categories_among request_category_names (Neighborhood.Requests.categories b)) /\
  (exists blocks,
      fold_rows Neighborhood.Crimes.body rows [] = Some blocks /\
      forall k b, In (k, b) blocks ->
        categories_among crime_category_names (Neighborhood.Crimes.categories b)) /\
  (exists blocks,
      fold_rows (Additional.Permits.body recent) rows [] = Some blocks /\
      forall k b, In (k, b) blocks ->
        categories_among permit_type_names (Additional.Permits.categories b)) /\
  (exists blocks,
      fold_rows Additional.Licenses.body rows [] = Some blocks /\
      forall k b, In (k, b) blocks ->
        categories_among license_type_names (Additional.Licenses.categories b)).
Proof.
  refine (conj _ (conj _ (conj _ _))).
  - destruct (loop_returns _ _ _ _ requests_not_raised (requests_body recent) rows)
      as (blocks & Hf & _).
    exists blocks. split; [exact Hf | ]. intros k b Hi c n.
    pose proof (entry_cell _ _ _ _ (requests_body recent) requests_key_refl
                  rows blocks k b Hf Hi) as L.
    rewrite (cell_categories _ _ _ _ requests_not_raised (requests_body recent)
               Neighborhood.Requests.categories Cells.requests_category eq_refl
               (fun _ _ => eq_refl) rows blocks k b c Hf L).
    apply counted_among. intros r Hr.
    destruct (members_verdict _ _ _ _ Hr) as (k' & Hk).
    exact (requests_category_known r k' Hk).
  - destruct (loop_returns _ _ _ _ crimes_not_raised crimes_body rows) as (blocks & Hf & _).
    exists blocks. split; [exact Hf | ]. intros k b Hi c n.
    pose proof (entry_cell _ _ _ _ crimes_body (fun r => place_key_refl_002 _)
                  rows blocks k b Hf Hi) as L.
    rewrite (cell_categories _ _ _ _ crimes_not_raised crimes_body
               Neighborhood.Crimes.categories Cells.crimes_category eq_refl
               (fun _ _ => eq_refl) rows blocks k b c Hf L).
    apply counted_among. intros r _. apply crimes_category_known.
  - destruct (loop_returns _ _ _ _ additional_not_raised (permits_body recent) rows)
      as (blocks & Hf & _).
    exists blocks. split; [exact Hf | ]. intros k b Hi c n.
    pose proof (entry_cell _ _ _ _ (permits_body recent) (fun r => place_key_refl_004 _)
                  rows blocks k b Hf Hi) as L.
    rewrite (cell_categories _ _ _ _ additional_not_raised (permits_body recent)
               Additional.Permits.categories
               (fun r => Additional.Permits.get_permit_type (field r "PERMIT_TYPE")) eq_refl
               (fun _ _ => eq_refl) rows blocks k b c Hf L).
    apply counted_among. intros r _. apply types_from_text.
  - destruct (loop_returns _ _ _ _ additional_not_raised licenses_body rows)
      as (blocks & Hf & _).
    exists blocks. split; [exact Hf | ]. intros k b Hi c n.
    pose proof (entry_cell _ _ _ _ licenses_body (fun r => place_key_refl_004 _)
                  rows blocks k b Hf Hi) as L.
    rewrite (cell_categories _ _ _ _ additional_not_raised licenses_body
               Additional.Licenses.categories
               (fun r => Additional.Licenses.get_license_type (field r "LICENSE DESCRIPTION"))
               eq_refl (fun _ _ => eq_refl) rows blocks k b c Hf L).
    apply counted_among. intros r _. apply types_from_text.
Qed.

(** * Outputs that depend on the numbers of the rows *)

Lemma crashes_entry_count kv e :
  Neighborhood.Crashes.make_entry kv = Some e ->
  Neighborhood.Crashes.e_count e = Neighborhood.Crashes.count (snd kv).
Proof.
  destruct kv as [[lat lng] b]. unfold Neighborhood.Crashes.make_entry.
  destruct (Neighborhood.Crashes.score b); cbn [bind]; [ | discriminate].
  intros [= <-]. reflexivity.
Qed.

Lemma permits_entry_count kv e :
  Additional.Permits.make_entry kv = Some e ->
  Additional.Permits.e_count e = Additional.Permits.count (snd kv).
Proof.
  destruct kv as [[lat lng] b]. unfold Additional.Permits.make_entry.
  destruct (Additional.Permits.score b); cbn [bind]; [ | discriminate].
  destruct (Py.int (Additional.Permits.total_cost b)); cbn [bind]; [ | discriminate].
  intros [= <-]. reflexivity.
Qed.

Lemma update_permits_entry_count kv e :
  Update.Permits.make_entry kv = Some e ->
  Update.Permits.e_count e = Update.Permits.count (snd kv).
Proof.
  destruct kv as [[lat lng] b]. unfold Update.Permits.make_entry.
  destruct (Py.int (Update.Permits.cost b)); cbn [bind]; [ | discriminate].
  intros [= <-]. reflexivity.
Qed.

(** The crashes and the permits depend on numbers read from the rows (the
    injuries, the costs), which can make the score or the conversion of the
    cost raise.  Whenever [process_crashes], [process_permits] of the
    file-based script or [process_permits] of the update script does write
    an output, the output is in descending order of the count, its [blocks]
    and [total] agree with the array, and every cell written reaches the
    threshold (3, 5 and 2). *)
Theorem written_outputs_are_well_formed (recent : clock) (rows : list row) :
  (forall out, Neighborhood.process_crashes rows = Some out ->
               well_formed 3 Neighborhood.Crashes.e_count out) /\
  (forall out, Additional.process_permits recent rows = Some out ->
               well_formed 5 Additional.Permits.e_count out) /\
  (forall out, Update.process_permits rows = Some out ->
               well_formed 2 Update.Permits.e_count out).
Proof.
  refine (conj _ (conj _ _)); intros out.
  - unfold Neighborhood.process_crashes, Neighborhood.Crashes.process.
    destruct (fold_rows Neighborhood.Crashes.body rows []) as [blocks | ]; cbn [bind];
      [ | discriminate].
    intros H.
    apply (emit_well_formed 3 Neighborhood.Crashes.count Neighborhood.Crashes.make_entry
             Neighborhood.Crashes.e_count crashes_entry_count blocks out H).
  - unfold Additional.process_permits, Additional.Permits.process.
    destruct (fold_rows (Additional.Permits.body recent) rows []) as [blocks | ];
      cbn [bind]; [ | discriminate].
    intros H.
    apply (emit_well_formed 5 Additional.Permits.count Additional.Permits.make_entry
             Additional.Permits.e_count permits_entry_count blocks out H).
  - unfold Update.process_permits, Update.Permits.process.
    destruct (fold_rows Update.Permits.body rows []) as [blocks | ]; cbn [bind];
      [ | discriminate].
    intros H.
    apply (emit_well_formed 2 Update.Permits.count Update.Permits.make_entry
             Update.Permits.e_count update_permits_entry_count blocks out H).
Qed.

Lemma written_outputs_are_well_formed_witness :
  (exists out, Neighborhood.process_crashes (thrice sample_crash) = Some out /\
               well_formed 3 Neighborhood.Crashes.e_count out) /\
  (exists out, Additional.process_permits long_ago five_permits = Some out /\
               well_formed 5 Additional.Permits.e_count out) /\
  (exists out, Update.process_permits (thrice update_permit) = Some out /\
               well_formed 2 Update.Permits.e_count out).
Proof.
  refine (conj _ (conj _ _)).
  - destruct (Neighborhood.process_crashes (thrice sample_crash)) as [out | ] eqn:E;
      [ | vm_compute in E; discriminate E].
    exists out. split; [reflexivity | ].
    exact (proj1 (written_outputs_are_well_formed long_ago (thrice sample_crash)) out E).
  - destruct (Additional.process_permits long_ago five_permits) as [out | ] eqn:E;
      [ | vm_compute in E; discriminate E].
    exists out. split; [reflexivity | ].
    exact (proj1 (proj2 (written_outputs_are_well_formed long_ago five_permits)) out E).
  - destruct (Update.process_permits (thrice update_permit)) as [out | ] eqn:E;
      [ | vm_compute in E; discriminate E].
    exists out. split; [reflexivity | ].
    exact (proj2 (proj2 (written_outputs_are_well_formed long_ago (thrice update_permit)))
             out E).
Defined.

End Categories.
